(** * jsonl_utils: record transformers, identity resolution, merge and
      single-file processing

    A shallow embedding of [jsonl_utils.py].  Python values are an inductive
    type, a [dict] is an association list in insertion order, exceptions are
    an explicit result type, sets of identity strings are [gset string], and
    the heap view of the transformers (used for the frame properties) keeps
    objects in a [gmap] from locations. *)

From stdpp Require Import gmap strings list.
From Stdlib Require Import ZArith String Ascii DecimalString Lia.
From Stdlib Require Import Floats.SpecFloat.

Set Warnings "-register-all,-clear-no-such-hyp".

Local Open Scope string_scope.
Local Open Scope list_scope.
Local Open Scope Z_scope.

(** ** Python values as produced by [json.loads] *)

(** [None], [bool], [int], [float], [str], [list] and [dict].  A [str] is a
    sequence of characters with code points below 256; a [float] is an
    IEEE 754 value in the sign/mantissa/exponent form of [spec_float]; a
    [dict] lists its items in insertion order. *)
Inductive json : Type :=
| JNull
| JBool (b : bool)
| JInt (z : Z)
| JFloat (f : spec_float)
| JStr (s : string)
| JArr (l : list json)
| JObj (d : list (string * json)).

Abbreviation dict := (list (string * json)).

(** Exceptions the program can raise, and results of fallible code. *)
Inductive exn : Type :=
| ValueError (msg : string)
| TypeError
| AttributeError
| KeyError
| OSError
| Exit (code : Z).

Inductive result (A : Type) : Type :=
| Ok (a : A)
| Raise (e : exn).
Arguments Ok {A} a.
Arguments Raise {A} e.

Definition bind {A B : Type} (r : result A) (k : A -> result B) : result B :=
  match r with
  | Ok a => k a
  | Raise e => Raise e
  end.

Notation "'let*' x ':=' c 'in' k" := (bind c (fun x => k))
  (at level 10, x name, c at level 100, k at level 200).

(** ** Characters and strings *)

Definition dquote : ascii := "034"%char.
Definition newline : ascii := "010"%char.
Definition nl : string := String newline EmptyString.

(** [str.isspace] on the characters below 256. *)
Definition is_space (c : ascii) : bool :=
  let n := N_of_ascii c in
  ((9 <=? n) && (n <=? 13) || (28 <=? n) && (n <=? 32) || (n =? 133) || (n =? 160))%N.

Fixpoint lstrip (s : string) : string :=
  match s with
  | EmptyString => EmptyString
  | String c s' => if is_space c then lstrip s' else s
  end.

Fixpoint rstrip (s : string) : string :=
  match s with
  | EmptyString => EmptyString
  | String c s' =>
      match rstrip s' with
      | EmptyString => if is_space c then EmptyString else String c EmptyString
      | r => String c r
      end
  end.

(** [s.strip()] *)
Definition strip (s : string) : string := rstrip (lstrip s).

(** [not s] for a string. *)
Definition is_empty (s : string) : bool :=
  match s with
  | EmptyString => true
  | String _ _ => false
  end.

(** [s.endswith('\n')] *)
Fixpoint ends_with_newline (s : string) : bool :=
  match s with
  | EmptyString => false
  | String c EmptyString => Ascii.eqb c newline
  | String _ s' => ends_with_newline s'
  end.

Fixpoint has_char (c : ascii) (s : string) : bool :=
  match s with
  | EmptyString => false
  | String c' s' => Ascii.eqb c' c || has_char c s'
  end.

(** [sub in s] for two strings. *)
Fixpoint is_substring (sub s : string) : bool :=
  String.prefix sub s ||
  match s with
  | EmptyString => false
  | String _ s' => is_substring sub s'
  end.

Fixpoint concat_map (f : ascii -> string) (s : string) : string :=
  match s with
  | EmptyString => EmptyString
  | String c s' => f c +:+ concat_map f s'
  end.

Definition hex_digit (n : N) : ascii :=
  if (n <? 10)%N then ascii_of_N (48 + n) else ascii_of_N (87 + n).

Definition hex2 (c : ascii) : string :=
  let n := N_of_ascii c in
  String (hex_digit (n / 16)) (String (hex_digit (n mod 16)) EmptyString).

(** [str(z)] for an [int]. *)
Definition int_str (z : Z) : string := NilZero.string_of_int (Z.to_int z).

(** ** Dictionaries *)

(** The items of a dict in insertion order; the values are [json] trees
    here and heap values further down.  Look a key up; [None] when it is
    absent ([k in d] is [dict_mem]). *)
Fixpoint dict_get {V : Type} (d : list (string * V)) (k : string) : option V :=
  match d with
  | [] => None
  | (k', v) :: d' => if String.eqb k' k then Some v else dict_get d' k
  end.

Definition dict_mem {V : Type} (d : list (string * V)) (k : string) : bool :=
  match dict_get d k with
  | Some _ => true
  | None => false
  end.

(** [d.get(k)]: the value, or [None] (here [JNull]) when the key is absent. *)
Definition py_get (d : dict) (k : string) : json :=
  match dict_get d k with
  | Some v => v
  | None => JNull
  end.

(** [d[k] = v]: an existing key keeps its position and takes the new value, a
    new key goes to the end. *)
Fixpoint dict_set {V : Type} (d : list (string * V)) (k : string) (v : V)
  : list (string * V) :=
  match d with
  | [] => [(k, v)]
  | (k', v') :: d' =>
      if String.eqb k' k then (k', v) :: d' else (k', v') :: dict_set d' k v
  end.

Definition keys {V : Type} (d : list (string * V)) : list string := map fst d.

(** ** Truth value and equality *)

(** [bool(v)] *)
Definition truthy (v : json) : bool :=
  match v with
  | JNull => false
  | JBool b => b
  | JInt z => negb (z =? 0)
  | JFloat (S754_zero _) => false
  | JFloat _ => true
  | JStr s => negb (is_empty s)
  | JArr l => match l with [] => false | _ => true end
  | JObj d => match d with [] => false | _ => true end
  end.

(** Numbers compare by exact value, with [True] as 1 and [False] as 0. *)
Inductive num : Type :=
| NInt (z : Z)
| NFloat (f : spec_float).

Definition as_num (v : json) : option num :=
  match v with
  | JBool b => Some (NInt (if b then 1 else 0))
  | JInt z => Some (NInt z)
  | JFloat f => Some (NFloat f)
  | _ => None
  end.

Definition int_eq_float (z : Z) (f : spec_float) : bool :=
  match f with
  | S754_zero _ => z =? 0
  | S754_finite s m e =>
      let sm := if s then Z.neg m else Z.pos m in
      if 0 <=? e then z =? sm * 2 ^ e else z * 2 ^ (- e) =? sm
  | _ => false
  end.

Definition float_eq (f g : spec_float) : bool :=
  match f, g with
  | S754_zero _, S754_zero _ => true
  | S754_infinity s, S754_infinity t => Bool.eqb s t
  | S754_finite s m e, S754_finite t n e' =>
      Bool.eqb s t &&
      (Z.pos m * 2 ^ (e - Z.min e e') =? Z.pos n * 2 ^ (e' - Z.min e e'))
  | _, _ => false
  end.

Definition num_eq (x y : num) : bool :=
  match x, y with
  | NInt a, NInt b => a =? b
  | NInt a, NFloat f => int_eq_float a f
  | NFloat f, NInt b => int_eq_float b f
  | NFloat f, NFloat g => float_eq f g
  end.

(** [a == b] *)
Fixpoint py_eq (a b : json) {struct a} : bool :=
  match a, b with
  | JNull, JNull => true
  | JStr s, JStr t => String.eqb s t
  | JArr l, JArr l' =>
      (fix go (l l' : list json) : bool :=
         match l, l' with
         | [], [] => true
         | x :: l, y :: l' => py_eq x y && go l l'
         | _, _ => false
         end) l l'
  | JObj d, JObj d' =>
      Nat.eqb (List.length d) (List.length d') &&
      forallb (fun kv => match dict_get d' (fst kv) with
                         | Some v' => py_eq (snd kv) v'
                         | None => false
                         end) d
  | _, _ =>
      match as_num a, as_num b with
      | Some x, Some y => num_eq x y
      | _, _ => false
      end
  end.

(** [x in l] for a list [l]. *)
Definition list_contains (x : json) (l : list json) : bool :=
  existsb (fun y => py_eq y x) l.

(** ** The record transformers *)

(** [add_keys]: copy the record, then assign every item of [keys_to_add]. *)
Definition add_keys (record keys_to_add : dict) : dict :=
  fold_left (fun result kv => dict_set result (fst kv) (snd kv))
            keys_to_add record.

(** The rename map is a [dict] from old names to new names; its values are
    strings. *)
Abbreviation renames := (list (string * string)).

(** The name a key is emitted under. *)
Definition renamed (keys_to_modify : renames) (key : string) : string :=
  match dict_get keys_to_modify key with
  | Some new => new
  | None => key
  end.

(** [modify_keys]: start from the empty dict and assign every item of the
    record under its new or its own name. *)
Definition modify_keys (record : dict) (keys_to_modify : renames) : dict :=
  fold_left (fun result kv =>
               dict_set result (renamed keys_to_modify (fst kv)) (snd kv))
            record [].

(** A value of the ChatML configuration: something that is not a list, or a
    list of source field names. *)
Inductive chatml_spec : Type :=
| NotList
| Fields (source_fields : list string).

Abbreviation chatml_config := (list (string * chatml_spec)).

Definition message (role : string) (content : json) : json :=
  JObj [("role", JStr role); ("content", content)].

(** [if record.get(field): messages.append({'role': role, 'content':
    record[field]})] *)
Definition message_of (record : dict) (role field : string) : list json :=
  match dict_get record field with
  | Some content => if truthy content then [message role content] else []
  | None => []
  end.

(** The messages of one configuration entry; [None] where the loop body
    hits [continue] because the list has neither 2 nor 3 names. *)
Definition chatml_messages (record : dict) (source_fields : list string)
  : option (list json) :=
  match source_fields with
  | [user_field; assistant_field] =>
      Some (message_of record "user" user_field
            ++ message_of record "assistant" assistant_field)
  | [system_field; user_field; assistant_field] =>
      Some (message_of record "system" system_field
            ++ message_of record "user" user_field
            ++ message_of record "assistant" assistant_field)
  | _ => None
  end.

Definition chatml_step (record result : dict) (entry : string * chatml_spec)
  : dict :=
  match snd entry with
  | NotList => result
  | Fields source_fields =>
      match chatml_messages record source_fields with
      | None => result
      | Some [] => result
      | Some messages => dict_set result (fst entry) (JArr messages)
      end
  end.

(** [convert_to_chatml_function]: the messages are read from [record], the
    assignments go to its copy. *)
Definition convert_to_chatml_function (record : dict) (config : chatml_config)
  : dict :=
  fold_left (chatml_step record) config record.

(** [should_delete_record]; an empty [delete_conditions] has no item to loop
    over, so the [if not delete_conditions] guard is the [[]] case. *)
Fixpoint should_delete_record (record delete_conditions : dict) : bool :=
  match delete_conditions with
  | [] => false
  | (key, value_condition) :: rest =>
      match dict_get record key with
      | Some record_value =>
          match value_condition with
          | JArr l =>
              list_contains record_value l || should_delete_record record rest
          | _ =>
              py_eq record_value value_condition
              || should_delete_record record rest
          end
      | None => should_delete_record record rest
      end
  end.

(** ** Running a loop body that can raise *)

(** A [for] loop whose body raises: the exception ends the loop. *)
Fixpoint foldM {A S : Type} (body : S -> A -> result S) (l : list A) (s : S)
  : result S :=
  match l with
  | [] => Ok s
  | x :: l' => let* s' := body s x in foldM body l' s'
  end.

(** A loop whose state holds effects already performed (lines written): a
    body that raises leaves its state next to the exception, and the loop
    stops there. *)
Definition attempt {S : Type} (s : S) (r : result S) : S * option exn :=
  match r with
  | Ok s' => (s', None)
  | Raise e => (s, Some e)
  end.

Fixpoint run {A S : Type} (body : S -> A -> S * option exn) (l : list A)
  (s : S) : S * option exn :=
  match l with
  | [] => (s, None)
  | x :: l' =>
      match body s x with
      | (s', None) => run body l' s'
      | stopped => stopped
      end
  end.

(** ** Operations on a value that need not be a [dict] *)

(** [json.loads] accepts any JSON value on a line, so the loops below receive
    a [json], not a [dict].  These are the operations the code applies to
    it, with the exception Python raises on the wrong type. *)

(** [key in v] *)
Definition py_in (key : string) (v : json) : result bool :=
  match v with
  | JObj d => Ok (dict_mem d key)
  | JArr l => Ok (list_contains (JStr key) l)
  | JStr s => Ok (is_substring key s)
  | _ => Raise TypeError
  end.

(** [v.get(key)] *)
Definition get_dyn (v : json) (key : string) : result json :=
  match v with
  | JObj d => Ok (py_get d key)
  | _ => Raise AttributeError
  end.

(** [v.copy()] *)
Definition copy_dyn (v : json) : result json :=
  match v with
  | JObj _ | JArr _ => Ok v
  | _ => Raise AttributeError
  end.

(** [should_delete_record] on a value that is not a dict: [key in record]
    may hold for a list or a string, and then [record[key]] raises. *)
Fixpoint should_delete_other (record : json) (delete_conditions : dict)
  : result bool :=
  match delete_conditions with
  | [] => Ok false
  | (key, _) :: rest =>
      let* present := py_in key record in
      if present then Raise TypeError else should_delete_other record rest
  end.

Definition should_delete_dyn (record : json) (delete_conditions : dict)
  : result bool :=
  match record with
  | JObj d => Ok (should_delete_record d delete_conditions)
  | _ => should_delete_other record delete_conditions
  end.

(** [add_keys]: a list is copied, and the first assignment [result[key] =
    value] raises. *)
Definition add_keys_dyn (record : json) (keys_to_add : dict) : result json :=
  match record with
  | JObj d => Ok (JObj (add_keys d keys_to_add))
  | JArr l => match keys_to_add with [] => Ok record | _ => Raise TypeError end
  | _ => Raise AttributeError
  end.

(** [modify_keys]: [record.items()] exists on a dict only. *)
Definition modify_keys_dyn (record : json) (keys_to_modify : renames)
  : result json :=
  match record with
  | JObj d => Ok (JObj (modify_keys d keys_to_modify))
  | _ => Raise AttributeError
  end.

(** Does the entry reach the [record.get] calls? *)
Definition reshapes (entry : string * chatml_spec) : bool :=
  match snd entry with
  | Fields [_; _] | Fields [_; _; _] => true
  | _ => false
  end.

(** [convert_to_chatml_function]: a list is copied, and the first entry that
    is not skipped calls [record.get], which a list does not have. *)
Definition convert_to_chatml_dyn (record : json) (config : chatml_config)
  : result json :=
  match record with
  | JObj d => Ok (JObj (convert_to_chatml_function d config))
  | JArr l => if existsb reshapes config then Raise AttributeError else Ok record
  | _ => Raise AttributeError
  end.

(** ** Identity resolution *)

Fixpoint first_present (fields : list string) (record : json)
  : result (option string) :=
  match fields with
  | [] => Ok None
  | field :: rest =>
      let* present := py_in field record in
      if present then Ok (Some field) else first_present rest record
  end.

(** [get_id_field_name] *)
Definition get_id_field_name (record : json) : result (option string) :=
  first_present ["_id"; "uuid"; "id"] record.

(** ** Text forms of values, files, merge and processing *)

(** A file is read as the list of its lines, each with its line ending. *)
Abbreviation lines := (list string).

(** What the program takes from the Python library and from its
    environment: [repr] of a finite float; [json.loads] ([None] stands for
    [JSONDecodeError]); the file system, as the lines of the file at a path,
    if there is one; the [*.jsonl] files of the current directory;
    [Path.stem] and [Path.with_stem]. *)
Class env : Type := {
  float_repr : spec_float -> string;
  json_loads : string -> option json;
  fs : string -> option lines;
  cwd_jsonl : list string;
  path_stem : string -> string;
  path_with_stem : string -> string -> string
}.

Section Program.

Context {Ev : env}.

(** [str(f)] for a float. *)
Definition float_str (f : spec_float) : string :=
  match f with
  | S754_nan => "nan"
  | S754_infinity false => "inf"
  | S754_infinity true => "-inf"
  | _ => float_repr f
  end.

(** One character of [repr(s)]. *)
Definition repr_char (quote c : ascii) : string :=
  let n := N_of_ascii c in
  if Ascii.eqb c quote || (n =? 92)%N then String "\"%char (String c EmptyString)
  else if (n =? 9)%N then "\t"
  else if (n =? 10)%N then "\n"
  else if (n =? 13)%N then "\r"
  else if ((n <? 32) || (n =? 127) || (128 <=? n) && (n <=? 160) || (n =? 173))%N
       then "\x" +:+ hex2 c
  else String c EmptyString.

(** [repr(s)] for a string: single quotes unless the string has a single
    quote and no double quote. *)
Definition str_repr (s : string) : string :=
  let quote := if has_char "'"%char s && negb (has_char dquote s)
               then dquote else "'"%char in
  String quote (concat_map (repr_char quote) s +:+ String quote EmptyString).

(** [repr(v)] *)
Fixpoint py_repr (v : json) : string :=
  match v with
  | JNull => "None"
  | JBool true => "True"
  | JBool false => "False"
  | JInt z => int_str z
  | JFloat f => float_str f
  | JStr s => str_repr s
  | JArr l => "[" +:+ String.concat ", " (map py_repr l) +:+ "]"
  | JObj d =>
      "{" +:+ String.concat ", "
                (map (fun kv => str_repr (fst kv) +:+ ": " +:+ py_repr (snd kv)) d)
          +:+ "}"
  end.

(** [str(v)] *)
Definition py_str (v : json) : string :=
  match v with
  | JStr s => s
  | _ => py_repr v
  end.

(** One character of a JSON string, [ensure_ascii=False]. *)
Definition json_escape (c : ascii) : string :=
  let n := N_of_ascii c in
  if (n =? 34)%N then String "\"%char (String dquote EmptyString)
  else if (n =? 92)%N then "\\"
  else if (n =? 10)%N then "\n"
  else if (n =? 13)%N then "\r"
  else if (n =? 9)%N then "\t"
  else if (n =? 8)%N then "\b"
  else if (n =? 12)%N then "\f"
  else if (n <? 32)%N then "\u00" +:+ hex2 c
  else String c EmptyString.

Definition json_string (s : string) : string :=
  String dquote (concat_map json_escape s +:+ String dquote EmptyString).

Definition json_float (f : spec_float) : string :=
  match f with
  | S754_nan => "NaN"
  | S754_infinity false => "Infinity"
  | S754_infinity true => "-Infinity"
  | _ => float_repr f
  end.

(** [json.dumps(v, ensure_ascii=False)] *)
Fixpoint json_dumps (v : json) : string :=
  match v with
  | JNull => "null"
  | JBool true => "true"
  | JBool false => "false"
  | JInt z => int_str z
  | JFloat f => json_float f
  | JStr s => json_string s
  | JArr l => "[" +:+ String.concat ", " (map json_dumps l) +:+ "]"
  | JObj d =>
      "{" +:+ String.concat ", "
                (map (fun kv => json_string (fst kv) +:+ ": " +:+ json_dumps (snd kv)) d)
          +:+ "}"
  end.

(** *** [collect_ids_from_file] *)

Definition no_id_field (file_path : string) : exn :=
  ValueError ("No valid ID field (_id, uuid, or id) found in " +:+ file_path).

Definition no_valid_records (file_path : string) : exn :=
  ValueError ("No valid records found in " +:+ file_path).

(** The loop state: [ids] and [id_field_name]. *)
Definition collect_state : Type := gset string * option string.

Definition collect_line (file_path : string) (st : collect_state)
  (line : string) : result collect_state :=
  let line_stripped := strip line in
  if is_empty line_stripped then Ok st
  else
    match json_loads line_stripped with
    | None => Ok st
    | Some record =>
        let* id_field_name :=
          match snd st with
          | Some name => Ok name
          | None =>
              let* found := get_id_field_name record in
              match found with
              | Some name => Ok name
              | None => Raise (no_id_field file_path)
              end
          end in
        let* id_value := get_dyn record id_field_name in
        match id_value with
        | JNull => Ok (fst st, Some id_field_name)
        | _ => Ok ({[ py_str id_value ]} ∪ fst st, Some id_field_name)
        end
    end.

Definition open_read (file_path : string) : result lines :=
  match fs file_path with
  | Some content => Ok content
  | None => Raise OSError
  end.

Definition collect_ids_from_file (file_path : string)
  : result (gset string * string) :=
  let* content := open_read file_path in
  let* st := foldM (collect_line file_path) content (∅, None) in
  match snd st with
  | Some id_field_name => Ok (fst st, id_field_name)
  | None => Raise (no_valid_records file_path)
  end.

(** *** [merge_jsonl_files] *)

(** First pass: [all_ids_by_file] and [id_fields_by_file]; a [ValueError]
    of [collect_ids_from_file] becomes [typer.Exit(code=1)]. *)
Definition pass1_state : Type := gmap string (gset string) * gmap string string.

Definition collect_file (st : pass1_state) (file_path : string)
  : result pass1_state :=
  match collect_ids_from_file file_path with
  | Ok (ids, id_field) =>
      Ok (<[file_path := ids]> (fst st), <[file_path := id_field]> (snd st))
  | Raise (ValueError _) => Raise (Exit 1)
  | Raise e => Raise e
  end.

Definition first_pass (file_paths : list string) : result pass1_state :=
  foldM collect_file file_paths (∅, ∅).

(** The size of the union of the values of [all_ids_by_file]; [set.union]
    applied to no set at all raises. *)
Definition total_unique_ids (all_ids_by_file : gmap string (gset string))
  : result nat :=
  match snd <$> map_to_list all_ids_by_file with
  | [] => Raise TypeError
  | sets => Ok (size (⋃ sets))
  end.

(** Second pass.  [out] is the sequence of [outfile.write] calls; [reports]
    holds the per-file line printed after each file. *)
Record merge_state : Type := {
  out : list string;
  seen_ids : gset string;
  total_written : nat;
  total_skipped : nat;
  written_from_file : nat;
  skipped_from_file : nat;
  reports : list (string * nat * nat)
}.

Definition merge_start : merge_state :=
  {| out := []; seen_ids := ∅; total_written := 0; total_skipped := 0;
     written_from_file := 0; skipped_from_file := 0; reports := [] |}.

Definition write_record (st : merge_state) (record : json) (id_str : string)
  : merge_state :=
  {| out := out st ++ [json_dumps record +:+ nl];
     seen_ids := {[ id_str ]} ∪ seen_ids st;
     total_written := S (total_written st);
     total_skipped := total_skipped st;
     written_from_file := S (written_from_file st);
     skipped_from_file := skipped_from_file st;
     reports := reports st |}.

Definition skip_record (st : merge_state) : merge_state :=
  {| out := out st;
     seen_ids := seen_ids st;
     total_written := total_written st;
     total_skipped := S (total_skipped st);
     written_from_file := written_from_file st;
     skipped_from_file := S (skipped_from_file st);
     reports := reports st |}.

Definition merge_line (id_field : string) (st : merge_state) (line : string)
  : result merge_state :=
  let line_stripped := strip line in
  if is_empty line_stripped then Ok st
  else
    match json_loads line_stripped with
    | None => Ok st
    | Some record =>
        let* id_value := get_dyn record id_field in
        match id_value with
        | JNull => Ok st
        | _ =>
            let id_str := py_str id_value in
            if decide (id_str ∈ seen_ids st) then Ok (skip_record st)
            else Ok (write_record st record id_str)
        end
    end.

Definition begin_file (st : merge_state) : merge_state :=
  {| out := out st; seen_ids := seen_ids st;
     total_written := total_written st; total_skipped := total_skipped st;
     written_from_file := 0; skipped_from_file := 0; reports := reports st |}.

Definition end_file (file_path : string) (st : merge_state) : merge_state :=
  {| out := out st; seen_ids := seen_ids st;
     total_written := total_written st; total_skipped := total_skipped st;
     written_from_file := written_from_file st;
     skipped_from_file := skipped_from_file st;
     reports := reports st
                ++ [(file_path, written_from_file st, skipped_from_file st)] |}.

Definition merge_file (id_fields_by_file : gmap string string)
  (st : merge_state) (file_path : string) : merge_state * option exn :=
  match id_fields_by_file !! file_path with
  | None => (st, Some KeyError)
  | Some id_field =>
      match fs file_path with
      | None => (begin_file st, Some OSError)
      | Some content =>
          match run (fun s line => attempt s (merge_line id_field s line))
                    content (begin_file st) with
          | (st', None) => (end_file file_path st', None)
          | stopped => stopped
          end
      end
  end.

Definition second_pass (id_fields_by_file : gmap string string)
  (file_paths : list string) : merge_state * option exn :=
  run (merge_file id_fields_by_file) file_paths merge_start.

(** [merge_jsonl_files]: [Raise] when the first pass or the count of unique
    ids fails, which is before the output file is opened; otherwise the
    count, the state the second pass reached and the exception that stopped
    it, if any.  The input files are taken not to change during the run, so
    the output path is none of them. *)
Definition merge_jsonl_files (file_paths : list string)
  : result (nat * (merge_state * option exn)) :=
  let* st := first_pass file_paths in
  let* unique := total_unique_ids (fst st) in
  Ok (unique, second_pass (snd st) file_paths).

(** *** [validate_jsonl_file] *)

(** The number of lines the validator reads: all of them, or up to and
    including the first non-blank line that does not parse. *)
Fixpoint validator_reads (content : lines) : nat * bool :=
  match content with
  | [] => (0%nat, true)
  | line :: rest =>
      let line_stripped := strip line in
      if is_empty line_stripped then
        let r := validator_reads rest in (S (fst r), snd r)
      else
        match json_loads line_stripped with
        | Some _ => let r := validator_reads rest in (S (fst r), snd r)
        | None => (1%nat, false)
        end
  end.

(** [validate_jsonl_file]; a file that cannot be opened is reported and
    gives [False]. *)
Definition validate_jsonl_file (file_path : string) : bool :=
  match fs file_path with
  | Some content => snd (validator_reads content)
  | None => false
  end.

(** *** The single-file loop of [process] *)

(** The four configuration dicts after [parse_json_arg]. *)
Record config : Type := {
  keys_to_add_dict : dict;
  keys_to_modify_dict : renames;
  delete_conditions_dict : dict;
  chatml_config_dict : chatml_config
}.

(** [modified_record = record.copy()], then each configured operation. *)
Definition transform (cfg : config) (record : json) : result json :=
  let* modified_record := copy_dyn record in
  let* modified_record :=
    match keys_to_add_dict cfg with
    | [] => Ok modified_record
    | keys_to_add => add_keys_dyn modified_record keys_to_add
    end in
  let* modified_record :=
    match keys_to_modify_dict cfg with
    | [] => Ok modified_record
    | keys_to_modify => modify_keys_dyn modified_record keys_to_modify
    end in
  match chatml_config_dict cfg with
  | [] => Ok modified_record
  | chatml => convert_to_chatml_dyn modified_record chatml
  end.

(** [written] is the sequence of [outfile.write] calls, [completed] the
    number of [progress.update(task_id, advance=1)] calls. *)
Record process_state : Type := {
  written : list string;
  records_processed : nat;
  records_deleted : nat;
  completed : nat
}.

Definition process_start : process_state :=
  {| written := []; records_processed := 0; records_deleted := 0;
     completed := 0 |}.

Definition process_line (cfg : config) (st : process_state) (line : string)
  : result process_state :=
  let line_content := strip line in
  if is_empty line_content then
    Ok {| written := written st ++ [nl];
          records_processed := records_processed st;
          records_deleted := records_deleted st;
          completed := S (completed st) |}
  else
    match json_loads line_content with
    | None =>
        Ok {| written := written st ++ [line]
                         ++ (if ends_with_newline line then [] else [nl]);
              records_processed := records_processed st;
              records_deleted := records_deleted st;
              completed := S (completed st) |}
    | Some record =>
        let* delete := should_delete_dyn record (delete_conditions_dict cfg) in
        if delete then
          Ok {| written := written st;
                records_processed := records_processed st;
                records_deleted := S (records_deleted st);
                completed := S (completed st) |}
        else
          let* modified_record := transform cfg record in
          Ok {| written := written st ++ [json_dumps modified_record +:+ nl];
                records_processed := S (records_processed st);
                records_deleted := records_deleted st;
                completed := S (completed st) |}
    end.

Definition process_lines (cfg : config) (content : lines)
  : process_state * option exn :=
  run (fun s line => attempt s (process_line cfg s line)) content process_start.

(** *** The preview branch *)

(** What [show_changes_preview] is given: the first line that is not blank
    and parses, and its modified form, [None] when it would be deleted. *)
Fixpoint preview_lines (cfg : config) (content : lines)
  : result (option (json * option json)) :=
  match content with
  | [] => Ok None
  | line :: rest =>
      let line_content := strip line in
      if is_empty line_content then preview_lines cfg rest
      else
        match json_loads line_content with
        | None => preview_lines cfg rest
        | Some record =>
            let* delete :=
              should_delete_dyn record (delete_conditions_dict cfg) in
            if delete then Ok (Some (record, None))
            else
              let* modified_record := transform cfg record in
              Ok (Some (record, Some modified_record))
        end
  end.

(** *** [process] *)

(** [str.lower] on the characters below 256. *)
Definition lower_char (c : ascii) : ascii :=
  let n := N_of_ascii c in
  if ((65 <=? n) && (n <=? 90)
      || (192 <=? n) && (n <=? 222) && negb (n =? 215))%N
  then ascii_of_N (n + 32) else c.

Fixpoint lower (s : string) : string :=
  match s with
  | EmptyString => EmptyString
  | String c s' => String (lower_char c) (lower s')
  end.

(** [s.split(sep)] for a one-character separator. *)
Fixpoint split_on (sep : ascii) (s : string) : list string :=
  match s with
  | EmptyString => [EmptyString]
  | String c s' =>
      if Ascii.eqb c sep then EmptyString :: split_on sep s'
      else
        match split_on sep s' with
        | [] => [String c EmptyString]
        | piece :: pieces => String c piece :: pieces
        end
  end.

(** [s.endswith(suffix)] *)
Fixpoint ends_with (suffix s : string) : bool :=
  String.eqb s suffix ||
  match s with
  | EmptyString => false
  | String _ s' => ends_with suffix s'
  end.

(** The command-line arguments, the four JSON arguments already parsed. *)
Record arguments : Type := {
  input_file : option string;
  output_file : option string;
  cfg : config;
  merge : option string;
  preview : bool
}.

(** What a run got to when it did not end with an exit status: the merge
    or the processing with the exception that stopped its loop, if any, or
    the preview. *)
Inductive report : Type :=
| Merged (output_path : string) (unique : nat) (st : merge_state)
         (raised : option exn)
| Previewed (shown : option (json * option json))
| Processed (output_path : string) (total_lines : nat) (st : process_state)
            (raised : option exn).

Definition check_merge_name (file_paths : list string) (fname : string)
  : result (list string) :=
  match fs fname with
  | None => Raise (Exit 1)
  | Some _ =>
      if ends_with ".jsonl" fname then Ok (file_paths ++ [fname])
      else Raise (Exit 1)
  end.

(** The files to merge: all of the current directory but earlier merge
    outputs, or the comma-separated names. *)
Definition merge_file_paths (selector : string) : result (list string) :=
  if String.eqb (lower selector) "all" then
    let jsonl_files :=
      List.filter (fun f => negb (ends_with "_merge" (path_stem f))) cwd_jsonl in
    if (List.length jsonl_files <? 2)%nat then Raise (Exit 1) else Ok jsonl_files
  else
    let file_names := map strip (split_on ","%char selector) in
    let* file_paths := foldM check_merge_name file_names [] in
    if (List.length file_paths <? 2)%nat then Raise (Exit 1) else Ok file_paths.

(** The validation loop of the merge branch: per file the validator went
    through, the number of lines it read, and whether all files passed. *)
Fixpoint validate_all (file_paths : list string) : list (string * nat) * bool :=
  match file_paths with
  | [] => ([], true)
  | fpath :: rest =>
      match fs fpath with
      | None => ([(fpath, 0%nat)], false)
      | Some content =>
          let r := validator_reads content in
          if snd r then
            let r' := validate_all rest in ((fpath, fst r) :: fst r', snd r')
          else ([(fpath, fst r)], false)
      end
  end.

(** Is an entry of the ChatML configuration a list of 2 or 3 names? *)
Definition valid_chatml_entry (entry : string * chatml_spec) : bool :=
  match snd entry with
  | NotList => false
  | Fields fields =>
      Nat.eqb (List.length fields) 2 || Nat.eqb (List.length fields) 3
  end.

Definition no_operation (c : config) : bool :=
  match keys_to_add_dict c, keys_to_modify_dict c,
        delete_conditions_dict c, chatml_config_dict c with
  | [], [], [], [] => true
  | _, _, _, _ => false
  end.

Definition process_single (a : arguments) : list (string * nat) * result report :=
  match input_file a with
  | None => ([], Raise (Exit 1))
  | Some input =>
      match fs input with
      | None => ([(input, 0%nat)], Raise (Exit 1))
      | Some content =>
          let r := validator_reads content in
          ([(input, fst r)],
           if negb (snd r) then Raise (Exit 1)
           else if no_operation (cfg a) then Raise (Exit 1)
           else if negb (forallb valid_chatml_entry (chatml_config_dict (cfg a)))
           then Raise (Exit 1)
           else
             let output :=
               match output_file a with
               | Some o => o
               | None => path_with_stem input (path_stem input +:+ "_modified")
               end in
             let total_lines := List.length content in
             if preview a then
               let* shown := preview_lines (cfg a) content in
               Ok (Previewed shown)
             else
               let r := process_lines (cfg a) content in
               Ok (Processed output total_lines (fst r) (snd r)))
      end
  end.

Definition process_merge (a : arguments) (selector : string)
  : list (string * nat) * result report :=
  match merge_file_paths selector with
  | Raise e => ([], Raise e)
  | Ok file_paths =>
      let v := validate_all file_paths in
      (fst v,
       if snd v then
         let merge_output :=
           match output_file a, file_paths with
           | Some o, _ => o
           | None, first_file :: _ =>
               path_with_stem first_file (path_stem first_file +:+ "_merge")
           | None, [] => EmptyString (* not reached: there are two files *)
           end in
         let* r := merge_jsonl_files file_paths in
         Ok (Merged merge_output (fst r) (fst (snd r)) (snd (snd r)))
       else Raise (Exit 1))
  end.

(** [process]: the lines the validator read, per file, and how the run
    ended. *)
Definition process (a : arguments) : list (string * nat) * result report :=
  match merge a with
  | Some selector =>
      if is_empty selector then process_single a else process_merge a selector
  | None => process_single a
  end.

(** The number of input lines the validator has read by the time the run
    ends or fails; the validator is the first to read an input file. *)
Definition lines_validated (o : list (string * nat) * result report) : nat :=
  list_sum (map snd (fst o)).

(** *** Reference definitions for the statements about files *)

(** What a loop makes of a line: nothing for a blank line or one that does
    not parse, the parsed value otherwise. *)
Definition parse_line (line : string) : option json :=
  if is_empty (strip line) then None else json_loads (strip line).

(** The first record of a file: the first line that is not blank and parses. *)
Fixpoint first_valid_record (content : lines) : option json :=
  match content with
  | [] => None
  | line :: rest =>
      match parse_line line with
      | Some record => Some record
      | None => first_valid_record rest
      end
  end.

(** A record that takes part in the merge, with its identity string: a line
    holding an object whose identity field is present and not null. *)
Definition candidate (id_field : string) (line : string)
  : option (string * json) :=
  match parse_line line with
  | Some (JObj d) =>
      match py_get d id_field with
      | JNull => None
      | id_value => Some (py_str id_value, JObj d)
      end
  | _ => None
  end.

Definition file_candidates (id_field : string) (content : lines)
  : list (string * json) :=
  omap (candidate id_field) content.

(** The identity field of a file, as [collect_ids_from_file] fixes it. *)
Definition id_field_of (file_path : string) : option string :=
  match collect_ids_from_file file_path with
  | Ok r => Some (snd r)
  | Raise _ => None
  end.

Definition candidates_of (file_path : string) : list (string * json) :=
  match id_field_of file_path, fs file_path with
  | Some id_field, Some content => file_candidates id_field content
  | _, _ => []
  end.

(** The candidates of the files in the order given, each file in line
    order. *)
Definition all_candidates (file_paths : list string) : list (string * json) :=
  flat_map candidates_of file_paths.

(** First-seen-wins: an item stays when no earlier item has its identity. *)
Fixpoint first_seen (l : list (string * json)) : list (string * json) :=
  match l with
  | [] => []
  | x :: l' => x :: filter (fun y => fst y <> fst x) (first_seen l')
  end.

(** The survivors of [l] when the identities in [seen] are taken. *)
Definition survivors (seen : gset string) (l : list (string * json))
  : list (string * json) :=
  filter (fun y => fst y ∉ seen) (first_seen l).

Definition identities (l : list (string * json)) : gset string :=
  list_to_set (map fst l).

(** The line written for a record. *)
Definition output_line (x : string * json) : string :=
  json_dumps (snd x) +:+ nl.


(** Every line of the file that holds a value holds an object. *)
Definition objects_only (content : lines) : Prop :=
  forall line r, line ∈ content -> parse_line line = Some r ->
                 exists d, r = JObj d.

(** The body of the inner loop of the second pass. *)
Definition merge_body (id_field : string) (s : merge_state) (line : string)
  : merge_state * option exn :=
  attempt s (merge_line id_field s line).

(** [collect_ids_from_file] returns for each of the files. *)
Definition collected (file_paths : list string) : Prop :=
  forall p, p ∈ file_paths -> exists r, collect_ids_from_file p = Ok r.

(** The transformers applied to a record in the order of the loop: add,
    rename, reshape, each only when its configuration is not empty. *)
Definition transform_record (c : config) (record : dict) : dict :=
  let modified_record :=
    match keys_to_add_dict c with
    | [] => record
    | keys_to_add => add_keys record keys_to_add
    end in
  let modified_record :=
    match keys_to_modify_dict c with
    | [] => modified_record
    | keys_to_modify => modify_keys modified_record keys_to_modify
    end in
  match chatml_config_dict c with
  | [] => modified_record
  | chatml => convert_to_chatml_function modified_record chatml
  end.

(** What a line of the input is to the single-file loop. *)
Inductive line_kind : Type :=
| Blank
| Malformed
| Deleted
| Kept (modified_record : dict)
| NotObject.

Definition kind_of (c : config) (line : string) : line_kind :=
  if is_empty (strip line) then Blank
  else
    match json_loads (strip line) with
    | None => Malformed
    | Some (JObj record) =>
        if should_delete_record record (delete_conditions_dict c) then Deleted
        else Kept (transform_record c record)
    | Some _ => NotObject
    end.

(** What the loop writes for a line. *)
Definition emitted (c : config) (line : string) : list string :=
  match kind_of c line with
  | Blank => [nl]
  | Malformed => line :: (if ends_with_newline line then [] else [nl])
  | Kept modified_record => [json_dumps (JObj modified_record) +:+ nl]
  | Deleted | NotObject => []
  end.

Definition is_blank (k : line_kind) : bool :=
  match k with Blank => true | _ => false end.
Definition is_malformed (k : line_kind) : bool :=
  match k with Malformed => true | _ => false end.
Definition is_deleted (k : line_kind) : bool :=
  match k with Deleted => true | _ => false end.
Definition is_kept (k : line_kind) : bool :=
  match k with Kept _ => true | _ => false end.

(** The number of lines of a kind. *)
Definition count_lines (p : line_kind -> bool) (c : config) (content : lines)
  : nat :=
  List.length (List.filter (fun line => p (kind_of c line)) content).

(** The body of the single-file loop. *)
Definition process_body (c : config) (s : process_state) (line : string)
  : process_state * option exn :=
  attempt s (process_line c s line).

(** An entry of the reshape configuration whose list of source fields has
    length 1 or 4. *)
Definition bad_reshape_entry (entry : string * chatml_spec) : Prop :=
  exists fields,
    snd entry = Fields fields
    /\ (List.length fields = 1%nat \/ List.length fields = 4%nat).

(** A run that is rejected before any line of an input file is read. *)
Definition rejected_before_reading (o : list (string * nat) * result report)
  : Prop :=
  snd o = Raise (Exit 1) /\ lines_validated o = 0%nat.

(** The text of a float has no newline in it. *)
Definition no_newline_repr : Prop :=
  forall f, has_char newline (float_repr f) = false.

(** A chunk the second pass writes: the text of an object and a newline. *)
Definition written_chunk (chunk : string) : Prop :=
  exists d, chunk = json_dumps (JObj d) +:+ nl.

End Program.

(** ** Text helpers of the statements *)

(** The text of a file written chunk by chunk. *)
Definition file_text (chunks : list string) : string :=
  fold_right String.append EmptyString chunks.


(** The lines of a text file: each ends with its newline, but perhaps the
    last. *)
Fixpoint text_lines (s : string) : list string :=
  match s with
  | EmptyString => []
  | String c s' =>
      if Ascii.eqb c newline then String c EmptyString :: text_lines s'
      else
        match text_lines s' with
        | [] => [String c EmptyString]
        | line :: rest => String c line :: rest
        end
  end.

(** JSON text written with single quotes in place of double quotes. *)
Fixpoint jtext (s : string) : string :=
  match s with
  | EmptyString => EmptyString
  | String c s' =>
      String (if Ascii.eqb c "'"%char then dquote else c) (jtext s')
  end.

(** A parser that knows the texts of a table and rejects every other text. *)
Definition loads_table (table : list (string * json)) (s : string)
  : option json :=
  dict_get table s.

(** ** The transformers on a heap *)

(** The same four functions with the records as objects in a store, to see
    which objects they write to.  A value is a scalar or a reference to a
    list or dict object; [record.copy()] allocates a dict with the same
    items, so the values of the copy are shared with the original. *)
Abbreviation loc := positive.

Inductive val : Type :=
| VNull
| VBool (b : bool)
| VInt (z : Z)
| VFloat (f : spec_float)
| VStr (s : string)
| VRef (l : loc).

Inductive obj : Type :=
| OList (elems : list val)
| ODict (items : list (string * val)).

Abbreviation heap := (gmap loc obj).

(** The tree a value stands for; [None] when a reference dangles or the
    nesting is deeper than [fuel]. *)
Fixpoint decode (fuel : nat) (h : heap) (v : val) : option json :=
  match v with
  | VNull => Some JNull
  | VBool b => Some (JBool b)
  | VInt z => Some (JInt z)
  | VFloat f => Some (JFloat f)
  | VStr s => Some (JStr s)
  | VRef l =>
      match fuel with
      | O => None
      | S fuel' =>
          match h !! l with
          | Some (OList elems) => JArr <$> mapM (decode fuel' h) elems
          | Some (ODict items) =>
              JObj <$> mapM (fun kv => pair (fst kv) <$> decode fuel' h (snd kv))
                            items
          | None => None
          end
      end
  end.

(** The dict the items of a dict object stand for. *)
Definition decode_items (fuel : nat) (h : heap) (items : list (string * val))
  : option dict :=
  mapM (fun kv => pair (fst kv) <$> decode fuel h (snd kv)) items.

(** An item of a dict object and the item it stands for. *)
Definition items_rel (n : nat) (h : heap) (kv : string * val)
  (kj : string * json) : Prop :=
  fst kv = fst kj /\ decode n h (snd kv) = Some (snd kj).

(** The list object at [messages] stands for the messages [msgs], read
    without the objects at [result] and [messages]. *)
Definition messages_at (n : nat) (result messages : loc) (h : heap)
  (msgs : list json) : Prop :=
  exists elems,
    h !! messages = Some (OList elems)
    /\ Forall2 (fun v j =>
                  decode (S n) (delete result (delete messages h)) v = Some j)
               elems msgs.

(** The dict object at [result] stands for the dict [acc], read without the
    object at [result]. *)
Definition result_at (n : nat) (result : loc) (h : heap) (acc : dict) : Prop :=
  exists items,
    h !! result = Some (ODict items)
    /\ Forall2 (items_rel (S (S n)) (delete result h)) items acc.

(** [bool(v)] *)
Definition h_truthy (h : heap) (v : val) : bool :=
  match v with
  | VNull => false
  | VBool b => b
  | VInt z => negb (z =? 0)
  | VFloat (S754_zero _) => false
  | VFloat _ => true
  | VStr s => negb (is_empty s)
  | VRef l =>
      match h !! l with
      | Some (OList []) | Some (ODict []) | None => false
      | Some _ => true
      end
  end.

(** [d[k] = v] on the dict object at [d]. *)
Definition set_item (d : loc) (k : string) (v : val) (h : heap) : heap :=
  match h !! d with
  | Some (ODict items) => <[d := ODict (dict_set items k v)]> h
  | _ => h
  end.

(** [l.append(v)] on the list object at [l]. *)
Definition append (l : loc) (v : val) (h : heap) : heap :=
  match h !! l with
  | Some (OList elems) => <[l := OList (elems ++ [v])]> h
  | _ => h
  end.

(** A new object at an unused location. *)
Definition alloc (o : obj) (h : heap) : loc * heap :=
  let l := fresh (dom h) in (l, <[l := o]> h).

(** [add_keys]; [None] when an argument is not a dict. *)
Definition h_add_keys (record keys_to_add : loc) (h : heap)
  : option (loc * heap) :=
  match h !! record, h !! keys_to_add with
  | Some (ODict items), Some (ODict additions) =>
      let (result, h) := alloc (ODict items) h in
      Some (result,
            fold_left (fun h kv => set_item result (fst kv) (snd kv) h)
                      additions h)
  | _, _ => None
  end.

(** [modify_keys] *)
Definition h_modify_keys (record : loc) (keys_to_modify : renames) (h : heap)
  : option (loc * heap) :=
  match h !! record with
  | Some (ODict items) =>
      let (result, h) := alloc (ODict []) h in
      Some (result,
            fold_left (fun h kv =>
                         set_item result (renamed keys_to_modify (fst kv))
                                  (snd kv) h)
                      items h)
  | _ => None
  end.

(** [if record.get(field): messages.append({'role': role, 'content':
    record[field]})] *)
Definition h_message_of (record messages : loc) (role field : string)
  (h : heap) : heap :=
  match h !! record with
  | Some (ODict items) =>
      match dict_get items field with
      | Some content =>
          if h_truthy h content then
            let (m, h) :=
              alloc (ODict [("role", VStr role); ("content", content)]) h in
            append messages (VRef m) h
          else h
      | None => h
      end
  | _ => h
  end.

(** [if messages: result[new_key] = messages] *)
Definition h_store_messages (result messages : loc) (new_key : string)
  (h : heap) : heap :=
  match h !! messages with
  | Some (OList (_ :: _)) => set_item result new_key (VRef messages) h
  | _ => h
  end.

Definition h_chatml_step (record result : loc) (h : heap)
  (entry : string * chatml_spec) : heap :=
  match snd entry with
  | Fields [user_field; assistant_field] =>
      let (messages, h) := alloc (OList []) h in
      let h := h_message_of record messages "user" user_field h in
      let h := h_message_of record messages "assistant" assistant_field h in
      h_store_messages result messages (fst entry) h
  | Fields [system_field; user_field; assistant_field] =>
      let (messages, h) := alloc (OList []) h in
      let h := h_message_of record messages "system" system_field h in
      let h := h_message_of record messages "user" user_field h in
      let h := h_message_of record messages "assistant" assistant_field h in
      h_store_messages result messages (fst entry) h
  | _ => h
  end.

(** [convert_to_chatml_function] *)
Definition h_convert_to_chatml_function (record : loc) (config : chatml_config)
  (h : heap) : option (loc * heap) :=
  match h !! record with
  | Some (ODict items) =>
      let (result, h) := alloc (ODict items) h in
      Some (result, fold_left (h_chatml_step record result) config h)
  | _ => None
  end.

(** [a == b] and [a in l] read the two values through the heap. *)
Definition h_eq (h : heap) (a b : val) : option bool :=
  match decode (S (size h)) h a, decode (S (size h)) h b with
  | Some x, Some y => Some (py_eq x y)
  | _, _ => None
  end.

Definition h_contains (h : heap) (a : val) (elems : list val) : option bool :=
  match decode (S (size h)) h a, mapM (decode (S (size h)) h) elems with
  | Some x, Some ys => Some (list_contains x ys)
  | _, _ => None
  end.

Fixpoint h_delete_loop (h : heap) (items : list (string * val))
  (conditions : list (string * val)) : option bool :=
  match conditions with
  | [] => Some false
  | (key, value_condition) :: rest =>
      match dict_get items key with
      | Some record_value =>
          let is_list :=
            match value_condition with
            | VRef l => match h !! l with Some (OList elems) => Some elems | _ => None end
            | _ => None
            end in
          match is_list with
          | Some elems =>
              match h_contains h record_value elems with
              | Some true => Some true
              | Some false => h_delete_loop h items rest
              | None => None
              end
          | None =>
              match h_eq h record_value value_condition with
              | Some true => Some true
              | Some false => h_delete_loop h items rest
              | None => None
              end
          end
      | None => h_delete_loop h items rest
      end
  end.

(** [should_delete_record]: the boolean and the heap it leaves; [None] when
    an argument is not a dict or a comparison fails. *)
Definition h_should_delete_record (record delete_conditions : loc) (h : heap)
  : option (bool * heap) :=
  match h !! record, h !! delete_conditions with
  | Some (ODict items), Some (ODict conditions) =>
      match h_delete_loop h items conditions with
      | Some b => Some (b, h)
      | None => None
      end
  | _, _ => None
  end.

(** ** Reference definitions for the statements *)

(** A list of names without its repetitions, each name at its first place. *)
Fixpoint first_occurrence (l : list string) : list string :=
  match l with
  | [] => []
  | k :: l' => k :: filter (fun k' => k' <> k) (first_occurrence l')
  end.

(** The items of a record under their new names. *)
Definition rename_items (keys_to_modify : renames) (record : dict) : dict :=
  map (fun kv => (renamed keys_to_modify (fst kv), snd kv)) record.

(** One assignment of [modify_keys]. *)
Definition rename_step (keys_to_modify : renames) (result : dict)
  (kv : string * json) : dict :=
  dict_set result (renamed keys_to_modify (fst kv)) (snd kv).

(** The rename map read from new names to old names. *)
Definition inverse (keys_to_modify : renames) : renames :=
  map (fun kv => (snd kv, fst kv)) keys_to_modify.

(** The roles a list of source fields stands for, by its length. *)
Definition roles_for (source_fields : list string) : list string :=
  match List.length source_fields with
  | 2%nat => ["user"; "assistant"]
  | 3%nat => ["system"; "user"; "assistant"]
  | _ => []
  end.

(** The entry for one role and its source field: present when the record
    has the field with a value that counts as true. *)
Definition entry_for (record : dict) (role_field : string * string)
  : option json :=
  match dict_get record (snd role_field) with
  | Some content =>
      if truthy content then Some (message (fst role_field) content) else None
  | None => None
  end.

(** The role/content list as the specification words it. *)
Definition spec_messages (record : dict) (source_fields : list string)
  : list json :=
  omap (entry_for record) (zip (roles_for source_fields) source_fields).

(** ** Data of the examples *)

Definition rec_1 : json := JObj [("id", JInt 1); ("text", JStr "hi")].
Definition rec_2 : json := JObj [("id", JInt 2); ("text", JStr "bye")].
Definition rec_3 : json := JObj [("id", JInt 3); ("text", JStr "yo")].
Definition rec_x : json := JObj [("x", JInt 1)].
Definition text_1 : string := jtext "{'id':1,'text':'hi'}".
Definition text_2 : string := jtext "{'id':2,'text':'bye'}".
Definition text_3 : string := jtext "{'id':3,'text':'yo'}".
Definition text_x : string := jtext "{'x':1}".
Definition file_a : list string := [text_1 +:+ nl; text_2 +:+ nl].
Definition file_b : list string := [text_2 +:+ nl; text_3 +:+ nl].
Definition file_x : list string := [text_x +:+ nl; text_2 +:+ nl].

(** A file system with the three files, a parser for their lines, and a
    stand-in for the text of a float. *)
Definition example_fs (file_path : string) : option (list string) :=
  if String.eqb file_path "a.jsonl" then Some file_a
  else if String.eqb file_path "b.jsonl" then Some file_b
  else if String.eqb file_path "x.jsonl" then Some file_x
  else None.

Definition example_loads : string -> option json :=
  loads_table [(text_1, rec_1); (text_2, rec_2); (text_3, rec_3);
               (text_x, rec_x)].

Definition example_repr (f : spec_float) : string := "0.0".

(** A heap with the record [{"a": 1, "n": [1]}] at 1, its list at 3 and
    the additions [{"a": 2}] at 2. *)
Definition example_heap : heap :=
  <[1%positive := ODict [("a", VInt 1); ("n", VRef 3%positive)]]>
    (<[2%positive := ODict [("a", VInt 2)]]>
       (<[3%positive := OList [VInt 1]]> ∅)).

(** A file with a record, a malformed line without its newline and a blank
    line. *)
Definition file_m : list string := [text_1 +:+ nl; "oops"; nl].

Definition config_add_b : config :=
  {| keys_to_add_dict := [("b", JInt 2)]; keys_to_modify_dict := [];
     delete_conditions_dict := []; chatml_config_dict := [] |}.

(** A reshape configuration with one source field, for one input file and
    for a merge. *)
Definition config_one_field : config :=
  {| keys_to_add_dict := []; keys_to_modify_dict := [];
     delete_conditions_dict := [];
     chatml_config_dict := [("m", Fields ["u"])] |}.

Definition args_one_field : arguments :=
  {| input_file := Some "a.jsonl"; output_file := None;
     cfg := config_one_field; merge := None; preview := false |}.

Definition args_one_field_merge : arguments :=
  {| input_file := None; output_file := None;
     cfg := config_one_field; merge := Some "a.jsonl,b.jsonl";
     preview := false |}.

Definition example_env : env :=
  {| float_repr := example_repr;
     json_loads := example_loads;
     fs := example_fs;
     cwd_jsonl := ["a.jsonl"; "b.jsonl"; "x.jsonl"];
     path_stem := fun p => p;
     path_with_stem := fun p stem => stem |}.

Definition record_chat : dict :=
  [("sys", JStr EmptyString); ("u", JStr "hello"); ("a", JStr "hi")].
Definition chatml_sys_u_a : chatml_config :=
  [("messages", Fields ["sys"; "u"; "a"])].
Definition record_old : dict := [("m", JStr "old")].
Definition chatml_m_u_a : chatml_config := [("m", Fields ["u"; "a"])].

Definition record_b1 : dict := [("b", JInt 1)].
Definition rename_a_b : renames := [("a", "b")].

Definition record_a1 : dict := [("a", JInt 1)].
Definition additions_a2 : dict := [("a", JInt 2)].
Definition record_ab : dict := [("a", JInt 1); ("c", JInt 3)].

(** ** Further definitions for the properties of the code *)

(** One condition of [should_delete_record] against the value of its key:
    [record_value in value_condition] when the condition value is a list,
    [record_value == value_condition] otherwise. *)
Definition condition_matches (record_value value_condition : json) : bool :=
  match value_condition with
  | JArr l => list_contains record_value l
  | _ => py_eq record_value value_condition
  end.

(** The number of lists in a value, those inside dicts not counted. *)
Fixpoint list_weight (v : json) : nat :=
  match v with
  | JArr l => S (list_sum (map list_weight l))
  | _ => 0
  end.

(** A record with a status and two conditions on it. *)
Definition record_spam : dict := [("status", JStr "spam"); ("n", JInt 1)].
Definition cond_status : string * json :=
  ("status", JArr [JStr "spam"; JStr "junk"]).
Definition cond_n : string * json := ("n", JInt 2).

(** A rename map that names no key of [record_ab], and a record with two
    keys that [rename_a_b] emits under one name. *)
Definition rename_x_y : renames := [("x", "y")].
Definition record_a1_b2 : dict := [("a", JInt 1); ("b", JInt 2)].

(** The source fields a ChatML configuration names. *)
Definition chatml_sources (config : chatml_config) : list string :=
  flat_map (fun entry => match snd entry with
                         | Fields source_fields => source_fields
                         | NotList => []
                         end) config.

(** A run that adds the key [a] and renames [a] to [b]. *)
Definition config_add_a_rename : config :=
  {| keys_to_add_dict := [("a", JInt 7)]; keys_to_modify_dict := rename_a_b;
     delete_conditions_dict := []; chatml_config_dict := [] |}.

(** The parts of a line of [reports]: the file, the records written from
    it and the duplicates skipped in it. *)
Definition report_file (r : string * nat * nat) : string := fst (fst r).
Definition report_written (r : string * nat * nat) : nat := snd (fst r).
Definition report_skipped (r : string * nat * nat) : nat := snd r.

(** A JSON value that is neither an object nor a list. *)
Definition is_scalar (v : json) : bool :=
  match v with
  | JObj _ | JArr _ => false
  | _ => true
  end.

(** A second environment: the two files of the merge example alone in the
    current directory, and a parser that also reads the text [5]. *)
Definition example_loads_5 : string -> option json :=
  loads_table [(text_1, rec_1); (text_2, rec_2); (text_3, rec_3);
               ("5", JInt 5)].

Definition example_env_two : env :=
  {| float_repr := example_repr;
     json_loads := example_loads_5;
     fs := example_fs;
     cwd_jsonl := ["a.jsonl"; "b.jsonl"];
     path_stem := fun p => p;
     path_with_stem := fun p stem => stem |}.

Definition args_merge_all : arguments :=
  {| input_file := None; output_file := None; cfg := config_add_b;
     merge := Some "ALL"; preview := false |}.

(** A file with a record, a line holding a number and a record. *)
Definition file_5 : list string := [text_1 +:+ nl; "5" +:+ nl; text_2 +:+ nl].

(** A run that adds the key [b] to the records of [a.jsonl]. *)
Definition args_add_b : arguments :=
  {| input_file := Some "a.jsonl"; output_file := None;
     cfg := config_add_b; merge := None; preview := false |}.


(** ** [show_changes_preview] *)

(** A row of the preview table, by its type and the data its text is made
    from: [Added Key], [Renamed Key], [ChatML Conversion] and
    [Delete Condition]. *)
Inductive preview_row : Type :=
| AddedKey (key : string) (value : json)
| RenamedKey (old_key new_key : string)
| ChatMLConversion (new_key : string) (source_fields : list string)
| DeleteCondition (delete_conditions : dict).

(** [if keys_added: for key, value in keys_added.items(): ...] *)
Definition added_rows (keys_added : option dict) : list preview_row :=
  match keys_added with
  | Some items => map (fun kv => AddedKey (fst kv) (snd kv)) items
  | None => []
  end.

(** [for old_key, new_key in keys_modified.items(): if old_key in
    original: ...] *)
Fixpoint renamed_rows (original : json) (keys_modified : renames)
  : result (list preview_row) :=
  match keys_modified with
  | [] => Ok []
  | (old_key, new_key) :: rest =>
      let* present := py_in old_key original in
      let* rows := renamed_rows original rest in
      Ok (if present then RenamedKey old_key new_key :: rows else rows)
  end.

(** [for new_key, source_fields in chatml_config.items(): if
    isinstance(source_fields, list): ...] *)
Definition chatml_rows (config : option chatml_config) : list preview_row :=
  match config with
  | Some entries =>
      flat_map (fun entry =>
                  match snd entry with
                  | Fields source_fields =>
                      [ChatMLConversion (fst entry) source_fields]
                  | NotList => []
                  end) entries
  | None => []
  end.

(** [if delete_conditions: table.add_row('Delete Condition', ...)] *)
Definition delete_rows (delete_conditions : option dict) : list preview_row :=
  match delete_conditions with
  | Some (condition :: conditions) => [DeleteCondition (condition :: conditions)]
  | _ => []
  end.

(** [show_changes_preview]: the rows of the table it prints and the record
    it prints as example, if any.  The table is printed once all rows are
    there, so an exception on the way leaves nothing printed. *)
Definition show_changes_preview (original : json) (modified : option json)
  (keys_added : option dict) (keys_modified : option renames)
  (delete_conditions : option dict) (chatml : option chatml_config)
  : result (list preview_row * option json) :=
  let* renames_shown :=
    match keys_modified with
    | Some items => renamed_rows original items
    | None => Ok []
    end in
  Ok (added_rows keys_added ++ renames_shown ++ chatml_rows chatml
      ++ delete_rows delete_conditions,
      match modified with
      | Some record => if truthy record then Some record else None
      | None => None
      end).

(** The call of [show_changes_preview] in the preview branch of [process],
    by what [preview_lines] found: the record alone when it would be
    deleted, the record and its modified form otherwise. *)
Definition preview_table (c : config) (shown : json * option json)
  : result (list preview_row * option json) :=
  match snd shown with
  | None =>
      show_changes_preview (fst shown) None None None
                           (Some (delete_conditions_dict c)) None
  | Some modified_record =>
      show_changes_preview (fst shown) (Some modified_record)
                           (Some (keys_to_add_dict c))
                           (Some (keys_to_modify_dict c))
                           (Some (delete_conditions_dict c))
                           (Some (chatml_config_dict c))
  end.

(** A run that deletes the records with [id] 1. *)
Definition config_delete_1 : config :=
  {| keys_to_add_dict := []; keys_to_modify_dict := [];
     delete_conditions_dict := [("id", JInt 1)]; chatml_config_dict := [] |}.

(** * Properties *)

(** ** Dictionaries *)

Section Dict.
Context {V : Type}.
Implicit Types (d : list (string * V)) (k : string) (v : V).

Lemma dict_get_set_eq d k v : dict_get (dict_set d k v) k = Some v.
Proof.
  induction d as [|[k' v'] d IH]; simpl.
  - now rewrite String.eqb_refl.
  - destruct (String.eqb_spec k' k) as [->|Hne]; simpl.
    + now rewrite String.eqb_refl.
    + destruct (String.eqb_spec k' k); [contradiction | exact IH].
Qed.

Lemma dict_get_set_ne d k k' v :
  k <> k' -> dict_get (dict_set d k v) k' = dict_get d k'.
Proof.
  intros Hne. induction d as [|[k0 v0] d IH]; simpl.
  - destruct (String.eqb_spec k k'); [contradiction | reflexivity].
  - destruct (String.eqb_spec k0 k) as [->|Hk]; simpl.
    + destruct (String.eqb_spec k k'); [contradiction | reflexivity].
    + now rewrite IH.
Qed.

Lemma dict_get_None d k : dict_get d k = None <-> k ∉ keys d.
Proof.
  unfold keys. induction d as [|[k' v'] d IH]; simpl.
  - split; [intros _ H; inversion H | reflexivity].
  - rewrite not_elem_of_cons.
    destruct (String.eqb_spec k' k) as [->|Hne].
    + split; [discriminate | intros [H _]; contradiction].
    + rewrite IH. split; [intros H; split; [congruence | exact H] | tauto].
Qed.

Lemma dict_get_Some_elem d k v : dict_get d k = Some v -> (k, v) ∈ d.
Proof.
  induction d as [|[k' v'] d IH]; simpl; [discriminate|].
  destruct (String.eqb_spec k' k) as [->|Hne].
  - intros [= ->]. apply list_elem_of_here.
  - intros H. apply list_elem_of_further. now apply IH.
Qed.

Lemma elem_dict_get d k v :
  NoDup (keys d) -> (k, v) ∈ d -> dict_get d k = Some v.
Proof.
  unfold keys. induction d as [|[k' v'] d IH]; simpl.
  - intros _ H. inversion H.
  - rewrite NoDup_cons, elem_of_cons. intros [Hnotin Hnd] [E|Hin].
    + injection E as -> ->. now rewrite String.eqb_refl.
    + destruct (String.eqb_spec k' k) as [->|Hne].
      * exfalso. apply Hnotin. apply list_elem_of_fmap. now exists (k, v).
      * now apply IH.
Qed.

Lemma dict_mem_true d k : dict_mem d k = true <-> k ∈ keys d.
Proof.
  unfold dict_mem. destruct (dict_get d k) eqn:E.
  - split; [intros _ | reflexivity].
    apply dict_get_Some_elem in E. apply list_elem_of_fmap. now exists (k, v).
  - apply dict_get_None in E. split; [discriminate | contradiction].
Qed.

Lemma keys_dict_set d k v :
  keys (dict_set d k v) = if dict_mem d k then keys d else keys d ++ [k].
Proof.
  unfold dict_mem, keys. induction d as [|[k' v'] d IH]; simpl; [reflexivity|].
  destruct (String.eqb_spec k' k) as [->|Hne]; simpl; [reflexivity|].
  rewrite IH. now destruct (dict_get d k).
Qed.

Lemma dict_set_fresh d k v : k ∉ keys d -> dict_set d k v = d ++ [(k, v)].
Proof.
  unfold keys. induction d as [|[k' v'] d IH]; simpl; [reflexivity|].
  rewrite not_elem_of_cons. intros [Hne Hnotin].
  destruct (String.eqb_spec k' k); [congruence|]. now rewrite IH.
Qed.

End Dict.

(** ** [add_keys] *)

Lemma dict_get_app {V : Type} (d1 d2 : list (string * V)) (k : string) :
  dict_get (d1 ++ d2) k =
  match dict_get d1 k with
  | Some v => Some v
  | None => dict_get d2 k
  end.
Proof.
  induction d1 as [|[k' v'] d1 IH]; simpl; [reflexivity|].
  now destruct (String.eqb k' k).
Qed.

(** The value read back is the last one assigned, or the record's own. *)
Lemma add_keys_get (record keys_to_add : dict) (k : string) :
  dict_get (add_keys record keys_to_add) k =
  match dict_get (rev keys_to_add) k with
  | Some v => Some v
  | None => dict_get record k
  end.
Proof.
  unfold add_keys. revert record.
  induction keys_to_add as [|[k0 v0] a IH]; intros record; simpl; [reflexivity|].
  rewrite IH, dict_get_app. destruct (dict_get (rev a) k); [reflexivity|].
  simpl. destruct (String.eqb_spec k0 k) as [->|Hne].
  - apply dict_get_set_eq.
  - now apply dict_get_set_ne.
Qed.

Lemma keys_rev {V : Type} (d : list (string * V)) : keys (rev d) = rev (keys d).
Proof. unfold keys. now rewrite map_rev. Qed.

(** C7 (amended).  For a record and an additions map (a dict, so its keys
    are distinct): every added key reads back its configured value; every
    key of the record is still a key of the result; and every key that is
    not a key of the additions map reads the same as in the record.  A key
    of the record that the additions map also has takes the configured
    value. *)
Theorem add_keys_read_back (record keys_to_add : dict) :
  NoDup (keys keys_to_add) ->
  (forall k v, (k, v) ∈ keys_to_add ->
               dict_get (add_keys record keys_to_add) k = Some v)
  /\ (forall k, k ∈ keys record -> k ∈ keys (add_keys record keys_to_add))
  /\ (forall k, k ∉ keys keys_to_add ->
                dict_get (add_keys record keys_to_add) k = dict_get record k).
Proof.
  intros Hnd. split; [|split].
  - intros k v Hin. rewrite add_keys_get.
    rewrite (elem_dict_get (rev keys_to_add) k v); [reflexivity| |].
    + rewrite keys_rev. now apply NoDup_ListNoDup, NoDup_rev, NoDup_ListNoDup.
    + apply list_elem_of_In, in_rev. rewrite rev_involutive.
      now apply list_elem_of_In.
  - intros k Hin. apply dict_mem_true. apply dict_mem_true in Hin.
    unfold dict_mem in *. rewrite add_keys_get.
    destruct (dict_get (rev keys_to_add) k); [reflexivity | exact Hin].
  - intros k Hnotin. rewrite add_keys_get.
    assert (dict_get (rev keys_to_add) k = None) as ->; [|reflexivity].
    apply dict_get_None. rewrite keys_rev. intros H. apply Hnotin.
    apply list_elem_of_In, in_rev. now apply list_elem_of_In.
Qed.

Lemma add_keys_read_back_witness :
  dict_get (add_keys record_a1 [("b", JInt 2)]) "b" = Some (JInt 2)
  /\ dict_get (add_keys record_a1 [("b", JInt 2)]) "a" = Some (JInt 1).
Proof.
  assert (Hnd : NoDup (keys [("b", JInt 2)])).
  { apply NoDup_singleton. }
  destruct (add_keys_read_back record_a1 [("b", JInt 2)] Hnd) as (H1 & _ & H3).
  split.
  - apply H1. apply list_elem_of_here.
  - rewrite H3; [reflexivity|]. unfold keys. simpl.
    intros H. apply list_elem_of_singleton in H. discriminate.
Defined.

(** C7 as stated fails where the additions map has a key of the record: the
    original value of that key is replaced. *)
Lemma add_keys_overwrites_original :
  dict_get record_a1 "a" = Some (JInt 1)
  /\ dict_get (add_keys record_a1 additions_a2) "a" = Some (JInt 2)
  /\ dict_get (add_keys record_a1 additions_a2) "a" <> dict_get record_a1 "a".
Proof. repeat split; [reflexivity.. | discriminate]. Qed.

(** ** [modify_keys] *)


Lemma modify_keys_fold (record : dict) (m : renames) :
  modify_keys record m = fold_left (rename_step m) record [].
Proof. reflexivity. Qed.

(** Key order: first assignment decides the place. *)
Lemma rename_fold_keys (m : renames) (record acc : dict) :
  keys (fold_left (rename_step m) record acc) =
  keys acc ++ filter (fun k => k ∉ keys acc)
                     (first_occurrence (map (renamed m) (keys record))).
Proof.
  revert acc. induction record as [|[k v] r IH]; intros acc.
  - simpl. now rewrite app_nil_r.
  - cbn [fold_left]. rewrite IH.
    change (keys ((k, v) :: r)) with (k :: keys r).
    change (map (renamed m) (k :: keys r))
      with (renamed m k :: map (renamed m) (keys r)).
    change (first_occurrence (renamed m k :: map (renamed m) (keys r)))
      with (renamed m k :: filter (fun k' => k' <> renamed m k)
                                  (first_occurrence (map (renamed m) (keys r)))).
    pose proof (keys_dict_set acc (renamed m k) v) as Hkeys.
    change (dict_set acc (renamed m k) v) with (rename_step m acc (k, v)) in Hkeys.
    set (acc' := rename_step m acc (k, v)) in *.
    set (fk := renamed m k) in *. set (X := first_occurrence _).
    destruct (dict_mem acc fk) eqn:Hmem.
    + apply dict_mem_true in Hmem.
      transitivity (keys acc ++ filter (fun k0 => k0 ∉ keys acc) X).
      { f_equal; [exact Hkeys|]. apply list_filter_iff.
        intros x. now rewrite Hkeys. }
      f_equal. rewrite filter_cons_False by (intros H; now apply H).
      rewrite list_filter_filter. apply list_filter_iff.
      intros x. split; [|tauto].
      intros Hx. split; [exact Hx|]. congruence.
    + assert (fk ∉ keys acc) as Hnot.
      { intros H. apply dict_mem_true in H. congruence. }
      transitivity ((keys acc ++ [fk])
                    ++ filter (fun k0 => k0 ∉ keys acc ++ [fk]) X).
      { f_equal; [exact Hkeys|]. apply list_filter_iff.
        intros x. now rewrite Hkeys. }
      rewrite filter_cons_True by exact Hnot.
      rewrite <- app_assoc. simpl. do 2 f_equal.
      rewrite list_filter_filter. apply list_filter_iff.
      intros x. rewrite not_elem_of_app, list_elem_of_singleton. tauto.
Qed.

Lemma filter_notin_nil (l : list string) :
  filter (fun k : string => k ∉ ([] : list string)) l = l.
Proof.
  induction l as [|x l IH]; [reflexivity|].
  rewrite filter_cons_True by (intros H; inversion H). now rewrite IH.
Qed.

Lemma NoDup_first_occurrence (l : list string) : NoDup (first_occurrence l).
Proof.
  induction l as [|x l IH]; simpl; [constructor|].
  apply NoDup_cons. split.
  - rewrite list_elem_of_filter. tauto.
  - now apply NoDup_filter.
Qed.

Lemma keys_modify_keys (record : dict) (m : renames) :
  keys (modify_keys record m) = first_occurrence (map (renamed m) (keys record)).
Proof.
  rewrite modify_keys_fold, rename_fold_keys. simpl. apply filter_notin_nil.
Qed.

(** Values: the last assignment under a name decides the value. *)
Lemma rename_fold_get (m : renames) (record acc : dict) (k' : string) :
  dict_get (fold_left (rename_step m) record acc) k' =
  match dict_get (rev (rename_items m record)) k' with
  | Some v => Some v
  | None => dict_get acc k'
  end.
Proof.
  revert acc. induction record as [|[k v] r IH]; intros acc; simpl; [reflexivity|].
  rewrite IH, dict_get_app. destruct (dict_get (rev (rename_items m r)) k'); [reflexivity|].
  unfold rename_step. simpl. destruct (String.eqb_spec (renamed m k) k') as [->|Hne].
  - apply dict_get_set_eq.
  - now apply dict_get_set_ne.
Qed.

(** Without a clash of emitted names nothing is overwritten. *)
Lemma rename_fold_fresh (m : renames) (record acc : dict) :
  NoDup (keys acc ++ map (renamed m) (keys record)) ->
  fold_left (rename_step m) record acc = acc ++ rename_items m record.
Proof.
  revert acc. induction record as [|[k v] r IH]; intros acc Hnd; simpl.
  - now rewrite app_nil_r.
  - simpl in Hnd. unfold rename_step at 2. simpl.
    rewrite dict_set_fresh.
    + rewrite IH.
      * now rewrite <- app_assoc.
      * unfold keys in *. rewrite map_app. simpl. now rewrite <- app_assoc.
    + apply NoDup_app in Hnd as (_ & Hdisj & _). intros Hin.
      apply (Hdisj _ Hin). apply list_elem_of_here.
Qed.

Lemma modify_keys_no_clash (record : dict) (m : renames) :
  NoDup (map (renamed m) (keys record)) ->
  modify_keys record m = rename_items m record.
Proof.
  intros Hnd. rewrite modify_keys_fold. now rewrite rename_fold_fresh.
Qed.

Lemma keys_rename_items (m : renames) (record : dict) :
  keys (rename_items m record) = map (renamed m) (keys record).
Proof. unfold keys, rename_items. rewrite !map_map. reflexivity. Qed.

Lemma keys_inverse (m : renames) : keys (inverse m) = map snd m.
Proof. unfold keys, inverse. now rewrite map_map. Qed.

(** Renaming back: a renamed key returns to its old name, a key that stays
    is left alone as long as it is no target. *)
Lemma renamed_back (m : renames) (k : string) :
  NoDup (keys m) -> NoDup (map snd m) ->
  (k ∈ map snd m -> k ∈ keys m) ->
  renamed (inverse m) (renamed m k) = k.
Proof.
  intros Hsrc Htgt Hk. unfold renamed at 2.
  destruct (dict_get m k) as [t|] eqn:Hget.
  - apply dict_get_Some_elem in Hget. unfold renamed.
    rewrite (elem_dict_get (inverse m) t k); [reflexivity| |].
    + now rewrite keys_inverse.
    + unfold inverse. apply list_elem_of_fmap. now exists (k, t).
  - unfold renamed.
    assert (dict_get (inverse m) k = None) as ->; [|reflexivity].
    apply dict_get_None. rewrite keys_inverse. intros Hin.
    apply dict_get_None in Hget. now apply Hget, Hk.
Qed.

(** C8 (amended).  [modify_keys] keeps the order of the keys (a name takes
    the place of its first occurrence among the emitted names) and takes
    every value from the record unaltered; when the emitted names are
    distinct the result is the record's items, in order, under their new
    names.  Renaming with a map and then with its inverse gives the record
    back when the map has distinct sources and distinct targets and, in
    addition, no key of the record that the map leaves alone is one of its
    targets. *)
Theorem modify_keys_order_and_round_trip (record : dict) (m : renames) :
  keys (modify_keys record m) = first_occurrence (map (renamed m) (keys record))
  /\ (forall k' v, (k', v) ∈ modify_keys record m ->
                   exists k, (k, v) ∈ record /\ renamed m k = k')
  /\ (NoDup (map (renamed m) (keys record)) ->
      modify_keys record m = rename_items m record)
  /\ (NoDup (keys record) -> NoDup (keys m) -> NoDup (map snd m) ->
      (forall k, k ∈ keys record -> k ∈ map snd m -> k ∈ keys m) ->
      modify_keys (modify_keys record m) (inverse m) = record).
Proof.
  split; [|split; [|split]].
  - apply keys_modify_keys.
  - intros k' v Hin.
    assert (NoDup (keys (modify_keys record m))) as Hnd.
    { rewrite keys_modify_keys. apply NoDup_first_occurrence. }
    apply elem_dict_get in Hin; [|exact Hnd].
    rewrite modify_keys_fold, rename_fold_get in Hin. simpl in Hin.
    destruct (dict_get (rev (rename_items m record)) k') eqn:E; [|discriminate].
    injection Hin as ->. apply dict_get_Some_elem in E.
    apply list_elem_of_In, in_rev, list_elem_of_In in E.
    unfold rename_items in E. apply list_elem_of_fmap in E as ([k v0] & Heq & Hin).
    simpl in Heq. injection Heq as -> ->. now exists k.
  - apply modify_keys_no_clash.
  - intros Hrec Hsrc Htgt Hstay.
    assert (forall k, k ∈ keys record -> renamed (inverse m) (renamed m k) = k)
      as Hback.
    { intros k Hk. apply renamed_back; auto. }
    assert (NoDup (map (renamed m) (keys record))) as Hnd1.
    { apply NoDup_fmap_2_strong; [|exact Hrec].
      intros x y Hx Hy E. rewrite <- (Hback x Hx), <- (Hback y Hy). now rewrite E. }
    rewrite (modify_keys_no_clash record m Hnd1).
    assert (map (renamed (inverse m)) (keys (rename_items m record)) = keys record)
      as Hkeys.
    { rewrite keys_rename_items, map_map.
      clear -Hback. induction (keys record) as [|x l IH]; simpl; [reflexivity|].
      rewrite Hback by apply list_elem_of_here. f_equal. apply IH.
      intros k Hk. apply Hback. now apply list_elem_of_further. }
    rewrite modify_keys_no_clash by (now rewrite Hkeys).
    unfold rename_items. rewrite map_map. simpl.
    clear -Hback. induction record as [|[k v] r IH]; simpl; [reflexivity|].
    rewrite Hback by apply list_elem_of_here. f_equal. apply IH.
    intros k0 Hk0. apply Hback. now apply list_elem_of_further.
Qed.

Lemma modify_keys_order_and_round_trip_witness :
  modify_keys record_ab rename_a_b = [("b", JInt 1); ("c", JInt 3)]
  /\ modify_keys (modify_keys record_ab rename_a_b) (inverse rename_a_b)
     = record_ab.
Proof.
  destruct (modify_keys_order_and_round_trip record_ab rename_a_b)
    as (_ & _ & Hfresh & Hback).
  split.
  - rewrite Hfresh; [reflexivity|]. vm_compute.
    apply NoDup_cons. split; [|apply NoDup_singleton].
    intros H. apply list_elem_of_singleton in H. discriminate.
  - apply Hback.
    + vm_compute. apply NoDup_cons. split; [|apply NoDup_singleton].
      intros H. apply list_elem_of_singleton in H. discriminate.
    + apply NoDup_singleton.
    + apply NoDup_singleton.
    + intros k Hk Ht. vm_compute in Ht. apply list_elem_of_singleton in Ht.
      subst k. vm_compute in Hk.
      apply elem_of_cons in Hk as [Hk|Hk]; [discriminate|].
      apply list_elem_of_singleton in Hk. discriminate.
Defined.

(** C8 as stated fails for a map whose target is a key the record keeps:
    no two keys are emitted under one name and the map is invertible, yet
    the round trip renames the kept key. *)
Lemma modify_keys_round_trip_fails :
  NoDup (map (renamed rename_a_b) (keys record_b1))
  /\ NoDup (keys rename_a_b) /\ NoDup (map snd rename_a_b)
  /\ modify_keys record_b1 rename_a_b = [("b", JInt 1)]
  /\ modify_keys (modify_keys record_b1 rename_a_b) (inverse rename_a_b)
     = [("a", JInt 1)]
  /\ modify_keys (modify_keys record_b1 rename_a_b) (inverse rename_a_b)
     <> record_b1.
Proof.
  repeat split; try apply NoDup_singleton; discriminate.
Qed.

(** ** More on [add_keys] *)

Section DictSet.
Context {V : Type}.
Implicit Types (d : list (string * V)) (k : string) (v : V).

(** Assigning the value a key already has changes nothing. *)
Lemma dict_set_same d k v : dict_get d k = Some v -> dict_set d k v = d.
Proof.
  induction d as [|[k' v'] d IH]; simpl; [discriminate|].
  destruct (String.eqb_spec k' k) as [->|Hne].
  - now intros [= ->].
  - intros H. now rewrite IH.
Qed.

(** Of two assignments to a key the second stays. *)
Lemma dict_set_set d k v v' : dict_set (dict_set d k v) k v' = dict_set d k v'.
Proof.
  induction d as [|[k0 v0] d IH]; simpl.
  - now rewrite String.eqb_refl.
  - destruct (String.eqb_spec k0 k) as [->|Hne]; simpl.
    + now rewrite String.eqb_refl.
    + destruct (String.eqb_spec k0 k); [contradiction|]. now rewrite IH.
Qed.

(** Assignments to two keys commute when one of the keys is there already. *)
Lemma dict_set_comm d k k' v v' :
  k <> k' -> k ∈ keys d ->
  dict_set (dict_set d k v) k' v' = dict_set (dict_set d k' v') k v.
Proof.
  intros Hne. unfold keys. induction d as [|[k0 v0] d IH]; simpl; intros Hin.
  - inversion Hin.
  - destruct (String.eqb_spec k0 k) as [Ek|Hk];
      destruct (String.eqb_spec k0 k') as [Ek'|Hk']; simpl.
    + congruence.
    + subst k0. rewrite String.eqb_refl.
      destruct (String.eqb_spec k k'); [contradiction | reflexivity].
    + subst k0. rewrite String.eqb_refl.
      destruct (String.eqb_spec k' k); [congruence | reflexivity].
    + destruct (String.eqb_spec k0 k); [contradiction|].
      destruct (String.eqb_spec k0 k'); [contradiction|].
      apply elem_of_cons in Hin as [Hin|Hin]; [congruence|].
      now rewrite IH.
Qed.

End DictSet.

Lemma add_keys_mono (record keys_to_add : dict) (k : string) :
  k ∈ keys record -> k ∈ keys (add_keys record keys_to_add).
Proof.
  intros Hin. apply dict_mem_true. apply dict_mem_true in Hin.
  unfold dict_mem in *. rewrite add_keys_get.
  destruct (dict_get (rev keys_to_add) k); [reflexivity | exact Hin].
Qed.

(** An assignment that the additions repeat is of no effect. *)
Lemma add_keys_absorb (keys_to_add d : dict) (k : string) (v : json) :
  k ∈ keys keys_to_add -> k ∈ keys d ->
  add_keys (dict_set d k v) keys_to_add = add_keys d keys_to_add.
Proof.
  revert d. induction keys_to_add as [|[k1 v1] a IH]; intros d Ha Hd.
  - inversion Ha.
  - change (add_keys (dict_set (dict_set d k v) k1 v1) a
            = add_keys (dict_set d k1 v1) a).
    destruct (String.eqb_spec k k1) as [<-|Hne].
    + now rewrite dict_set_set.
    + rewrite dict_set_comm by assumption.
      apply IH.
      * unfold keys in Ha. simpl in Ha.
        apply elem_of_cons in Ha as [->|Ha]; [contradiction | exact Ha].
      * rewrite keys_dict_set. destruct (dict_mem d k1); [exact Hd|].
        apply elem_of_app. now left.
Qed.

Lemma map_renamed_nil (l : list string) : map (renamed []) l = l.
Proof. induction l as [|x l IH]; [reflexivity|]. simpl. now rewrite IH. Qed.

(** X4.  [add_keys] with the same additions a second time changes nothing:
    the second run assigns to keys that are there, the values they have. *)
Theorem add_keys_idempotent (record keys_to_add : dict) :
  add_keys (add_keys record keys_to_add) keys_to_add
  = add_keys record keys_to_add.
Proof.
  revert record. induction keys_to_add as [|[k v] a IH]; intros record;
    [reflexivity|].
  change (add_keys (dict_set (add_keys (dict_set record k v) a) k v) a
          = add_keys (dict_set record k v) a).
  set (d := add_keys (dict_set record k v) a).
  assert (k ∈ keys d) as Hk.
  { apply add_keys_mono. apply dict_mem_true. unfold dict_mem.
    now rewrite dict_get_set_eq. }
  transitivity (add_keys d a); [|apply IH].
  destruct (dict_get (rev a) k) as [v'|] eqn:E.
  - apply add_keys_absorb; [|exact Hk].
    apply dict_get_Some_elem in E.
    apply list_elem_of_In, in_rev, list_elem_of_In in E.
    apply list_elem_of_fmap. now exists (k, v').
  - rewrite dict_set_same; [reflexivity|].
    unfold d. rewrite add_keys_get, E. apply dict_get_set_eq.
Qed.

(** X5.  The keys of the record keep their places and their order in the
    result of [add_keys]; the keys that are new come after them, in the
    order in which the additions first name them. *)
Theorem add_keys_key_order (record keys_to_add : dict) :
  keys (add_keys record keys_to_add)
  = keys record
    ++ filter (fun k => k ∉ keys record) (first_occurrence (keys keys_to_add)).
Proof.
  change (add_keys record keys_to_add)
    with (fold_left (rename_step []) keys_to_add record).
  now rewrite rename_fold_keys, map_renamed_nil.
Qed.

(** ** More on [modify_keys] *)

Lemma elem_first_occurrence (l : list string) (x : string) :
  x ∈ first_occurrence l <-> x ∈ l.
Proof.
  induction l as [|k l IH]; simpl; [reflexivity|].
  rewrite !elem_of_cons, list_elem_of_filter, IH.
  destruct (decide (x = k)); tauto.
Qed.

Lemma length_first_occurrence (l : list string) :
  (List.length (first_occurrence l) <= List.length l)%nat.
Proof.
  induction l as [|k l IH]; simpl; [lia|].
  pose proof (length_filter (fun k' => k' <> k) (first_occurrence l)). lia.
Qed.

Lemma filter_all {A : Type} (P : A -> Prop) `{!forall x, Decision (P x)}
  (l : list A) :
  (forall x, x ∈ l -> P x) -> filter P l = l.
Proof.
  induction l as [|x l IH]; intros Hall; [reflexivity|].
  rewrite filter_cons_True by (apply Hall, list_elem_of_here).
  f_equal. apply IH. intros y Hy. now apply Hall, list_elem_of_further.
Qed.

Lemma first_occurrence_NoDup (l : list string) :
  NoDup l -> first_occurrence l = l.
Proof.
  induction l as [|k l IH]; intros Hnd; [reflexivity|].
  apply NoDup_cons in Hnd as [Hk Hnd]. simpl. rewrite (IH Hnd). f_equal.
  apply filter_all. intros x Hx ->. contradiction.
Qed.

(** Nothing is lost exactly when the names are distinct. *)
Lemma length_first_occurrence_eq (l : list string) :
  List.length (first_occurrence l) = List.length l <-> NoDup l.
Proof.
  split; [|intros H; now rewrite first_occurrence_NoDup].
  induction l as [|k l IH]; intros Hlen; [constructor|].
  simpl in Hlen.
  pose proof (length_filter (fun k' => k' <> k) (first_occurrence l)) as H1.
  pose proof (length_first_occurrence l) as H2.
  apply NoDup_cons. split; [|apply IH; lia].
  intros Hin. apply elem_first_occurrence in Hin.
  pose proof (length_filter_lt (fun k' => k' <> k) (first_occurrence l) k Hin)
    as H3.
  assert (~ k <> k) as Hk by tauto. specialize (H3 Hk). lia.
Qed.

Lemma length_keys {V : Type} (d : list (string * V)) :
  List.length (keys d) = List.length d.
Proof. unfold keys. apply length_map. Qed.

(** X6.  Renaming does not ask that a source key be there: with a rename
    map none of whose sources is a key of the record, [modify_keys] gives
    the record back. *)
Theorem modify_keys_missing_sources (record : dict) (m : renames) :
  NoDup (keys record) ->
  (forall k, k ∈ keys record -> dict_get m k = None) ->
  modify_keys record m = record.
Proof.
  intros Hnd Hnone.
  assert (forall k, k ∈ keys record -> renamed m k = k) as Hid.
  { intros k Hk. unfold renamed. now rewrite (Hnone k Hk). }
  assert (map (renamed m) (keys record) = keys record) as Hkeys.
  { clear -Hid. induction (keys record) as [|x l IH]; [reflexivity|].
    simpl. rewrite Hid by apply list_elem_of_here. f_equal. apply IH.
    intros k Hk. now apply Hid, list_elem_of_further. }
  rewrite modify_keys_no_clash by (now rewrite Hkeys).
  clear -Hid. unfold rename_items.
  induction record as [|[k v] r IH]; [reflexivity|].
  simpl. rewrite Hid by apply list_elem_of_here. f_equal. apply IH.
  intros k0 Hk0. now apply Hid, list_elem_of_further.
Qed.

Lemma modify_keys_missing_sources_witness :
  modify_keys record_ab rename_x_y = record_ab.
Proof.
  apply (modify_keys_missing_sources record_ab rename_x_y).
  - unfold record_ab, keys. simpl.
    apply NoDup_cons. split; [|apply NoDup_singleton].
    intros H. apply list_elem_of_singleton in H. discriminate.
  - intros k Hk. unfold record_ab, keys in Hk. simpl in Hk.
    apply elem_of_cons in Hk as [->|Hk];
      [|apply list_elem_of_singleton in Hk as ->]; reflexivity.
Defined.

(** X7.  [modify_keys] can lose fields: the result never has more items
    than the record, and it has as many exactly when the names the keys
    are emitted under are distinct.  Where several keys are emitted under
    one name, that name holds the value of the last of them. *)
Theorem modify_keys_collision (record : dict) (m : renames) :
  (List.length (modify_keys record m) <= List.length record)%nat
  /\ (List.length (modify_keys record m) = List.length record
      <-> NoDup (map (renamed m) (keys record)))
  /\ (forall pre k v post,
         record = pre ++ (k, v) :: post ->
         (forall k0, k0 ∈ keys post -> renamed m k0 <> renamed m k) ->
         dict_get (modify_keys record m) (renamed m k) = Some v).
Proof.
  assert (List.length (modify_keys record m)
          = List.length (first_occurrence (map (renamed m) (keys record))))
    as Hlen.
  { now rewrite <- keys_modify_keys, length_keys. }
  assert (List.length record = List.length (map (renamed m) (keys record)))
    as Hrec.
  { now rewrite length_map, length_keys. }
  split; [|split].
  - rewrite Hlen, Hrec. apply length_first_occurrence.
  - rewrite Hlen, Hrec. apply length_first_occurrence_eq.
  - intros pre k v post -> Hpost.
    rewrite modify_keys_fold, rename_fold_get.
    unfold rename_items. rewrite map_app, rev_app_distr. simpl.
    rewrite <- app_assoc, dict_get_app.
    assert (dict_get (rev (map (fun kv => (renamed m (fst kv), snd kv)) post))
                     (renamed m k) = None) as ->.
    { apply dict_get_None. rewrite keys_rev. intros Hin.
      apply list_elem_of_In, in_rev, list_elem_of_In in Hin.
      fold (rename_items m post) in Hin. rewrite keys_rename_items in Hin.
      apply list_elem_of_fmap in Hin as (k0 & Heq & Hk0).
      now apply (Hpost k0 Hk0). }
    simpl. now rewrite String.eqb_refl.
Qed.

Lemma modify_keys_collision_witness :
  dict_get (modify_keys record_a1_b2 rename_a_b) "b" = Some (JInt 2)
  /\ List.length (modify_keys record_a1_b2 rename_a_b) = 1%nat.
Proof.
  split; [|reflexivity].
  destruct (modify_keys_collision record_a1_b2 rename_a_b) as (_ & _ & Hlast).
  apply (Hlast [("a", JInt 1)] "b" (JInt 2) []); [reflexivity|].
  intros k0 Hk0. inversion Hk0.
Defined.

(** ** [convert_to_chatml_function] *)

Lemma message_of_entry_for (record : dict) (role field : string) :
  message_of record role field =
  match entry_for record (role, field) with
  | Some m => [m]
  | None => []
  end.
Proof.
  unfold message_of, entry_for. simpl.
  destruct (dict_get record field) as [v|]; [|reflexivity].
  now destruct (truthy v).
Qed.

(** The list the code builds is the list the specification describes. *)
Lemma chatml_messages_spec (record : dict) (source_fields : list string) :
  List.length source_fields = 2%nat \/ List.length source_fields = 3%nat ->
  chatml_messages record source_fields
  = Some (spec_messages record source_fields).
Proof.
  intros Hlen. unfold spec_messages, roles_for.
  destruct source_fields as [|f1 [|f2 [|f3 [|f4 sf]]]]; simpl in Hlen;
    try (destruct Hlen; discriminate).
  - simpl. rewrite !message_of_entry_for.
    destruct (entry_for record ("user", f1));
      destruct (entry_for record ("assistant", f2)); reflexivity.
  - simpl. rewrite !message_of_entry_for.
    destruct (entry_for record ("system", f1));
      destruct (entry_for record ("user", f2));
      destruct (entry_for record ("assistant", f3)); reflexivity.
Qed.

(** A step assigns to the output key of its entry only. *)
Lemma chatml_step_other (record result : dict) (entry : string * chatml_spec)
  (k : string) :
  fst entry <> k ->
  dict_get (chatml_step record result entry) k = dict_get result k.
Proof.
  intros Hne. unfold chatml_step.
  destruct (snd entry) as [|sf]; [reflexivity|].
  destruct (chatml_messages record sf) as [[|m ms]|]; try reflexivity.
  now apply dict_get_set_ne.
Qed.

Lemma chatml_fold_other (record : dict) (config : chatml_config) (acc : dict)
  (k : string) :
  k ∉ keys config ->
  dict_get (fold_left (chatml_step record) config acc) k = dict_get acc k.
Proof.
  revert acc. induction config as [|entry config IH]; intros acc Hk; simpl;
    [reflexivity|].
  unfold keys in Hk. simpl in Hk. apply not_elem_of_cons in Hk as [Hne Hk].
  rewrite IH by exact Hk. apply chatml_step_other. congruence.
Qed.

Lemma chatml_step_keys (record result : dict) (entry : string * chatml_spec)
  (k : string) :
  k ∈ keys result -> k ∈ keys (chatml_step record result entry).
Proof.
  intros Hk. unfold chatml_step.
  destruct (snd entry) as [|sf]; [exact Hk|].
  destruct (chatml_messages record sf) as [[|m ms]|]; try exact Hk.
  rewrite keys_dict_set. destruct (dict_mem result (fst entry)); [exact Hk|].
  apply elem_of_app. now left.
Qed.

(** C3 (amended).  For a record, a ChatML configuration (a dict, so its
    output keys are distinct) and an entry of it with 2 or 3 source fields:
    the role/content list has the system entry (3 fields only), then the
    user entry, then the assistant entry, each only when its source field
    is present with a value that counts as true; when that list is not
    empty it is stored under the output key, replacing any value there;
    when it is empty nothing is stored and the output key reads as in the
    record.  The fields [sys], [u], [a] on a record with an empty [sys]
    give the user and the assistant entry. *)
Theorem convert_to_chatml_stores_messages :
  (forall (record : dict) (config : chatml_config) (new_key : string)
          (source_fields : list string),
      NoDup (keys config) ->
      (new_key, Fields source_fields) ∈ config ->
      List.length source_fields = 2%nat \/ List.length source_fields = 3%nat ->
      chatml_messages record source_fields
      = Some (spec_messages record source_fields)
      /\ (spec_messages record source_fields <> [] ->
          dict_get (convert_to_chatml_function record config) new_key
          = Some (JArr (spec_messages record source_fields)))
      /\ (spec_messages record source_fields = [] ->
          dict_get (convert_to_chatml_function record config) new_key
          = dict_get record new_key))
  /\ convert_to_chatml_function record_chat chatml_sys_u_a
     = record_chat
       ++ [("messages", JArr [message "user" (JStr "hello");
                              message "assistant" (JStr "hi")])].
Proof.
  split; [|reflexivity].
  intros record config new_key sf Hnd Hin Hlen.
  pose proof (chatml_messages_spec record sf Hlen) as Hmsg.
  split; [exact Hmsg|].
  apply list_elem_of_split in Hin as (c1 & c2 & ->).
  unfold keys in Hnd. rewrite map_app in Hnd. simpl in Hnd.
  apply NoDup_app in Hnd as (_ & Hdisj & Hnd2).
  apply NoDup_cons in Hnd2 as [Hc2 _].
  assert (new_key ∉ keys c1) as Hc1.
  { intros H. apply (Hdisj _ H). apply list_elem_of_here. }
  unfold convert_to_chatml_function. rewrite fold_left_app. simpl.
  rewrite chatml_fold_other by exact Hc2.
  unfold chatml_step at 1 3. simpl. rewrite Hmsg.
  split.
  - intros Hne. destruct (spec_messages record sf) as [|m ms]; [contradiction|].
    apply dict_get_set_eq.
  - intros ->. now apply chatml_fold_other.
Qed.

Lemma convert_to_chatml_stores_messages_witness :
  dict_get (convert_to_chatml_function record_chat chatml_sys_u_a) "messages"
  = Some (JArr [message "user" (JStr "hello");
                message "assistant" (JStr "hi")]).
Proof.
  destruct convert_to_chatml_stores_messages as [Hgen _].
  destruct (Hgen record_chat chatml_sys_u_a "messages" ["sys"; "u"; "a"])
    as (_ & Hstore & _).
  - apply NoDup_singleton.
  - apply list_elem_of_here.
  - right. reflexivity.
  - apply Hstore. discriminate.
Defined.

(** C3 as stated fails where every source field is absent or counts as
    false: the empty list is not stored, and a value already under the
    output key stays. *)
Lemma convert_to_chatml_keeps_old_value :
  spec_messages record_old ["u"; "a"] = []
  /\ dict_get (convert_to_chatml_function record_old chatml_m_u_a) "m"
     = Some (JStr "old")
  /\ dict_get (convert_to_chatml_function record_old chatml_m_u_a) "m"
     <> Some (JArr (spec_messages record_old ["u"; "a"])).
Proof. repeat split. discriminate. Qed.

(** ** More on [convert_to_chatml_function] *)

(** A step leaves the keys as they are or puts its output key at the end. *)
Lemma chatml_step_keys_cases (record result : dict)
  (entry : string * chatml_spec) :
  keys (chatml_step record result entry) = keys result
  \/ (keys (chatml_step record result entry) = keys result ++ [fst entry]
      /\ fst entry ∉ keys result).
Proof.
  unfold chatml_step. destruct (snd entry) as [|sf]; [now left|].
  destruct (chatml_messages record sf) as [[|msg msgs]|]; try (now left).
  rewrite keys_dict_set. destruct (dict_mem result (fst entry)) eqn:E;
    [now left | right]. split; [reflexivity|].
  intros H. apply dict_mem_true in H. congruence.
Qed.

(** The loop adds keys at the end, and only output keys of the
    configuration. *)
Lemma chatml_fold_keys (record : dict) (config : chatml_config) (acc : dict) :
  exists added,
    keys (fold_left (chatml_step record) config acc) = keys acc ++ added
    /\ forall k, k ∈ added -> k ∈ keys config /\ k ∉ keys acc.
Proof.
  revert acc. induction config as [|entry config IH]; intros acc.
  - exists []. simpl. rewrite app_nil_r. split; [reflexivity|].
    intros k Hk. inversion Hk.
  - cbn [fold_left].
    destruct (IH (chatml_step record acc entry)) as (added & Hkeys & Hadded).
    destruct (chatml_step_keys_cases record acc entry) as [E | [E Hnew]];
      rewrite E in Hkeys, Hadded.
    + exists added. split; [exact Hkeys|]. intros k Hk.
      destruct (Hadded k Hk) as [H1 H2]. split; [|exact H2].
      unfold keys. simpl. now apply list_elem_of_further.
    + exists (fst entry :: added). split.
      * rewrite Hkeys, <- app_assoc. reflexivity.
      * intros k Hk. apply elem_of_cons in Hk as [->|Hk].
        -- split; [|exact Hnew]. unfold keys. simpl. apply list_elem_of_here.
        -- destruct (Hadded k Hk) as [H1 H2]. split.
           ++ unfold keys. simpl. now apply list_elem_of_further.
           ++ intros H. apply H2. apply elem_of_app. now left.
Qed.

(** X8.  [convert_to_chatml_function] removes nothing and moves nothing:
    the keys of the record stay where they are, the source fields
    included; the keys that are new come after them and are output keys of
    the configuration; and a key that is no output key reads as in the
    record. *)
Theorem convert_to_chatml_keeps_fields (record : dict) (config : chatml_config) :
  (exists added,
      keys (convert_to_chatml_function record config) = keys record ++ added
      /\ forall k, k ∈ added -> k ∈ keys config /\ k ∉ keys record)
  /\ (forall k, k ∉ keys config ->
                dict_get (convert_to_chatml_function record config) k
                = dict_get record k).
Proof.
  split.
  - apply chatml_fold_keys.
  - intros k Hk. now apply chatml_fold_other.
Qed.

Lemma convert_to_chatml_keeps_fields_witness :
  dict_get (convert_to_chatml_function record_chat chatml_sys_u_a) "u"
  = Some (JStr "hello").
Proof.
  destruct (convert_to_chatml_keeps_fields record_chat chatml_sys_u_a)
    as [_ Hget].
  rewrite Hget; [reflexivity|].
  unfold chatml_sys_u_a, keys. simpl. intros H.
  apply list_elem_of_singleton in H. discriminate.
Defined.

(** The messages depend on the values of the source fields only. *)
Lemma message_of_ext (r1 r2 : dict) (role field : string) :
  dict_get r1 field = dict_get r2 field ->
  message_of r1 role field = message_of r2 role field.
Proof. intros H. unfold message_of. now rewrite H. Qed.

Lemma chatml_messages_ext (r1 r2 : dict) (source_fields : list string) :
  (forall f, f ∈ source_fields -> dict_get r1 f = dict_get r2 f) ->
  chatml_messages r1 source_fields = chatml_messages r2 source_fields.
Proof.
  intros H. destruct source_fields as [|f1 [|f2 [|f3 [|f4 sf]]]];
    try reflexivity; simpl.
  - rewrite (message_of_ext r1 r2 "user" f1), (message_of_ext r1 r2 "assistant" f2);
      [reflexivity | apply H | apply H]; set_solver.
  - rewrite (message_of_ext r1 r2 "system" f1), (message_of_ext r1 r2 "user" f2),
      (message_of_ext r1 r2 "assistant" f3);
      [reflexivity | apply H | apply H | apply H]; set_solver.
Qed.

(** A list of messages that is not empty is found under its output key. *)
Lemma chatml_fold_get (record : dict) (config : chatml_config) (acc : dict)
  (new_key : string) (source_fields : list string) (msg : json)
  (msgs : list json) :
  NoDup (keys config) ->
  (new_key, Fields source_fields) ∈ config ->
  chatml_messages record source_fields = Some (msg :: msgs) ->
  dict_get (fold_left (chatml_step record) config acc) new_key
  = Some (JArr (msg :: msgs)).
Proof.
  intros Hnd Hin Hmsg.
  apply list_elem_of_split in Hin as (c1 & c2 & ->).
  unfold keys in Hnd. rewrite map_app in Hnd. simpl in Hnd.
  apply NoDup_app in Hnd as (_ & _ & Hnd2).
  apply NoDup_cons in Hnd2 as [Hc2 _].
  rewrite fold_left_app. simpl.
  rewrite chatml_fold_other by exact Hc2.
  unfold chatml_step at 1. simpl. rewrite Hmsg.
  apply dict_get_set_eq.
Qed.

Lemma fold_left_fixed {A B : Type} (f : A -> B -> A) (l : list B) (a : A) :
  (forall x, x ∈ l -> f a x = a) -> fold_left f l a = a.
Proof.
  induction l as [|x l IH]; intros H; [reflexivity|].
  simpl. rewrite (H x) by apply list_elem_of_here.
  apply IH. intros y Hy. now apply H, list_elem_of_further.
Qed.

Lemma elem_chatml_sources (config : chatml_config) (new_key f : string)
  (source_fields : list string) :
  (new_key, Fields source_fields) ∈ config -> f ∈ source_fields ->
  f ∈ chatml_sources config.
Proof.
  intros Hin Hf. unfold chatml_sources. apply list_elem_of_In, in_flat_map.
  exists (new_key, Fields source_fields).
  split; [now apply list_elem_of_In | now apply list_elem_of_In].
Qed.

(** X9.  When no output key of the configuration is one of its source
    fields, [convert_to_chatml_function] with the same configuration a
    second time changes nothing. *)
Theorem convert_to_chatml_idempotent (record : dict) (config : chatml_config) :
  NoDup (keys config) ->
  (forall f, f ∈ chatml_sources config -> f ∉ keys config) ->
  convert_to_chatml_function (convert_to_chatml_function record config) config
  = convert_to_chatml_function record config.
Proof.
  intros Hnd Hsrc.
  set (r' := convert_to_chatml_function record config).
  unfold convert_to_chatml_function at 1.
  apply fold_left_fixed. intros [new_key spec] Hin.
  unfold chatml_step. simpl. destruct spec as [|sf]; [reflexivity|].
  assert (chatml_messages r' sf = chatml_messages record sf) as ->.
  { apply chatml_messages_ext. intros f Hf. unfold r'.
    apply chatml_fold_other, Hsrc.
    now apply (elem_chatml_sources config new_key f sf). }
  destruct (chatml_messages record sf) as [[|msg msgs]|] eqn:Hmsg;
    try reflexivity.
  apply dict_set_same. unfold r', convert_to_chatml_function.
  now apply (chatml_fold_get record config record new_key sf).
Qed.

Lemma convert_to_chatml_idempotent_witness :
  convert_to_chatml_function
    (convert_to_chatml_function record_chat chatml_sys_u_a) chatml_sys_u_a
  = convert_to_chatml_function record_chat chatml_sys_u_a.
Proof.
  apply (convert_to_chatml_idempotent record_chat chatml_sys_u_a).
  - unfold chatml_sys_u_a, keys. simpl. apply NoDup_singleton.
  - intros f Hf Hk. unfold chatml_sys_u_a, keys in Hk. simpl in Hk.
    apply list_elem_of_singleton in Hk as ->.
    unfold chatml_sys_u_a, chatml_sources in Hf. simpl in Hf.
    repeat (apply elem_of_cons in Hf as [Hf|Hf]; [discriminate|]).
    inversion Hf.
Defined.

(** ** The transformers in the order of the loop *)

(** X10.  A key that the run renames is in no record it writes, as long as
    the key is no target of the rename map and no output key of the
    reshape: the rename comes after the additions, so this holds also for
    a key that the same run adds. *)
Theorem renamed_source_is_gone (c : config) (record : dict) (k k' : string) :
  dict_get (keys_to_modify_dict c) k = Some k' ->
  k ∉ map snd (keys_to_modify_dict c) ->
  k ∉ keys (chatml_config_dict c) ->
  k ∉ keys (transform_record c record).
Proof.
  intros Hget Htgt Hout.
  assert (forall added,
             k ∉ keys (modify_keys added (keys_to_modify_dict c))) as Hmod.
  { intros added. rewrite keys_modify_keys, elem_first_occurrence. intros Hin.
    apply list_elem_of_fmap in Hin as (k0 & Heq & _). unfold renamed in Heq.
    destruct (dict_get (keys_to_modify_dict c) k0) as [t|] eqn:E.
    - subst t. apply dict_get_Some_elem in E. apply Htgt.
      apply list_elem_of_fmap. now exists (k0, k).
    - subst k0. congruence. }
  unfold transform_record.
  destruct (keys_to_modify_dict c) as [|x m] eqn:Em; [discriminate|].
  destruct (chatml_config_dict c) as [|y chat] eqn:Ec; [apply Hmod|].
  match goal with
  | |- _ ∉ keys (convert_to_chatml_function ?r ?cf) =>
      destruct (chatml_fold_keys r cf r) as (new & Hkeys & Hnew);
      unfold convert_to_chatml_function; rewrite Hkeys
  end.
  intros Hin. apply elem_of_app in Hin as [Hin|Hin]; [exact (Hmod _ Hin)|].
  now apply Hout, Hnew.
Qed.

Lemma renamed_source_is_gone_witness :
  "a" ∉ keys (transform_record config_add_a_rename record_ab).
Proof.
  apply (renamed_source_is_gone config_add_a_rename record_ab "a" "b").
  - reflexivity.
  - simpl. intros H. apply list_elem_of_singleton in H. discriminate.
  - simpl. intros H. inversion H.
Defined.

(** ** First-seen-wins *)

Lemma survivors_ext (s1 s2 : gset string) (l : list (string * json)) :
  (forall x, x ∈ s1 <-> x ∈ s2) -> survivors s1 l = survivors s2 l.
Proof.
  intros H. unfold survivors. apply list_filter_iff. intros y. now rewrite H.
Qed.

Lemma survivors_nil (seen : gset string) : survivors seen [] = [].
Proof. reflexivity. Qed.

Lemma survivors_cons_seen (seen : gset string) (x : string * json)
  (l : list (string * json)) :
  fst x ∈ seen -> survivors seen (x :: l) = survivors seen l.
Proof.
  intros Hin. unfold survivors. cbn [first_seen].
  rewrite filter_cons_False by (intros H; now apply H).
  rewrite list_filter_filter. apply list_filter_iff.
  intros y. split; [tauto|]. intros Hy. split; [exact Hy|]. congruence.
Qed.

Lemma survivors_cons_new (seen : gset string) (x : string * json)
  (l : list (string * json)) :
  fst x ∉ seen -> survivors seen (x :: l) = x :: survivors ({[ fst x ]} ∪ seen) l.
Proof.
  intros Hnot. unfold survivors. cbn [first_seen].
  rewrite filter_cons_True by exact Hnot. f_equal.
  rewrite list_filter_filter. apply list_filter_iff.
  intros y. rewrite not_elem_of_union, elem_of_singleton. tauto.
Qed.

Lemma identities_cons (x : string * json) (l : list (string * json)) :
  identities (x :: l) = {[ fst x ]} ∪ identities l.
Proof. reflexivity. Qed.

(** The survivors of two runs of candidates: those of the first, then those
    of the second that the first did not take. *)
Lemma survivors_app (seen : gset string) (l1 l2 : list (string * json)) :
  survivors seen (l1 ++ l2)
  = survivors seen l1 ++ survivors (identities l1 ∪ seen) l2.
Proof.
  revert seen. induction l1 as [|x l1 IH]; intros seen.
  - simpl. apply survivors_ext. intros y. unfold identities. simpl.
    set_solver.
  - simpl app. destruct (decide (fst x ∈ seen)) as [Hin|Hnot].
    + rewrite !survivors_cons_seen by exact Hin. rewrite IH. f_equal.
      apply survivors_ext. intros y. rewrite identities_cons. set_solver.
    + rewrite !survivors_cons_new by exact Hnot. rewrite IH. simpl. do 2 f_equal.
      apply survivors_ext. intros y. rewrite identities_cons. set_solver.
Qed.

Lemma survivors_empty (l : list (string * json)) : survivors ∅ l = first_seen l.
Proof.
  unfold survivors. induction (first_seen l) as [|x l' IH]; [reflexivity|].
  rewrite filter_cons_True by set_solver. now rewrite IH.
Qed.

Lemma survivors_length (seen : gset string) (l : list (string * json)) :
  (List.length (survivors seen l) <= List.length l)%nat.
Proof.
  revert seen. induction l as [|x l IH]; intros seen; [simpl; lia|].
  destruct (decide (fst x ∈ seen)) as [Hin|Hnot].
  - rewrite survivors_cons_seen by exact Hin. specialize (IH seen). simpl. lia.
  - rewrite survivors_cons_new by exact Hnot.
    specialize (IH ({[ fst x ]} ∪ seen)). simpl. lia.
Qed.


(** [first_seen] keeps the order, keeps one item per identity, and keeps for
    each identity the first item that has it. *)
Lemma first_seen_first (l : list (string * json)) (k : string) (r : json) :
  (k, r) ∈ first_seen l <-> dict_get l k = Some r.
Proof.
  induction l as [|[k0 r0] l IH]; simpl.
  - split; [intros H; inversion H | discriminate].
  - rewrite elem_of_cons, list_elem_of_filter, IH. simpl.
    destruct (String.eqb_spec k0 k) as [->|Hne].
    + split.
      * intros [[= ->] | [Hk _]]; [reflexivity | contradiction].
      * intros [= ->]. now left.
    + split.
      * intros [[= -> ->] | [_ H]]; [contradiction | exact H].
      * intros H. right. split; [congruence | exact H].
Qed.

Lemma first_seen_sublist (l : list (string * json)) : sublist (first_seen l) l.
Proof.
  induction l as [|x l IH]; simpl; [constructor|].
  apply sublist_skip. etransitivity; [apply sublist_filter | exact IH].
Qed.

Lemma first_seen_NoDup (l : list (string * json)) :
  NoDup (map fst (first_seen l)).
Proof.
  induction l as [|x l IH]; simpl; [constructor|].
  apply NoDup_cons. split.
  - intros H. apply list_elem_of_fmap in H as (y & Hy & Hin).
    apply list_elem_of_filter in Hin as [Hne _]. congruence.
  - revert IH. generalize (first_seen l). intros l' IH.
    induction l' as [|y l' IH']; [constructor|].
    simpl in IH. apply NoDup_cons in IH as [Hy Hnd].
    rewrite filter_cons. destruct (decide (fst y <> fst x)); [|now apply IH'].
    simpl. apply NoDup_cons. split; [|now apply IH'].
    intros H. apply Hy. apply list_elem_of_fmap in H as (z & Hz & Hin).
    apply list_elem_of_filter in Hin as [_ Hin].
    apply list_elem_of_fmap. now exists z.
Qed.

Lemma bind_Ok {A B : Type} (r : result A) (k : A -> result B) (b : B) :
  bind r k = Ok b -> exists a, r = Ok a /\ k a = Ok b.
Proof. destruct r as [a|e]; simpl; [eauto | discriminate]. Qed.

(** ** The transformers on a heap: what they write to *)

Lemma frame_insert (h0 h : heap) (l : loc) (o : obj) :
  h0 ⊆ h -> h0 !! l = None -> h0 ⊆ <[l := o]> h.
Proof. intros Hsub Hl. now apply insert_subseteq_r. Qed.

Lemma frame_fresh (h0 h : heap) : h0 ⊆ h -> h0 !! fresh (dom h) = None.
Proof.
  intros Hsub. apply not_elem_of_dom. intros Hin.
  apply (is_fresh (dom h)). revert Hin. apply subseteq_dom in Hsub.
  apply Hsub.
Qed.

Lemma frame_set_item (h0 h : heap) (d : loc) (k : string) (v : val) :
  h0 ⊆ h -> h0 !! d = None -> h0 ⊆ set_item d k v h.
Proof.
  intros Hsub Hd. unfold set_item.
  destruct (h !! d) as [[elems|items]|]; try exact Hsub.
  now apply frame_insert.
Qed.

Lemma frame_append (h0 h : heap) (l : loc) (v : val) :
  h0 ⊆ h -> h0 !! l = None -> h0 ⊆ append l v h.
Proof.
  intros Hsub Hl. unfold append.
  destruct (h !! l) as [[elems|items]|]; try exact Hsub.
  now apply frame_insert.
Qed.

Lemma frame_fold_set_item {A : Type} (h0 : heap) (result : loc)
  (key : A -> string) (value : A -> val) (l : list A) (h : heap) :
  h0 ⊆ h -> h0 !! result = None ->
  h0 ⊆ fold_left (fun h x => set_item result (key x) (value x) h) l h.
Proof.
  revert h. induction l as [|x l IH]; intros h Hsub Hr; simpl; [exact Hsub|].
  apply IH; [|exact Hr]. now apply frame_set_item.
Qed.

Lemma frame_message_of (h0 h : heap) (record messages : loc)
  (role field : string) :
  h0 ⊆ h -> h0 !! messages = None ->
  h0 ⊆ h_message_of record messages role field h.
Proof.
  intros Hsub Hm. unfold h_message_of.
  destruct (h !! record) as [[elems|items]|]; try exact Hsub.
  destruct (dict_get items field) as [content|]; [|exact Hsub].
  destruct (h_truthy h content); [|exact Hsub].
  unfold alloc. apply frame_append; [|exact Hm].
  apply frame_insert; [exact Hsub | now apply frame_fresh].
Qed.

Lemma frame_store_messages (h0 h : heap) (result messages : loc)
  (new_key : string) :
  h0 ⊆ h -> h0 !! result = None ->
  h0 ⊆ h_store_messages result messages new_key h.
Proof.
  intros Hsub Hr. unfold h_store_messages.
  destruct (h !! messages) as [[[|x elems]|items]|]; try exact Hsub.
  now apply frame_set_item.
Qed.

Lemma frame_chatml_step (h0 h : heap) (record result : loc)
  (entry : string * chatml_spec) :
  h0 ⊆ h -> h0 !! result = None ->
  h0 ⊆ h_chatml_step record result h entry.
Proof.
  intros Hsub Hr. unfold h_chatml_step.
  pose proof (frame_fresh h0 h Hsub) as Hm.
  pose proof (frame_insert h0 h (fresh (dom h)) (OList []) Hsub Hm) as Hsub1.
  destruct (snd entry) as [|[|f1 [|f2 [|f3 [|f4 rest]]]]]; try exact Hsub;
    unfold alloc; apply frame_store_messages; try exact Hr;
    repeat (apply frame_message_of; [|exact Hm]); exact Hsub1.
Qed.

Lemma frame_fold_chatml (h0 : heap) (record result : loc)
  (config : chatml_config) (h : heap) :
  h0 ⊆ h -> h0 !! result = None ->
  h0 ⊆ fold_left (h_chatml_step record result) config h.
Proof.
  revert h. induction config as [|entry config IH]; intros h Hsub Hr; simpl;
    [exact Hsub|].
  apply IH; [|exact Hr]. now apply frame_chatml_step.
Qed.

(** C9.  On the heap, [add_keys], [modify_keys] and
    [convert_to_chatml_function] return a dict at a location that was not
    in use and leave every object that existed before as it was, the
    caller's record and everything it refers to included: all their writes
    go to objects they allocated themselves.  [should_delete_record]
    leaves the heap as it is, and a second call on the same record and
    conditions gives the same boolean.  On a record that is a dict each of
    the three returns. *)
Theorem transformers_leave_the_record (h : heap) (record : loc) :
  (forall keys_to_add result h',
      h_add_keys record keys_to_add h = Some (result, h') ->
      h !! result = None
      /\ (forall l o, h !! l = Some o -> h' !! l = Some o))
  /\ (forall keys_to_modify result h',
         h_modify_keys record keys_to_modify h = Some (result, h') ->
         h !! result = None
         /\ (forall l o, h !! l = Some o -> h' !! l = Some o))
  /\ (forall config result h',
         h_convert_to_chatml_function record config h = Some (result, h') ->
         h !! result = None
         /\ (forall l o, h !! l = Some o -> h' !! l = Some o))
  /\ (forall delete_conditions b h',
         h_should_delete_record record delete_conditions h = Some (b, h') ->
         h' = h
         /\ h_should_delete_record record delete_conditions h' = Some (b, h'))
  /\ (forall items,
         h !! record = Some (ODict items) ->
         (forall keys_to_add additions,
             h !! keys_to_add = Some (ODict additions) ->
             exists result h', h_add_keys record keys_to_add h = Some (result, h'))
         /\ (forall keys_to_modify,
                exists result h',
                  h_modify_keys record keys_to_modify h = Some (result, h'))
         /\ (forall config,
                exists result h',
                  h_convert_to_chatml_function record config h
                  = Some (result, h'))).
Proof.
  assert (h !! fresh (dom h) = None) as Hfresh.
  { apply frame_fresh. reflexivity. }
  split; [|split; [|split; [|split]]].
  - intros keys_to_add result h'. unfold h_add_keys, alloc.
    destruct (h !! record) as [[elems|items]|]; try discriminate.
    destruct (h !! keys_to_add) as [[elems|additions]|]; try discriminate.
    intros [= <- <-]. split; [exact Hfresh|].
    intros l o Hl. eapply lookup_weaken; [exact Hl|].
    apply (frame_fold_set_item h (fresh (dom h)) fst snd); [|exact Hfresh].
    now apply insert_subseteq.
  - intros m result h'. unfold h_modify_keys, alloc.
    destruct (h !! record) as [[elems|items]|]; try discriminate.
    intros [= <- <-]. split; [exact Hfresh|].
    intros l o Hl. eapply lookup_weaken; [exact Hl|].
    apply (frame_fold_set_item h (fresh (dom h))
             (fun kv => renamed m (fst kv)) snd); [|exact Hfresh].
    now apply insert_subseteq.
  - intros config result h'. unfold h_convert_to_chatml_function, alloc.
    destruct (h !! record) as [[elems|items]|]; try discriminate.
    intros [= <- <-]. split; [exact Hfresh|].
    intros l o Hl. eapply lookup_weaken; [exact Hl|].
    apply frame_fold_chatml; [|exact Hfresh].
    now apply insert_subseteq.
  - intros conds b h'. unfold h_should_delete_record.
    destruct (h !! record) as [[elems|items]|] eqn:Hr; try discriminate.
    destruct (h !! conds) as [[elems|conditions]|] eqn:Hc; try discriminate.
    destruct (h_delete_loop h items conditions) as [b'|] eqn:Hloop;
      [|discriminate].
    intros [= <- <-]. split; [reflexivity|]. now rewrite Hr, Hc, Hloop.
  - intros items Hr. split; [|split].
    + intros keys_to_add additions Ha. unfold h_add_keys. rewrite Hr, Ha.
      unfold alloc. eauto.
    + intros m. unfold h_modify_keys. rewrite Hr. unfold alloc. eauto.
    + intros config. unfold h_convert_to_chatml_function. rewrite Hr.
      unfold alloc. eauto.
Qed.

Lemma transformers_leave_the_record_witness :
  exists result h',
    h_add_keys 1%positive 2%positive example_heap = Some (result, h')
    /\ h' !! 1%positive = Some (ODict [("a", VInt 1); ("n", VRef 3%positive)])
    /\ h' !! 3%positive = Some (OList [VInt 1]).
Proof.
  destruct (transformers_leave_the_record example_heap 1%positive)
    as (Hadd & _ & _ & _ & Hret).
  destruct (Hret [("a", VInt 1); ("n", VRef 3%positive)] eq_refl)
    as (Hex & _).
  destruct (Hex 2%positive [("a", VInt 2)] eq_refl) as (result & h' & Hrun).
  exists result, h'. split; [exact Hrun|].
  destruct (Hadd 2%positive result h' Hrun) as [_ Hframe].
  split; apply Hframe; reflexivity.
Defined.

(** ** The transformers on a heap: what they compute *)

(** The heap functions compute what the functions on trees compute, read
    through [decode]. *)

Lemma decode_items_rel (n : nat) (h : heap) (items : list (string * val))
  (d : dict) :
  decode_items n h items = Some d <-> Forall2 (items_rel n h) items d.
Proof.
  unfold decode_items. rewrite mapM_Some. split; intros H.
  - eapply Forall2_impl; [exact H|]. intros [k v] [k' j] Hx. simpl in Hx.
    destruct (decode n h v) as [j0|] eqn:E; [|discriminate].
    injection Hx as <- <-. split; [reflexivity | exact E].
  - eapply Forall2_impl; [exact H|]. intros [k v] [k' j] [Hk Hv].
    simpl in *. subst k'. now rewrite Hv.
Qed.

Lemma decode_ref_dict (n : nat) (h : heap) (l : loc) (d : dict) :
  decode (S n) h (VRef l) = Some (JObj d) <->
  exists items, h !! l = Some (ODict items) /\ decode_items n h items = Some d.
Proof.
  cbn [decode]. fold (decode_items n h). split.
  - destruct (h !! l) as [[elems|items]|]; try discriminate.
    + destruct (mapM (decode n h) elems); discriminate.
    + intros H. exists items. split; [reflexivity|].
      unfold decode_items in *.
      destruct (mapM _ items) as [d'|]; [|discriminate].
      now injection H as <-.
  - intros (items & -> & Hd). unfold decode_items in Hd. now rewrite Hd.
Qed.

(** Objects that stay as they are decode as before. *)
Lemma decode_frame (n : nat) (h h' : heap) (v : val) (j : json) :
  h ⊆ h' -> decode n h v = Some j -> decode n h' v = Some j.
Proof.
  intros Hsub. revert v j. induction n as [|n IH]; intros v j;
    destruct v as [| | | | |l]; try (intros H; exact H); cbn [decode].
  destruct (h !! l) as [o|] eqn:Hl; [|discriminate].
  rewrite (lookup_weaken h h' l o Hl Hsub).
  destruct o as [elems|items].
  - destruct (mapM (decode n h) elems) as [js|] eqn:E; [|discriminate].
    intros [= <-]. apply mapM_Some in E.
    assert (mapM (decode n h') elems = Some js) as ->; [|reflexivity].
    apply mapM_Some. eapply Forall2_impl; [exact E|]. intros x y. apply IH.
  - destruct (mapM _ items) as [d|] eqn:E; [|discriminate].
    intros [= <-]. apply mapM_Some in E.
    match goal with
    | |- JObj <$> ?m = _ => assert (m = Some d) as ->; [|reflexivity]
    end.
    apply mapM_Some. eapply Forall2_impl; [exact E|]. intros [k v] y Hx.
    simpl in *. destruct (decode n h v) as [j0|] eqn:Ev; [|discriminate].
    now rewrite (IH v j0 Ev).
Qed.

Lemma items_rel_frame (n : nat) (h h' : heap) (items : list (string * val))
  (d : dict) :
  h ⊆ h' -> Forall2 (items_rel n h) items d -> Forall2 (items_rel n h') items d.
Proof.
  intros Hsub H. eapply Forall2_impl; [exact H|].
  intros kv kj [Hk Hv]. split; [exact Hk|]. now apply (decode_frame n h h').
Qed.

Lemma items_rel_set {R : string * val -> string * json -> Prop}
  (items : list (string * val)) (d : dict) (k : string) (v : val) (j : json) :
  (forall kv kj, R kv kj -> fst kv = fst kj) ->
  Forall2 R items d -> R (k, v) (k, j) ->
  Forall2 R (dict_set items k v) (dict_set d k j).
Proof.
  intros Hkey H Hnew. induction H as [|[k1 v1] [k2 j2] items d Hx H IH]; simpl.
  - constructor; [exact Hnew | constructor].
  - pose proof (Hkey _ _ Hx) as Hk. simpl in Hk. subst k2.
    destruct (String.eqb k1 k) eqn:E.
    + apply String.eqb_eq in E. subst k1. constructor; [exact Hnew | exact H].
    + constructor; [exact Hx | exact IH].
Qed.

Lemma items_rel_get (n : nat) (h : heap) (items : list (string * val))
  (d : dict) (k : string) :
  Forall2 (items_rel n h) items d ->
  match dict_get items k with
  | Some v => exists j, dict_get d k = Some j /\ decode n h v = Some j
  | None => dict_get d k = None
  end.
Proof.
  intros H. induction H as [|[k1 v1] [k2 j2] items d [Hk Hv] H IH]; simpl;
    [reflexivity|].
  simpl in Hk, Hv. subst k2. destruct (String.eqb k1 k); [eauto | exact IH].
Qed.

(** The dict object at [result] after a run of assignments to it. *)
Lemma fold_set_item_lookup {A : Type} (result : loc) (key : A -> string)
  (value : A -> val) (l : list A) (h : heap) (items : list (string * val)) :
  h !! result = Some (ODict items) ->
  fold_left (fun h x => set_item result (key x) (value x) h) l h !! result
  = Some (ODict (fold_left (fun d x => dict_set d (key x) (value x)) l items)).
Proof.
  revert h items. induction l as [|x l IH]; intros h items Hr; simpl;
    [exact Hr|].
  apply IH. unfold set_item. rewrite Hr. apply lookup_insert_eq.
Qed.

Lemma items_rel_fold (n : nat) (h : heap) (g : string -> string)
  (l : list (string * val)) (l' : dict) (acc : list (string * val))
  (acc' : dict) :
  Forall2 (items_rel n h) l l' -> Forall2 (items_rel n h) acc acc' ->
  Forall2 (items_rel n h)
          (fold_left (fun d kv => dict_set d (g (fst kv)) (snd kv)) l acc)
          (fold_left (fun d kv => dict_set d (g (fst kv)) (snd kv)) l' acc').
Proof.
  intros Hl. revert acc acc'.
  induction Hl as [|[k v] [k' j] l l' [Hk Hv] Hl IH]; intros acc acc' Hacc;
    simpl; [exact Hacc|].
  simpl in Hk, Hv. subst k'. apply IH.
  apply items_rel_set; [now intros ? ? [? _] | exact Hacc | now split].
Qed.

(** [add_keys] on the heap computes [add_keys]. *)
Lemma h_add_keys_refines (n : nat) (h h' : heap) (record keys_to_add result : loc)
  (r a : dict) :
  decode (S n) h (VRef record) = Some (JObj r) ->
  decode (S n) h (VRef keys_to_add) = Some (JObj a) ->
  h_add_keys record keys_to_add h = Some (result, h') ->
  decode (S n) h' (VRef result) = Some (JObj (add_keys r a)).
Proof.
  intros Hr Ha Hrun.
  apply decode_ref_dict in Hr as (items & Hrl & Hr).
  apply decode_ref_dict in Ha as (additions & Hal & Ha).
  unfold h_add_keys, alloc in Hrun. rewrite Hrl, Hal in Hrun.
  injection Hrun as <- <-.
  set (result := fresh (dom h)). set (h1 := <[result := ODict items]> h).
  assert (h !! result = None) as Hfresh by (apply frame_fresh; reflexivity).
  assert (h ⊆ fold_left (fun h kv => set_item result (fst kv) (snd kv) h)
                        additions h1) as Hsub.
  { apply (frame_fold_set_item h result fst snd); [|exact Hfresh].
    now apply insert_subseteq. }
  apply decode_ref_dict. eexists. split.
  - apply (fold_set_item_lookup result fst snd). apply lookup_insert_eq.
  - apply decode_items_rel. apply decode_items_rel in Hr, Ha.
    apply (items_rel_fold n _ (fun k => k)).
    + now apply (items_rel_frame n h).
    + now apply (items_rel_frame n h).
Qed.

(** [modify_keys] on the heap computes [modify_keys]. *)
Lemma h_modify_keys_refines (n : nat) (h h' : heap) (record result : loc)
  (m : renames) (r : dict) :
  decode (S n) h (VRef record) = Some (JObj r) ->
  h_modify_keys record m h = Some (result, h') ->
  decode (S n) h' (VRef result) = Some (JObj (modify_keys r m)).
Proof.
  intros Hr Hrun.
  apply decode_ref_dict in Hr as (items & Hrl & Hr).
  unfold h_modify_keys, alloc in Hrun. rewrite Hrl in Hrun.
  injection Hrun as <- <-.
  set (result := fresh (dom h)). set (h1 := <[result := ODict []]> h).
  assert (h !! result = None) as Hfresh by (apply frame_fresh; reflexivity).
  assert (h ⊆ fold_left (fun h kv => set_item result (renamed m (fst kv))
                                              (snd kv) h) items h1) as Hsub.
  { apply (frame_fold_set_item h result (fun kv => renamed m (fst kv)) snd);
      [|exact Hfresh].
    now apply insert_subseteq. }
  apply decode_ref_dict. eexists. split.
  - apply (fold_set_item_lookup result (fun kv => renamed m (fst kv)) snd).
    apply lookup_insert_eq.
  - apply decode_items_rel. apply decode_items_rel in Hr.
    apply (items_rel_fold n _ (renamed m)).
    + now apply (items_rel_frame n h).
    + constructor.
Qed.

Lemma decode_ref (n : nat) (h : heap) (l : loc) :
  decode (S n) h (VRef l) =
  match h !! l with
  | Some (OList elems) => JArr <$> mapM (decode n h) elems
  | Some (ODict items) => JObj <$> decode_items n h items
  | None => None
  end.
Proof. reflexivity. Qed.

(** More fuel decodes the same. *)
Lemma decode_mono (n : nat) (h : heap) (v : val) (j : json) :
  decode n h v = Some j -> decode (S n) h v = Some j.
Proof.
  revert v j. induction n as [|n IH]; intros v j;
    destruct v as [| | | | |l]; try (intros H; exact H); try discriminate.
  rewrite !decode_ref.
  destruct (h !! l) as [[elems|items]|]; try discriminate.
  - destruct (mapM (decode n h) elems) as [js|] eqn:E; [|discriminate].
    intros [= <-]. apply mapM_Some in E.
    assert (mapM (decode (S n) h) elems = Some js) as ->; [|reflexivity].
    apply mapM_Some. eapply Forall2_impl; [exact E|]. intros x y. apply IH.
  - destruct (decode_items n h items) as [d|] eqn:E; [|discriminate].
    intros [= <-]. apply decode_items_rel in E.
    assert (decode_items (S n) h items = Some d) as ->; [|reflexivity].
    apply decode_items_rel. eapply Forall2_impl; [exact E|].
    intros kv kj [Hk Hv]. split; [exact Hk | now apply IH].
Qed.

Lemma decode_ref_list (n : nat) (h : heap) (l : loc) (js : list json) :
  decode (S n) h (VRef l) = Some (JArr js) <->
  exists elems, h !! l = Some (OList elems) /\ mapM (decode n h) elems = Some js.
Proof.
  rewrite decode_ref. split.
  - destruct (h !! l) as [[elems|items]|]; try discriminate.
    + intros H. exists elems. split; [reflexivity|].
      destruct (mapM (decode n h) elems); [|discriminate].
      now injection H as <-.
    + destruct (decode_items n h items); discriminate.
  - intros (elems & -> & ->). reflexivity.
Qed.

Lemma mapM_decode_mono (n : nat) (h : heap) (elems : list val)
  (js : list json) :
  mapM (decode n h) elems = Some js -> mapM (decode (S n) h) elems = Some js.
Proof.
  rewrite !mapM_Some. intros H. eapply Forall2_impl; [exact H|].
  intros x y. apply decode_mono.
Qed.

(** Is the condition a list object?  Then its tree is a list, and
    otherwise it is not. *)
Lemma decode_is_list (n : nat) (h : heap) (vc : val) (jc : json) :
  decode n h vc = Some jc ->
  match vc with
  | VRef l =>
      match h !! l with
      | Some (OList elems) =>
          exists js, jc = JArr js /\ mapM (decode (S n) h) elems = Some js
      | _ => forall js, jc <> JArr js
      end
  | _ => forall js, jc <> JArr js
  end.
Proof.
  destruct vc as [| | | | |l];
    try (destruct n; intros [= <-] js; discriminate).
  destruct n as [|n]; [simpl; discriminate|]. rewrite decode_ref.
  destruct (h !! l) as [[elems|items]|]; try discriminate.
  - destruct (mapM (decode n h) elems) as [js|] eqn:E; [|discriminate].
    intros [= <-]. exists js. split; [reflexivity|].
    now apply mapM_decode_mono, mapM_decode_mono.
  - destruct (decode_items n h items); [|discriminate].
    intros [= <-] js. discriminate.
Qed.

Lemma h_delete_loop_refines (n : nat) (h : heap) (items : list (string * val))
  (conditions : list (string * val)) (r c : dict) (b : bool) :
  n = size h ->
  Forall2 (items_rel n h) items r -> Forall2 (items_rel n h) conditions c ->
  h_delete_loop h items conditions = Some b ->
  b = should_delete_record r c.
Proof.
  intros -> Hr Hc. revert b.
  induction Hc as [|[key vc] [key' jc] conditions c [Hk Hvc] Hc IH]; intros b;
    cbn [h_delete_loop should_delete_record]; [now intros [= <-]|].
  simpl in Hk, Hvc. subst key'.
  pose proof (items_rel_get (size h) h items r key Hr) as Hget.
  destruct (dict_get items key) as [rv|].
  2:{ rewrite Hget. apply IH. }
  destruct Hget as (jr & -> & Hrv).
  pose proof (decode_is_list (size h) h vc jc Hvc) as Hlist.
  assert (h_eq h rv vc = Some (py_eq jr jc)) as Heq.
  { unfold h_eq. now rewrite (decode_mono _ _ _ _ Hrv), (decode_mono _ _ _ _ Hvc). }
  assert (forall x : bool,
             (if x then Some true else h_delete_loop h items conditions)
             = Some b ->
             b = x || should_delete_record r c) as Hstep.
  { intros [] H; [now injection H as <- | now apply IH]. }
  assert (match h_eq h rv vc with
          | Some true => Some true
          | Some false => h_delete_loop h items conditions
          | None => None
          end = Some b ->
          (forall js, jc <> JArr js) ->
          b = match jc with
              | JArr js => list_contains jr js || should_delete_record r c
              | _ => py_eq jr jc || should_delete_record r c
              end) as Hscalar.
  { rewrite Heq. intros H Hno. cbv beta iota zeta in H. rewrite (Hstep _ H).
    destruct jc; try reflexivity. exfalso. eapply Hno. reflexivity. }
  destruct vc as [| | | | |l]; cbv beta iota zeta;
    try (intros H; now apply Hscalar).
  destruct (h !! l) as [[elems|citems]|] eqn:Hl; cbv beta iota zeta.
  - destruct Hlist as (js & -> & Hjs). unfold h_contains.
    rewrite (decode_mono _ _ _ _ Hrv), Hjs. intros H.
    cbv beta iota zeta in H. now rewrite (Hstep _ H).
  - intros H. now apply Hscalar.
  - intros H. now apply Hscalar.
Qed.

(** [should_delete_record] on the heap computes [should_delete_record]. *)
Lemma h_should_delete_record_refines (h h' : heap) (record conditions : loc)
  (r c : dict) (b : bool) :
  decode (S (size h)) h (VRef record) = Some (JObj r) ->
  decode (S (size h)) h (VRef conditions) = Some (JObj c) ->
  h_should_delete_record record conditions h = Some (b, h') ->
  b = should_delete_record r c /\ h' = h.
Proof.
  intros Hr Hc Hrun.
  apply decode_ref_dict in Hr as (items & Hrl & Hr).
  apply decode_ref_dict in Hc as (conds & Hcl & Hc).
  unfold h_should_delete_record in Hrun. rewrite Hrl, Hcl in Hrun.
  destruct (h_delete_loop h items conds) as [b'|] eqn:Hloop; [|discriminate].
  injection Hrun as <- <-. split; [|reflexivity].
  apply decode_items_rel in Hr, Hc.
  now apply (h_delete_loop_refines (size h) h items conds r c b').
Qed.

(** *** [convert_to_chatml_function] *)

Lemma sub_delete (h m : heap) (i : loc) :
  h ⊆ m -> h !! i = None -> h ⊆ delete i m.
Proof. intros Hs Hi. rewrite <- (delete_id h i Hi). now apply delete_mono. Qed.

Lemma fresh_ne (h : heap) (l : loc) : is_Some (h !! l) -> fresh (dom h) <> l.
Proof.
  intros Hl Heq. apply (is_fresh (dom h)). rewrite Heq. now apply elem_of_dom.
Qed.

Lemma decode_str (n : nat) (h : heap) (s : string) :
  decode n h (VStr s) = Some (JStr s).
Proof. now destruct n. Qed.

(** The truth value of a heap value is that of its tree. *)
Lemma h_truthy_decode (n : nat) (h : heap) (v : val) (j : json) :
  decode n h v = Some j -> h_truthy h v = truthy j.
Proof.
  destruct v as [| | | | |l]; try (destruct n; intros [= <-]; reflexivity).
  destruct n as [|n]; [simpl; discriminate|]. rewrite decode_ref.
  unfold h_truthy. destruct (h !! l) as [[elems|items]|]; try discriminate.
  - destruct (mapM (decode n h) elems) as [js|] eqn:Hjs; [|discriminate].
    intros [= <-]. apply length_mapM in Hjs.
    destruct elems, js; try discriminate; reflexivity.
  - destruct (decode_items n h items) as [d|] eqn:Hd; [|discriminate].
    intros [= <-]. apply decode_items_rel, Forall2_length in Hd.
    destruct items, d; try discriminate; reflexivity.
Qed.

(** One [messages.append] of the loop body. *)
Lemma message_step (n : nat) (h hc hx : heap) (record result ml : loc)
  (items : list (string * val)) (r : dict) (role field : string)
  (msgs : list json) :
  h ⊆ hc -> hc ⊆ hx ->
  h !! record = Some (ODict items) -> Forall2 (items_rel n h) items r ->
  hc !! ml = None -> h !! result = None -> is_Some (hc !! result) ->
  messages_at n result ml hx msgs ->
  hc ⊆ h_message_of record ml role field hx
  /\ messages_at n result ml (h_message_of record ml role field hx)
                 (msgs ++ message_of r role field).
Proof.
  intros Hh Hc Hrec Hitems Hml Hres [ro Hro] (vs & Hvs & Hrel).
  assert (h ⊆ hx) as Hhx by (etransitivity; eassumption).
  assert (h !! ml = None) as Hhml by (eapply lookup_weaken_None; eassumption).
  unfold h_message_of. rewrite (lookup_weaken h hx record _ Hrec Hhx).
  pose proof (items_rel_get n h items r field Hitems) as Hget.
  unfold message_of.
  destruct (dict_get items field) as [content|].
  2:{ rewrite Hget, app_nil_r. split; [exact Hc|]. exists vs. auto. }
  destruct Hget as (c & -> & Hdec).
  rewrite (h_truthy_decode n hx content c)
    by (eapply decode_frame; eassumption).
  destruct (truthy c).
  2:{ rewrite app_nil_r. split; [exact Hc|]. exists vs. auto. }
  unfold alloc. set (m := fresh (dom hx)).
  assert (m <> ml) as Hmml by (apply fresh_ne; eauto).
  assert (m <> result) as Hmres.
  { apply fresh_ne. exists ro. eapply lookup_weaken; eassumption. }
  assert (hx !! m = None) as Hm by (apply frame_fresh; reflexivity).
  assert (hc !! m = None) as Hcm by (eapply lookup_weaken_None; eassumption).
  set (hx1 := <[m := ODict [("role", VStr role); ("content", content)]]> hx).
  assert (hx ⊆ hx1) as Hx1 by (now apply insert_subseteq).
  unfold append.
  assert (hx1 !! ml = Some (OList vs)) as ->.
  { unfold hx1. rewrite lookup_insert_ne by exact Hmml. exact Hvs. }
  split.
  - apply frame_insert; [|exact Hml]. now apply frame_insert.
  - exists (vs ++ [VRef m]). split; [apply lookup_insert_eq|].
    rewrite delete_insert_eq. apply Forall2_app.
    + eapply Forall2_impl; [exact Hrel|]. intros v j Hv.
      eapply decode_frame; [|exact Hv]. now apply delete_mono, delete_mono.
    + constructor; [|constructor]. unfold message.
      apply decode_ref_dict.
      exists [("role", VStr role); ("content", content)]. split.
      * rewrite !lookup_delete_ne by congruence. apply lookup_insert_eq.
      * apply decode_items_rel.
        constructor; [split; [reflexivity | apply decode_str]|].
        constructor; [|constructor]. split; [reflexivity|]. simpl.
        eapply decode_frame; [|exact Hdec].
        apply sub_delete; [apply sub_delete|]; try assumption.
        etransitivity; eassumption.
Qed.

(** [if messages: result[new_key] = messages] *)
Lemma store_step (n : nat) (h hc hx : heap) (result ml : loc) (acc : dict)
  (new_key : string) (msgs : list json) :
  h ⊆ hc -> hc ⊆ hx -> hc !! ml = None -> h !! result = None ->
  result_at n result hc acc ->
  messages_at n result ml hx msgs ->
  h ⊆ h_store_messages result ml new_key hx
  /\ result_at n result (h_store_messages result ml new_key hx)
               match msgs with
               | [] => acc
               | _ => dict_set acc new_key (JArr msgs)
               end.
Proof.
  intros Hh Hc Hml Hres (ritems & Hritems & Hacc) (vs & Hvs & Hrel).
  assert (h ⊆ hx) as Hhx by (etransitivity; eassumption).
  assert (Forall2 (items_rel (S (S n)) (delete result hx)) ritems acc) as Hacc'.
  { eapply items_rel_frame; [|exact Hacc]. now apply delete_mono. }
  assert (ml <> result) as Hne.
  { intros ->. rewrite Hml in Hritems. discriminate. }
  unfold h_store_messages. rewrite Hvs.
  pose proof (Forall2_length _ _ _ Hrel) as Hlen.
  destruct vs as [|v vs]; destruct msgs as [|msg msgs]; try discriminate.
  - split; [exact Hhx|]. exists ritems. split; [|exact Hacc'].
    eapply lookup_weaken; eassumption.
  - unfold set_item. rewrite (lookup_weaken hc hx result _ Hritems Hc).
    split; [now apply frame_insert|].
    eexists. split; [apply lookup_insert_eq|].
    rewrite delete_insert_eq.
    apply items_rel_set; [now intros ? ? [? _] | exact Hacc' |].
    split; [reflexivity|]. cbn [fst snd]. apply decode_ref_list.
    exists (v :: vs). split.
    + rewrite lookup_delete_ne by congruence. exact Hvs.
    + apply mapM_Some. eapply Forall2_impl; [exact Hrel|]. intros x y Hx.
      eapply decode_frame; [|exact Hx]. apply delete_mono, delete_subseteq.
Qed.

Lemma messages_start (n : nat) (result : loc) (hc : heap) :
  messages_at n result (fresh (dom hc)) (<[fresh (dom hc) := OList []]> hc) [].
Proof. exists []. split; [apply lookup_insert_eq | constructor]. Qed.

(** One entry of the configuration. *)
Lemma chatml_step_refines (n : nat) (h hc : heap) (record result : loc)
  (items : list (string * val)) (r acc : dict) (entry : string * chatml_spec) :
  h ⊆ hc -> h !! record = Some (ODict items) ->
  Forall2 (items_rel n h) items r -> h !! result = None ->
  result_at n result hc acc ->
  h ⊆ h_chatml_step record result hc entry
  /\ result_at n result (h_chatml_step record result hc entry)
               (chatml_step r acc entry).
Proof.
  intros Hh Hrec Hitems Hres Hacc.
  assert (is_Some (hc !! result)) as Hsome.
  { destruct Hacc as (ritems & Hr & _). eauto. }
  assert (hc !! fresh (dom hc) = None) as Hml by (apply frame_fresh; reflexivity).
  assert (hc ⊆ <[fresh (dom hc) := OList []]> hc) as H0
    by (now apply insert_subseteq).
  pose proof (messages_start n result hc) as M0.
  unfold h_chatml_step, chatml_step, chatml_messages, alloc.
  destruct (snd entry) as [|[|f1 [|f2 [|f3 [|f4 rest]]]]]; try (split; assumption).
  - destruct (message_step n h hc _ record result _ items r "user" f1 []
                Hh H0 Hrec Hitems Hml Hres Hsome M0) as [H1 M1].
    destruct (message_step n h hc _ record result _ items r "assistant" f2 _
                Hh H1 Hrec Hitems Hml Hres Hsome M1) as [H2 M2].
    exact (store_step n h hc _ result _ acc (fst entry) _
             Hh H2 Hml Hres Hacc M2).
  - destruct (message_step n h hc _ record result _ items r "system" f1 []
                Hh H0 Hrec Hitems Hml Hres Hsome M0) as [H1 M1].
    destruct (message_step n h hc _ record result _ items r "user" f2 _
                Hh H1 Hrec Hitems Hml Hres Hsome M1) as [H2 M2].
    destruct (message_step n h hc _ record result _ items r "assistant" f3 _
                Hh H2 Hrec Hitems Hml Hres Hsome M2) as [H3 M3].
    rewrite <- app_assoc in M3.
    exact (store_step n h hc _ result _ acc (fst entry) _
             Hh H3 Hml Hres Hacc M3).
Qed.

Lemma chatml_fold_refines (n : nat) (h : heap) (record result : loc)
  (items : list (string * val)) (r : dict) (config : chatml_config)
  (hc : heap) (acc : dict) :
  h ⊆ hc -> h !! record = Some (ODict items) ->
  Forall2 (items_rel n h) items r -> h !! result = None ->
  result_at n result hc acc ->
  result_at n result (fold_left (h_chatml_step record result) config hc)
            (fold_left (chatml_step r) config acc).
Proof.
  intros Hh Hrec Hitems Hres. revert hc acc Hh.
  induction config as [|entry config IH]; intros hc acc Hh Hacc; simpl;
    [exact Hacc|].
  destruct (chatml_step_refines n h hc record result items r acc entry
              Hh Hrec Hitems Hres Hacc) as [Hh' Hacc'].
  now apply IH.
Qed.

(** [convert_to_chatml_function] on the heap computes
    [convert_to_chatml_function]. *)
Lemma h_convert_to_chatml_refines (n : nat) (h h' : heap) (record result : loc)
  (config : chatml_config) (r : dict) :
  decode (S n) h (VRef record) = Some (JObj r) ->
  h_convert_to_chatml_function record config h = Some (result, h') ->
  decode (S (S (S n))) h' (VRef result)
  = Some (JObj (convert_to_chatml_function r config)).
Proof.
  intros Hr Hrun.
  apply decode_ref_dict in Hr as (items & Hrl & Hr).
  apply decode_items_rel in Hr.
  unfold h_convert_to_chatml_function, alloc in Hrun. rewrite Hrl in Hrun.
  injection Hrun as <- <-. set (result := fresh (dom h)).
  assert (h !! result = None) as Hfresh by (apply frame_fresh; reflexivity).
  destruct (chatml_fold_refines n h record result items r config
              (<[result := ODict items]> h) r)
    as (ritems & Hritems & Hacc); try assumption.
  - now apply insert_subseteq.
  - exists items. split; [apply lookup_insert_eq|].
    rewrite delete_insert_eq, (delete_id h result Hfresh).
    eapply Forall2_impl; [exact Hr|]. intros kv kj [Hk Hv].
    split; [exact Hk|]. now apply decode_mono, decode_mono.
  - apply decode_ref_dict. exists ritems. split; [exact Hritems|].
    apply decode_items_rel. eapply items_rel_frame; [|exact Hacc].
    apply delete_subseteq.
Qed.

(** ** Text *)

(** Induction on values, through the lists and dicts they hold. *)
Lemma json_nested_ind (P : json -> Prop)
  (HNull : P JNull) (HBool : forall b, P (JBool b)) (HInt : forall z, P (JInt z))
  (HFloat : forall f, P (JFloat f)) (HStr : forall s, P (JStr s))
  (HArr : forall l, Forall P l -> P (JArr l))
  (HObj : forall d, Forall (fun kv => P (snd kv)) d -> P (JObj d)) :
  forall v, P v.
Proof.
  refine (fix IH (v : json) : P v :=
            match v with
            | JNull => HNull
            | JBool b => HBool b
            | JInt z => HInt z
            | JFloat f => HFloat f
            | JStr s => HStr s
            | JArr l =>
                HArr l ((fix go (l : list json) : Forall P l :=
                           match l with
                           | [] => List.Forall_nil _
                           | x :: l' => List.Forall_cons _ _ _ (IH x) (go l')
                           end) l)
            | JObj d =>
                HObj d ((fix go (d : dict) : Forall (fun kv => P (snd kv)) d :=
                           match d with
                           | [] => List.Forall_nil _
                           | kv :: d' => List.Forall_cons _ _ _ (IH (snd kv)) (go d')
                           end) d)
            end).
Qed.

Lemma has_char_app (c : ascii) (s t : string) :
  has_char c (s +:+ t) = has_char c s || has_char c t.
Proof.
  induction s as [|c' s IH]; simpl; [reflexivity|].
  rewrite IH. now rewrite orb_assoc.
Qed.

Lemma has_char_concat (c : ascii) (sep : string) (l : list string) :
  has_char c sep = false -> Forall (fun s => has_char c s = false) l ->
  has_char c (String.concat sep l) = false.
Proof.
  intros Hsep Hl. induction Hl as [|s l Hs Hl IH]; [reflexivity|].
  simpl. destruct l as [|s' l]; [exact Hs|].
  rewrite !has_char_app, Hs, Hsep. exact IH.
Qed.

Lemma has_char_concat_map (c : ascii) (f : ascii -> string) (s : string) :
  (forall c', has_char c (f c') = false) -> has_char c (concat_map f s) = false.
Proof.
  intros Hf. induction s as [|c' s IH]; [reflexivity|].
  simpl. now rewrite has_char_app, Hf, IH.
Qed.

Lemma json_escape_no_newline (c : ascii) :
  has_char newline (json_escape c) = false.
Proof. destruct c as [[] [] [] [] [] [] [] []]; reflexivity. Qed.

Lemma json_string_no_newline (s : string) :
  has_char newline (json_string s) = false.
Proof.
  unfold json_string. cbn [has_char]. rewrite has_char_app.
  rewrite has_char_concat_map by apply json_escape_no_newline. reflexivity.
Qed.

Lemma uint_no_newline (d : Decimal.uint) :
  has_char newline (NilEmpty.string_of_uint d) = false.
Proof. induction d; simpl; auto. Qed.

Lemma int_str_no_newline (z : Z) : has_char newline (int_str z) = false.
Proof.
  unfold int_str, NilZero.string_of_int, NilZero.string_of_uint.
  destruct (Z.to_int z) as [d|d]; destruct d; try reflexivity;
    try apply (uint_no_newline (_ _));
    cbn [has_char]; try apply (uint_no_newline (_ _)).
Qed.

(** A text that starts with a character that is no space is not blank. *)
Lemma rstrip_cons (c : ascii) (s : string) :
  is_space c = false -> is_empty (rstrip (String c s)) = false.
Proof. intros Hc. simpl. rewrite Hc. now destruct (rstrip s). Qed.

Lemma strip_cons (c : ascii) (s : string) :
  is_space c = false -> is_empty (strip (String c s)) = false.
Proof.
  intros Hc. unfold strip. cbn [lstrip]. rewrite Hc. now apply rstrip_cons.
Qed.

(** A chunk without a newline, with its newline, is one line of the text. *)
Lemma text_lines_chunk (t rest : string) :
  has_char newline t = false ->
  text_lines ((t +:+ nl) +:+ rest) = (t +:+ nl) :: text_lines rest.
Proof.
  induction t as [|c t IH]; intros Hno.
  - reflexivity.
  - simpl in Hno. apply orb_false_elim in Hno as [Hc Ht].
    simpl. rewrite Hc. now rewrite (IH Ht).
Qed.

(** ** [should_delete_record] *)

(** One turn of the loop. *)
Lemma should_delete_cons (record : dict) (key : string) (value_condition : json)
  (rest : dict) :
  should_delete_record record ((key, value_condition) :: rest)
  = match dict_get record key with
    | Some record_value => condition_matches record_value value_condition
    | None => false
    end || should_delete_record record rest.
Proof.
  simpl. destruct (dict_get record key) as [v|]; [|reflexivity].
  destruct value_condition; reflexivity.
Qed.

(** X1.  [should_delete_record] answers [True] exactly when at least one
    condition matches: its key is a key of the record, and the record's
    value is [==] to the condition value or, when the condition value is a
    list, is [in] it.  A condition on a key the record does not have never
    matches. *)
Theorem should_delete_any_condition (record delete_conditions : dict) :
  should_delete_record record delete_conditions = true <->
  exists key value_condition record_value,
    (key, value_condition) ∈ delete_conditions
    /\ dict_get record key = Some record_value
    /\ condition_matches record_value value_condition = true.
Proof.
  induction delete_conditions as [|[key cond] rest IH].
  - split; [discriminate|]. intros (k & c & v & Hin & _). inversion Hin.
  - rewrite should_delete_cons, orb_true_iff, IH. split.
    + intros [H | (k & c & v & Hin & Hget & Hm)].
      * destruct (dict_get record key) as [v|] eqn:E; [|discriminate].
        exists key, cond, v. split; [apply list_elem_of_here|]. auto.
      * exists k, c, v. split; [now apply list_elem_of_further|]. auto.
    + intros (k & c & v & Hin & Hget & Hm).
      apply elem_of_cons in Hin as [[= -> ->] | Hin].
      * left. now rewrite Hget.
      * right. eauto 6.
Qed.

Lemma should_delete_any_condition_witness :
  should_delete_record record_spam [cond_n; cond_status] = true.
Proof.
  apply (proj2 (should_delete_any_condition record_spam [cond_n; cond_status])).
  exists "status", (JArr [JStr "spam"; JStr "junk"]), (JStr "spam").
  split; [apply list_elem_of_further, list_elem_of_here|].
  split; reflexivity.
Defined.

(** X2.  The conditions are alternatives: two lists of conditions put
    together delete a record when one of them does, and the order in which
    the conditions are written makes no difference. *)
Theorem should_delete_conditions_compose (record : dict) :
  (forall c1 c2 : dict,
      should_delete_record record (c1 ++ c2)
      = should_delete_record record c1 || should_delete_record record c2)
  /\ (forall c c' : dict,
         c ≡ₚ c' -> should_delete_record record c = should_delete_record record c').
Proof.
  split.
  - intros c1 c2. induction c1 as [|[key cond] c1 IH]; [reflexivity|].
    change (((key, cond) :: c1) ++ c2) with ((key, cond) :: (c1 ++ c2)).
    rewrite !should_delete_cons, IH. apply orb_assoc.
  - intros c c' Hperm. induction Hperm as [|[k v] c c' _ IH|[k v] [k' v'] c|c c' c'' _ IH1 _ IH2].
    + reflexivity.
    + rewrite !should_delete_cons. now rewrite IH.
    + rewrite !should_delete_cons.
      destruct (match dict_get record k with Some rv => condition_matches rv v | None => false end),
        (match dict_get record k' with Some rv => condition_matches rv v' | None => false end);
        reflexivity.
    + now rewrite IH1.
Qed.

Lemma should_delete_conditions_compose_witness :
  should_delete_record record_spam [cond_n; cond_status]
  = should_delete_record record_spam [cond_status; cond_n].
Proof.
  apply (proj2 (should_delete_conditions_compose record_spam)).
  apply perm_swap.
Defined.

(** Equal values hold the same number of lists. *)
Lemma py_eq_list_weight (v w : json) :
  py_eq v w = true -> list_weight v = list_weight w.
Proof.
  revert w. induction v as [| | | | |l IH|d IH] using json_nested_ind;
    intros w H; destruct w as [| | | | |l0|d0]; simpl in H;
    try discriminate; try reflexivity.
  simpl. f_equal. revert l0 H. induction IH as [|x l Hx _ IHl]; intros l' H.
  - destruct l'; [reflexivity | discriminate].
  - destruct l' as [|y l']; [discriminate|].
    apply andb_true_iff in H as [Hxy Hrest]. simpl.
    rewrite (Hx y Hxy). f_equal. now apply IHl.
Qed.

Lemma list_weight_elem (x : json) (l : list json) :
  x ∈ l -> (list_weight x <= list_sum (map list_weight l))%nat.
Proof.
  induction l as [|y l IH]; intros Hin; [inversion Hin|].
  simpl. apply elem_of_cons in Hin as [->|Hin]; [lia|].
  specialize (IH Hin). lia.
Qed.

(** No list is one of its own elements. *)
Lemma list_contains_self (l : list json) : list_contains (JArr l) l = false.
Proof.
  unfold list_contains. apply not_true_is_false. intros H.
  apply existsb_exists in H as (y & Hin & Heq).
  apply py_eq_list_weight in Heq. apply list_elem_of_In in Hin.
  apply list_weight_elem in Hin. simpl in Heq. lia.
Qed.

(** X3.  A condition value that is a list is a list of alternatives and
    nothing else: the record whose field holds that very list is not
    deleted by the condition. *)
Theorem should_delete_list_is_membership (record : dict) (key : string)
  (l : list json) :
  dict_get record key = Some (JArr l) ->
  should_delete_record record [(key, JArr l)] = false.
Proof.
  intros Hget. rewrite should_delete_cons, Hget. simpl.
  rewrite orb_false_r. apply list_contains_self.
Qed.

Lemma should_delete_list_is_membership_witness :
  should_delete_record [("tags", JArr [JStr "a"; JStr "b"])]
                       [("tags", JArr [JStr "a"; JStr "b"])] = false.
Proof.
  apply (should_delete_list_is_membership _ "tags" [JStr "a"; JStr "b"]).
  reflexivity.
Defined.

(** * Properties of the file operations *)

Section FileProperties.

Context {Ev : env}.

(** A lemma depends on the environment only when its statement names it. *)
Set Default Proof Using "Type".

(** ** Identity resolution *)

Lemma py_in_Raise (key : string) (v : json) (e : exn) :
  py_in key v = Raise e -> e = TypeError.
Proof. destruct v; simpl; congruence. Qed.

Lemma first_present_Raise (fields : list string) (record : json) (e : exn) :
  first_present fields record = Raise e -> e = TypeError.
Proof.
  induction fields as [|field rest IH]; simpl; [discriminate|].
  destruct (py_in field record) as [b|e'] eqn:E; simpl.
  - destruct b; [discriminate | exact IH].
  - intros [= <-]. now apply py_in_Raise in E.
Qed.

(** On an object the identity field is the first of the three names that
    is a key. *)
Lemma get_id_field_name_object (d : dict) :
  get_id_field_name (JObj d) = Ok (List.find (dict_mem d) ["_id"; "uuid"; "id"]).
Proof.
  unfold get_id_field_name. simpl.
  destruct (dict_mem d "_id"); [reflexivity|].
  destruct (dict_mem d "uuid"); [reflexivity|].
  now destruct (dict_mem d "id").
Qed.

Lemma collect_line_skip (file_path : string) (st : collect_state)
  (line : string) :
  parse_line line = None -> collect_line file_path st line = Ok st.
Proof.
  unfold parse_line, collect_line.
  destruct (is_empty (strip line)); [reflexivity|]. now intros ->.
Qed.

(** Once the field is fixed a line keeps it. *)
Lemma collect_line_fixed (file_path : string) (ids : gset string) (f : string)
  (line : string) :
  (exists ids', collect_line file_path (ids, Some f) line = Ok (ids', Some f))
  \/ (collect_line file_path (ids, Some f) line = Raise AttributeError
      /\ exists r, parse_line line = Some r /\ forall d, r <> JObj d).
Proof.
  unfold collect_line, parse_line.
  destruct (is_empty (strip line)); [left; eauto|].
  destruct (json_loads (strip line)) as [r|]; [|left; eauto].
  simpl. destruct r; simpl;
    try (right; split; [reflexivity | eexists; split; [reflexivity | congruence]]).
  left. destruct (py_get d f); eauto.
Qed.

Lemma foldM_collect_fixed (file_path : string) (content : lines)
  (ids : gset string) (f : string) :
  (exists ids', foldM (collect_line file_path) content (ids, Some f)
                = Ok (ids', Some f))
  \/ (foldM (collect_line file_path) content (ids, Some f) = Raise AttributeError
      /\ ~ objects_only content).
Proof.
  revert ids. induction content as [|line rest IH]; intros ids; simpl.
  - left. eauto.
  - destruct (collect_line_fixed file_path ids f line)
      as [[ids' ->] | [-> (r & Hr & Hno)]]; simpl.
    + destruct (IH ids') as [H | [H Hno]]; [now left | right].
      split; [exact H|]. intros Hobj. apply Hno.
      intros l r Hl. apply Hobj. now apply list_elem_of_further.
    + right. split; [reflexivity|]. intros Hobj.
      destruct (Hobj line r (list_elem_of_here _ _) Hr) as [d ->].
      now apply (Hno d).
Qed.

Lemma collect_line_first (file_path : string) (ids : gset string)
  (line : string) (r : json) :
  parse_line line = Some r ->
  collect_line file_path (ids, None) line =
  match get_id_field_name r with
  | Raise e => Raise e
  | Ok None => Raise (no_id_field file_path)
  | Ok (Some f) =>
      match get_dyn r f with
      | Raise e => Raise e
      | Ok JNull => Ok (ids, Some f)
      | Ok v => Ok ({[ py_str v ]} ∪ ids, Some f)
      end
  end.
Proof.
  unfold parse_line, collect_line.
  destruct (is_empty (strip line)); [discriminate|]. intros ->. cbn [snd fst].
  destruct (get_id_field_name r) as [[f|]|e]; reflexivity.
Qed.

(** The first record decides: how [collect_ids_from_file]'s loop ends, by
    the first line that holds a value. *)
Lemma foldM_collect_first (file_path : string) (content : lines)
  (ids : gset string) :
  match first_valid_record content with
  | None => foldM (collect_line file_path) content (ids, None) = Ok (ids, None)
  | Some r =>
      match get_id_field_name r with
      | Raise e =>
          foldM (collect_line file_path) content (ids, None) = Raise TypeError
      | Ok None =>
          foldM (collect_line file_path) content (ids, None)
          = Raise (no_id_field file_path)
      | Ok (Some f) =>
          (exists ids', foldM (collect_line file_path) content (ids, None)
                        = Ok (ids', Some f))
          \/ (foldM (collect_line file_path) content (ids, None)
              = Raise AttributeError
              /\ ~ objects_only content)
      end
  end.
Proof.
  induction content as [|line rest IH]; [reflexivity|].
  cbn [first_valid_record foldM].
  destruct (parse_line line) as [r|] eqn:Hparse.
  - rewrite (collect_line_first file_path ids line r Hparse).
    destruct (get_id_field_name r) as [[f|]|e] eqn:Hid; cbn [bind].
    + destruct (get_dyn r f) as [v|e] eqn:Hget; cbn [bind].
      * destruct v; cbn [bind];
          match goal with
          | |- context [foldM _ rest (?i, Some f)] =>
              destruct (foldM_collect_fixed file_path rest i f) as [H | [H Hno]]
          end;
          try (now left);
          (right; split; [exact H|]; intros Hobj; apply Hno;
           intros ln r' Hl; apply Hobj; now apply list_elem_of_further).
      * right. assert (e = AttributeError /\ forall d, r <> JObj d) as [-> Hno].
        { destruct r; simpl in Hget; try discriminate Hget;
            injection Hget as <-; split; congruence. }
        split; [reflexivity|]. intros Hobj.
        destruct (Hobj line r (list_elem_of_here _ _) Hparse) as [d ->].
        now apply (Hno d).
    + reflexivity.
    + apply first_present_Raise in Hid as ->. reflexivity.
  - rewrite (collect_line_skip file_path _ line Hparse). cbn [bind].
    destruct (first_valid_record rest) as [r|]; [|exact IH].
    destruct (get_id_field_name r) as [[f|]|e]; try exact IH.
    destruct IH as [H | [H Hno]]; [now left | right].
    split; [exact H|]. intros Hobj. apply Hno.
    intros ln r' Hl. apply Hobj. now apply list_elem_of_further.
Qed.

(** How [collect_ids_from_file] ends, by the first record of the file. *)
Lemma collect_ids_cases (file_path : string) (content : lines) :
  fs file_path = Some content ->
  match first_valid_record content with
  | None => collect_ids_from_file file_path = Raise (no_valid_records file_path)
  | Some r =>
      match get_id_field_name r with
      | Raise e => collect_ids_from_file file_path = Raise TypeError
      | Ok None => collect_ids_from_file file_path = Raise (no_id_field file_path)
      | Ok (Some f) =>
          (exists ids, collect_ids_from_file file_path = Ok (ids, f))
          \/ (collect_ids_from_file file_path = Raise AttributeError
              /\ ~ objects_only content)
      end
  end.
Proof.
  intros Hfs. unfold collect_ids_from_file, open_read. rewrite Hfs. cbn [bind].
  pose proof (foldM_collect_first file_path content ∅) as H.
  destruct (first_valid_record content) as [r|].
  - destruct (get_id_field_name r) as [[f|]|e].
    + destruct H as [[ids ->] | [-> Hno]]; [left; eauto | right; auto].
    + now rewrite H.
    + now rewrite H.
  - now rewrite H.
Qed.

(** C2 (amended).  For a file that can be read: on an object the identity
    field is the first of [_id], [uuid], [id] that is a key; once fixed the
    field stays for the rest of the file; the field
    [collect_ids_from_file] returns is the one of the first line that is
    not blank and parses, and it is returned when that record has one and
    every record of the file is an object; a [ValueError] naming the file
    is raised exactly when the file has no record at all or its first
    record has none of the three fields, whatever later records hold. *)
Theorem identity_field_from_first_record (file_path : string) (content : lines) :
  fs file_path = Some content ->
  (forall d, get_id_field_name (JObj d)
             = Ok (List.find (dict_mem d) ["_id"; "uuid"; "id"]))
  /\ (forall ids f line st',
         collect_line file_path (ids, Some f) line = Ok st' -> snd st' = Some f)
  /\ (forall ids f,
         collect_ids_from_file file_path = Ok (ids, f) ->
         exists r, first_valid_record content = Some r
                   /\ get_id_field_name r = Ok (Some f))
  /\ (objects_only content ->
      forall r f,
        first_valid_record content = Some r ->
        get_id_field_name r = Ok (Some f) ->
        exists ids, collect_ids_from_file file_path = Ok (ids, f))
  /\ (forall msg,
         collect_ids_from_file file_path = Raise (ValueError msg) <->
         (first_valid_record content = None
          /\ msg = "No valid records found in " +:+ file_path)
         \/ (exists r, first_valid_record content = Some r
                       /\ get_id_field_name r = Ok None
                       /\ msg = "No valid ID field (_id, uuid, or id) found in "
                                +:+ file_path)).
Proof.
  intros Hfs. pose proof (collect_ids_cases file_path content Hfs) as Hc.
  split; [apply get_id_field_name_object|].
  split.
  { intros ids f line st' H.
    destruct (collect_line_fixed file_path ids f line) as [[ids' E] | [E _]];
      rewrite E in H; [now injection H as <- | discriminate]. }
  split.
  { intros ids f H. destruct (first_valid_record content) as [r|].
    - exists r. split; [reflexivity|].
      destruct (get_id_field_name r) as [[f'|]|e].
      + destruct Hc as [[ids' E] | [E _]]; rewrite E in H; congruence.
      + rewrite Hc in H. discriminate.
      + rewrite Hc in H. discriminate.
    - rewrite Hc in H. discriminate. }
  split.
  { intros Hobj r f Hr Hid. rewrite Hr, Hid in Hc.
    destruct Hc as [H | [_ Hno]]; [exact H | contradiction]. }
  intros msg. split.
  - intros H. destruct (first_valid_record content) as [r|].
    + right. exists r. split; [reflexivity|].
      destruct (get_id_field_name r) as [[f'|]|e].
      * destruct Hc as [[ids' E] | [E _]]; rewrite E in H; discriminate.
      * rewrite Hc in H. unfold no_id_field in H. injection H as <-. auto.
      * rewrite Hc in H. discriminate.
    + left. rewrite Hc in H. unfold no_valid_records in H. injection H as <-. auto.
  - intros [[Hnone ->] | (r & Hr & Hid & ->)].
    + rewrite Hnone in Hc. exact Hc.
    + rewrite Hr, Hid in Hc. exact Hc.
Qed.

(** ** The second pass of the merge *)


Lemma merge_line_blank (id_field : string) (st : merge_state) (line : string) :
  is_empty (strip line) = true -> merge_line id_field st line = Ok st.
Proof. intros H. unfold merge_line. now rewrite H. Qed.

Lemma merge_line_malformed (id_field : string) (st : merge_state)
  (line : string) :
  json_loads (strip line) = None -> merge_line id_field st line = Ok st.
Proof.
  intros H. unfold merge_line. rewrite H. now destruct (is_empty (strip line)).
Qed.

(** One line of the second pass, by what the line holds. *)
Lemma merge_line_candidate (id_field : string) (st : merge_state)
  (line : string) :
  (forall r, parse_line line = Some r -> exists d, r = JObj d) ->
  merge_line id_field st line =
  Ok match candidate id_field line with
     | None => st
     | Some x =>
         if decide (fst x ∈ seen_ids st) then skip_record st
         else write_record st (snd x) (fst x)
     end.
Proof.
  intros Hobj. unfold merge_line, candidate. unfold parse_line in *.
  destruct (is_empty (strip line)); [reflexivity|].
  destruct (json_loads (strip line)) as [r|]; [|reflexivity].
  destruct (Hobj r eq_refl) as [d ->]. simpl.
  destruct (py_get d id_field); try reflexivity;
    simpl; now destruct (decide _).
Qed.


(** The lines of one file: the survivors are written in line order, the
    other candidates are counted as skipped, nothing else changes. *)
Lemma run_merge_lines (id_field : string) (content : lines) (st : merge_state) :
  objects_only content ->
  exists st',
    run (merge_body id_field) content st = (st', None)
    /\ out st' = out st
                 ++ map output_line
                        (survivors (seen_ids st) (file_candidates id_field content))
    /\ seen_ids st' = identities (file_candidates id_field content) ∪ seen_ids st
    /\ total_written st'
       = (total_written st
          + List.length (survivors (seen_ids st)
                                   (file_candidates id_field content)))%nat
    /\ (total_skipped st'
        + List.length (survivors (seen_ids st)
                                 (file_candidates id_field content)))%nat
       = (total_skipped st
          + List.length (file_candidates id_field content))%nat
    /\ written_from_file st'
       = (written_from_file st
          + List.length (survivors (seen_ids st)
                                   (file_candidates id_field content)))%nat
    /\ (skipped_from_file st'
        + List.length (survivors (seen_ids st)
                                 (file_candidates id_field content)))%nat
       = (skipped_from_file st
          + List.length (file_candidates id_field content))%nat
    /\ reports st' = reports st.
Proof.
  revert st. induction content as [|line rest IH]; intros st Hobj.
  - exists st. simpl. rewrite app_nil_r.
    repeat split; try lia. unfold identities. simpl. set_solver.
  - assert (objects_only rest) as Hrest.
    { intros l r Hl. apply Hobj. now apply list_elem_of_further. }
    assert (forall r, parse_line line = Some r -> exists d, r = JObj d) as Hline.
    { intros r. apply Hobj. apply list_elem_of_here. }
    cbn [run]. unfold merge_body at 1.
    rewrite (merge_line_candidate id_field st line Hline).
    unfold file_candidates. cbn [omap list_omap].
    fold (file_candidates id_field rest).
    destruct (candidate id_field line) as [x|] eqn:Hc.
    + destruct (decide (fst x ∈ seen_ids st)) as [Hin|Hnot]; cbn [attempt].
      * destruct (IH (skip_record st) Hrest)
          as (st' & Hrun & Hout & Hseen & Hw & Hs & Hwf & Hsf & Hrep).
        exists st'. simpl in *.
        rewrite (survivors_cons_seen _ x _ Hin).
        repeat split; try assumption; try lia.
        rewrite Hseen, identities_cons. apply set_eq. set_solver.
      * destruct (IH (write_record st (snd x) (fst x)) Hrest)
          as (st' & Hrun & Hout & Hseen & Hw & Hs & Hwf & Hsf & Hrep).
        exists st'. simpl in *.
        rewrite (survivors_cons_new _ x _ Hnot).
        repeat split; try assumption; simpl; try lia.
        -- rewrite Hout, <- app_assoc. reflexivity.
        -- rewrite Hseen, identities_cons. apply set_eq. set_solver.
    + cbn [attempt]. apply IH. exact Hrest.
Qed.

(** ** The first pass of the merge *)


Lemma get_dyn_Ok (record : json) (key : string) (v : json) :
  get_dyn record key = Ok v -> exists d, record = JObj d.
Proof. destruct record; simpl; try discriminate. eauto. Qed.

(** A line that [collect_ids_from_file] gets past holds an object, if it
    holds a value at all. *)
Lemma collect_line_object (file_path : string) (st st' : collect_state)
  (line : string) (r : json) :
  collect_line file_path st line = Ok st' ->
  parse_line line = Some r -> exists d, r = JObj d.
Proof.
  unfold collect_line, parse_line.
  destruct (is_empty (strip line)); [discriminate 2|].
  intros H Hr. rewrite Hr in H.
  apply bind_Ok in H as (name & _ & H).
  apply bind_Ok in H as (v & Hget & _).
  now apply get_dyn_Ok in Hget.
Qed.

Lemma foldM_collect_objects (file_path : string) (content : lines)
  (st st' : collect_state) :
  foldM (collect_line file_path) content st = Ok st' -> objects_only content.
Proof.
  revert st. induction content as [|line rest IH]; intros st H l r Hl Hr.
  - inversion Hl.
  - simpl in H. apply bind_Ok in H as (st1 & Hstep & Hrest).
    apply elem_of_cons in Hl as [->|Hl].
    + now apply (collect_line_object file_path st st1 line r).
    + now apply (IH st1 Hrest l r).
Qed.

Lemma collect_ids_objects (file_path : string) (r : gset string * string) :
  collect_ids_from_file file_path = Ok r ->
  exists content, fs file_path = Some content /\ objects_only content.
Proof.
  unfold collect_ids_from_file, open_read.
  destruct (fs file_path) as [content|]; [|discriminate]. simpl.
  intros H. apply bind_Ok in H as (st & Hfold & _).
  exists content. split; [reflexivity|].
  exact (foldM_collect_objects file_path content _ st Hfold).
Qed.


(** The first pass over files that all have an identity field: it records
    for each of them the field [collect_ids_from_file] fixed. *)
Lemma first_pass_fields (file_paths : list string) (st0 : pass1_state) :
  collected file_paths ->
  exists st,
    foldM collect_file file_paths st0 = Ok st
    /\ (forall p, p ∈ file_paths ->
                  snd st !! p = id_field_of p /\ is_Some (fst st !! p))
    /\ (forall p, p ∉ file_paths ->
                  snd st !! p = snd st0 !! p /\ fst st !! p = fst st0 !! p).
Proof.
  revert st0. induction file_paths as [|p rest IH]; intros st0 Hall.
  - exists st0. split; [reflexivity|]. split; [intros p Hp; inversion Hp | auto].
  - destruct (Hall p) as [[ids f] Hp]; [apply list_elem_of_here|].
    assert (collected rest) as Hrest.
    { intros q Hq. apply Hall. now apply list_elem_of_further. }
    cbn [foldM]. unfold collect_file at 1. rewrite Hp. cbn [bind].
    destruct (IH (<[p:=ids]> (fst st0), <[p:=f]> (snd st0)) Hrest)
      as (st & Hrun & Hin & Hout).
    exists st. split; [exact Hrun|]. split.
    + intros q Hq. destruct (decide (q ∈ rest)) as [Hqr|Hqr]; [now apply Hin|].
      apply elem_of_cons in Hq as [->|Hq]; [|contradiction].
      destruct (Hout p Hqr) as [H2 H1]. simpl in H1, H2.
      rewrite H2, H1, !lookup_insert_eq. unfold id_field_of. rewrite Hp.
      split; [reflexivity | eauto].
    + intros q Hq. apply not_elem_of_cons in Hq as [Hne Hq].
      destruct (Hout q Hq) as [H2 H1]. simpl in H1, H2.
      rewrite H2, H1. rewrite !lookup_insert_ne by congruence. auto.
Qed.

Lemma total_unique_ids_Ok (m : gmap string (gset string)) (p : string) :
  is_Some (m !! p) -> exists n, total_unique_ids m = Ok n.
Proof.
  intros [s Hs]. unfold total_unique_ids.
  destruct (snd <$> map_to_list m) as [|x l] eqn:E; [|eauto].
  apply fmap_nil_inv in E. apply map_to_list_empty_iff in E. subst m.
  rewrite lookup_empty in Hs. discriminate.
Qed.

(** ** The whole merge *)

Lemma candidates_of_collected (p : string) (r : gset string * string)
  (content : lines) :
  collect_ids_from_file p = Ok r -> fs p = Some content ->
  candidates_of p = file_candidates (snd r) content.
Proof.
  intros Hp Hfs. unfold candidates_of, id_field_of. now rewrite Hp, Hfs.
Qed.

Lemma run_merge_files (fields : gmap string string) (file_paths : list string)
  (st : merge_state) :
  collected file_paths ->
  (forall p, p ∈ file_paths -> fields !! p = id_field_of p) ->
  exists st',
    run (merge_file fields) file_paths st = (st', None)
    /\ out st' = out st
                 ++ map output_line
                        (survivors (seen_ids st) (all_candidates file_paths))
    /\ seen_ids st' = identities (all_candidates file_paths) ∪ seen_ids st
    /\ total_written st'
       = (total_written st
          + List.length (survivors (seen_ids st)
                                   (all_candidates file_paths)))%nat
    /\ (total_skipped st'
        + List.length (survivors (seen_ids st) (all_candidates file_paths)))%nat
       = (total_skipped st + List.length (all_candidates file_paths))%nat.
Proof.
  revert st. induction file_paths as [|p rest IH]; intros st Hall Hfields.
  - exists st. simpl. rewrite app_nil_r.
    repeat split; try lia. unfold identities. simpl. set_solver.
  - destruct (Hall p) as [r Hp]; [apply list_elem_of_here|].
    destruct (collect_ids_objects p r Hp) as (content & Hfs & Hobj).
    assert (collected rest) as Hrest.
    { intros q Hq. apply Hall. now apply list_elem_of_further. }
    assert (fields !! p = Some (snd r)) as Hf.
    { rewrite Hfields by apply list_elem_of_here.
      unfold id_field_of. now rewrite Hp. }
    cbn [run]. unfold merge_file at 1. rewrite Hf, Hfs.
    destruct (run_merge_lines (snd r) content (begin_file st) Hobj)
      as (st1 & Hrun1 & Hout1 & Hseen1 & Hw1 & Hs1 & _ & _ & _).
    fold (merge_body (snd r)). rewrite Hrun1.
    destruct (IH (end_file p st1) Hrest)
      as (st' & Hrun & Hout & Hseen & Hw & Hs).
    { intros q Hq. apply Hfields. now apply list_elem_of_further. }
    exists st'. split; [exact Hrun|].
    unfold all_candidates. cbn [flat_map].
    fold (all_candidates rest).
    rewrite (candidates_of_collected p r content Hp Hfs).
    rewrite survivors_app, map_app, !length_app.
    simpl in *. rewrite Hseen1 in *.
    repeat split.
    + rewrite Hout, Hout1, <- app_assoc. reflexivity.
    + rewrite Hseen. unfold identities. rewrite map_app, list_to_set_app_L.
      apply set_eq. set_solver.
    + lia.
    + lia.
Qed.

(** The merge of files that all have an identity field ends normally, and
    its output is the first-seen candidates of the files in the order
    given. *)
Lemma merge_jsonl_files_first_seen (file_paths : list string) :
  file_paths <> [] -> collected file_paths ->
  exists unique st,
    merge_jsonl_files file_paths = Ok (unique, (st, None))
    /\ out st = map output_line (first_seen (all_candidates file_paths))
    /\ total_written st = List.length (first_seen (all_candidates file_paths))
    /\ (total_skipped st
        + List.length (first_seen (all_candidates file_paths)))%nat
       = List.length (all_candidates file_paths).
Proof.
  intros Hne Hall. unfold merge_jsonl_files, first_pass.
  destruct (first_pass_fields file_paths (∅, ∅) Hall) as (st1 & Hrun & Hin & _).
  rewrite Hrun. cbn [bind].
  destruct file_paths as [|p rest]; [contradiction|].
  destruct (total_unique_ids_Ok (fst st1) p) as [n Hn].
  { apply Hin. apply list_elem_of_here. }
  rewrite Hn. cbn [bind]. unfold second_pass.
  destruct (run_merge_files (snd st1) (p :: rest) merge_start Hall)
    as (st & Hrun2 & Hout & _ & Hw & Hs).
  { intros q Hq. now apply Hin. }
  exists n, st. rewrite Hrun2. split; [reflexivity|].
  change (seen_ids merge_start) with (∅ : gset string) in *.
  rewrite survivors_empty in *. simpl in Hout, Hw, Hs.
  repeat split; assumption.
Qed.




Lemma parse_line_text (t : string) :
  strip (t +:+ nl) = t -> is_empty t = false ->
  parse_line (t +:+ nl) = json_loads t.
Proof. intros Hs He. unfold parse_line. now rewrite Hs, He. Qed.

(** A file of objects whose first record has an identity field is
    collected under that field. *)
Lemma collect_ids_returns (file_path : string) (content : lines) (r : json)
  (f : string) :
  fs file_path = Some content -> objects_only content ->
  first_valid_record content = Some r -> get_id_field_name r = Ok (Some f) ->
  exists ids, collect_ids_from_file file_path = Ok (ids, f).
Proof.
  intros Hfs Hobj Hr Hid.
  pose proof (collect_ids_cases file_path content Hfs) as Hc.
  rewrite Hr, Hid in Hc. destruct Hc as [H | [_ Hno]]; [exact H | contradiction].
Qed.

(** The two files of the specification's example. *)
Lemma example_collected :
  json_loads text_1 = Some rec_1 -> json_loads text_2 = Some rec_2 ->
  json_loads text_3 = Some rec_3 ->
  fs "a.jsonl" = Some file_a -> fs "b.jsonl" = Some file_b ->
  (exists ids, collect_ids_from_file "a.jsonl" = Ok (ids, "id"))
  /\ (exists ids, collect_ids_from_file "b.jsonl" = Ok (ids, "id")).
Proof.
  intros H1 H2 H3 Ha Hb.
  assert (parse_line (text_1 +:+ nl) = Some rec_1) as P1.
  { rewrite parse_line_text by reflexivity. exact H1. }
  assert (parse_line (text_2 +:+ nl) = Some rec_2) as P2.
  { rewrite parse_line_text by reflexivity. exact H2. }
  assert (parse_line (text_3 +:+ nl) = Some rec_3) as P3.
  { rewrite parse_line_text by reflexivity. exact H3. }
  split.
  - apply (collect_ids_returns "a.jsonl" file_a rec_1 "id" Ha);
      [| |reflexivity].
    + intros line r Hin Hp. unfold file_a in Hin.
      apply elem_of_cons in Hin as [->|Hin];
        [|apply list_elem_of_singleton in Hin as ->];
        rewrite ?P1, ?P2 in Hp; injection Hp as <-; eexists; reflexivity.
    + unfold file_a. cbn [first_valid_record]. now rewrite P1.
  - apply (collect_ids_returns "b.jsonl" file_b rec_2 "id" Hb);
      [| |reflexivity].
    + intros line r Hin Hp. unfold file_b in Hin.
      apply elem_of_cons in Hin as [->|Hin];
        [|apply list_elem_of_singleton in Hin as ->];
        rewrite ?P2, ?P3 in Hp; injection Hp as <-; eexists; reflexivity.
    + unfold file_b. cbn [first_valid_record]. now rewrite P2.
Qed.

Lemma example_candidates :
  json_loads text_1 = Some rec_1 -> json_loads text_2 = Some rec_2 ->
  json_loads text_3 = Some rec_3 ->
  fs "a.jsonl" = Some file_a -> fs "b.jsonl" = Some file_b ->
  all_candidates ["a.jsonl"; "b.jsonl"]
  = [("1", rec_1); ("2", rec_2); ("2", rec_2); ("3", rec_3)].
Proof.
  intros H1 H2 H3 Ha Hb.
  destruct (example_collected H1 H2 H3 Ha Hb) as [[ia Ca] [ib Cb]].
  assert (parse_line (text_1 +:+ nl) = Some rec_1) as P1.
  { rewrite parse_line_text by reflexivity. exact H1. }
  assert (parse_line (text_2 +:+ nl) = Some rec_2) as P2.
  { rewrite parse_line_text by reflexivity. exact H2. }
  assert (parse_line (text_3 +:+ nl) = Some rec_3) as P3.
  { rewrite parse_line_text by reflexivity. exact H3. }
  unfold all_candidates. cbn [flat_map].
  rewrite (candidates_of_collected _ _ _ Ca Ha).
  rewrite (candidates_of_collected _ _ _ Cb Hb).
  unfold file_candidates, file_a, file_b. cbn [omap list_omap snd].
  unfold candidate. rewrite P1, P2, P3. reflexivity.
Qed.

(** C1.  Merging files that all have an identity field ends normally with
    the first-seen candidates of the files as output: the records whose
    identity string no earlier record has, in the order of the files given
    and, within a file, in line order (the survivors of the first files,
    then those of the later files that the first did not take), each
    written once; the other candidates are counted as skipped.  For the two
    files of the example the output has the records with ids 1, 2, 3 in
    that order, with 1 duplicate skipped. *)
Theorem merge_first_seen_wins :
  (forall file_paths : list string,
      file_paths <> [] -> collected file_paths ->
      exists unique st,
        merge_jsonl_files file_paths = Ok (unique, (st, None))
        /\ out st = map output_line (first_seen (all_candidates file_paths))
        /\ total_written st
           = List.length (first_seen (all_candidates file_paths))
        /\ (total_skipped st
            + List.length (first_seen (all_candidates file_paths)))%nat
           = List.length (all_candidates file_paths))
  /\ (forall l : list (string * json),
         sublist (first_seen l) l
         /\ NoDup (map fst (first_seen l))
         /\ forall k r, (k, r) ∈ first_seen l <-> dict_get l k = Some r)
  /\ (forall ps1 ps2 : list string,
         first_seen (all_candidates (ps1 ++ ps2))
         = first_seen (all_candidates ps1)
           ++ survivors (identities (all_candidates ps1)) (all_candidates ps2))
  /\ (json_loads text_1 = Some rec_1 -> json_loads text_2 = Some rec_2 ->
      json_loads text_3 = Some rec_3 ->
      fs "a.jsonl" = Some file_a -> fs "b.jsonl" = Some file_b ->
      exists unique st,
        merge_jsonl_files ["a.jsonl"; "b.jsonl"] = Ok (unique, (st, None))
        /\ out st = [json_dumps rec_1 +:+ nl; json_dumps rec_2 +:+ nl;
                     json_dumps rec_3 +:+ nl]
        /\ total_written st = 3%nat
        /\ total_skipped st = 1%nat).
Proof.
  split; [exact merge_jsonl_files_first_seen|].
  split.
  { intros l. split; [apply first_seen_sublist|].
    split; [apply first_seen_NoDup | apply first_seen_first]. }
  split.
  { intros ps1 ps2. unfold all_candidates. rewrite flat_map_app.
    rewrite <- !survivors_empty, survivors_app. f_equal.
    apply survivors_ext. intros x. set_solver. }
  intros H1 H2 H3 Ha Hb.
  destruct (example_collected H1 H2 H3 Ha Hb) as [[ia Ca] [ib Cb]].
  destruct (merge_jsonl_files_first_seen ["a.jsonl"; "b.jsonl"])
    as (unique & st & Hm & Hout & Hw & Hs).
  - discriminate.
  - intros p Hp. apply elem_of_cons in Hp as [->|Hp];
      [|apply list_elem_of_singleton in Hp as ->]; eauto.
  - exists unique, st. split; [exact Hm|].
    rewrite (example_candidates H1 H2 H3 Ha Hb) in Hout, Hw, Hs.
    assert (first_seen [("1", rec_1); ("2", rec_2); ("2", rec_2); ("3", rec_3)]
            = [("1", rec_1); ("2", rec_2); ("3", rec_3)]) as E by reflexivity.
    rewrite E in Hout, Hw, Hs. simpl in Hs.
    repeat split; [exact Hout | exact Hw | lia].
Qed.

(** ** Lines the second pass leaves out *)

Lemma run_app {A S : Type} (body : S -> A -> S * option exn) (l1 l2 : list A)
  (s : S) :
  run body (l1 ++ l2) s =
  match run body l1 s with
  | (s', None) => run body l2 s'
  | stopped => stopped
  end.
Proof.
  revert s. induction l1 as [|x l1 IH]; intros s; simpl; [reflexivity|].
  destruct (body s x) as [s' [e|]]; [reflexivity | apply IH].
Qed.

(** A line that leaves the state as it is can be taken out of the file. *)
Lemma run_merge_drop (id_field : string) (line : string) :
  (forall st, merge_line id_field st line = Ok st) ->
  forall (before after : lines) (st : merge_state),
    run (merge_body id_field) (before ++ line :: after) st
    = run (merge_body id_field) (before ++ after) st.
Proof.
  intros Hline before after st. rewrite !run_app.
  destruct (run (merge_body id_field) before st) as [s' [e|]]; [reflexivity|].
  cbn [run]. unfold merge_body at 1. rewrite Hline. reflexivity.
Qed.

Lemma merge_line_null (id_field : string) (st : merge_state) (line : string)
  (d : dict) :
  parse_line line = Some (JObj d) -> py_get d id_field = JNull ->
  merge_line id_field st line = Ok st.
Proof.
  unfold parse_line, merge_line.
  destruct (is_empty (strip line)); [discriminate|].
  intros -> Hget. simpl. now rewrite Hget.
Qed.

(** C4.  In the second pass of the merge a record whose lookup under the
    file's identity field yields null or nothing (the field is absent, or
    its value is null) leaves the output, the seen identities and every
    count as they are: it is not a candidate, it is neither written nor
    counted as a duplicate, and the pass over the file goes as if the line
    were not there. *)
Theorem merge_drops_record_without_identity (id_field : string) (line : string)
  (d : dict) :
  parse_line line = Some (JObj d) ->
  py_get d id_field = JNull ->
  (forall st, merge_line id_field st line = Ok st)
  /\ candidate id_field line = None
  /\ (forall (before after : lines) (st : merge_state),
         run (merge_body id_field) (before ++ line :: after) st
         = run (merge_body id_field) (before ++ after) st).
Proof.
  intros Hparse Hget.
  assert (forall st, merge_line id_field st line = Ok st) as Hline.
  { intros st. now apply (merge_line_null id_field st line d). }
  split; [exact Hline|]. split.
  - unfold candidate. now rewrite Hparse, Hget.
  - now apply run_merge_drop.
Qed.

(** ** The text the second pass writes *)

Lemma json_dumps_no_newline :
  no_newline_repr -> forall v, has_char newline (json_dumps v) = false.
Proof.
  intros Hrepr. apply json_nested_ind.
  - reflexivity.
  - intros []; reflexivity.
  - apply int_str_no_newline.
  - intros [s|[]| |s m e]; try reflexivity; apply Hrepr.
  - apply json_string_no_newline.
  - intros l Hl. cbn [json_dumps]. rewrite !has_char_app. cbn [has_char].
    rewrite has_char_concat; [reflexivity | reflexivity |].
    now apply Forall_fmap.
  - intros d Hd. cbn [json_dumps]. rewrite !has_char_app. cbn [has_char].
    rewrite has_char_concat; [reflexivity | reflexivity |].
    apply Forall_fmap. eapply Forall_impl; [exact Hd|].
    intros kv Hkv. unfold compose. cbv beta.
    rewrite !has_char_app, json_string_no_newline, Hkv. reflexivity.
Qed.

Lemma written_chunk_not_blank (chunk : string) :
  written_chunk chunk -> is_empty (strip chunk) = false.
Proof. intros [d ->]. cbn [json_dumps]. now apply strip_cons. Qed.

Lemma written_chunks_lines (chunks : list string) :
  no_newline_repr -> Forall written_chunk chunks ->
  text_lines (file_text chunks) = chunks.
Proof.
  intros Hrepr Hc. induction Hc as [|c cs [d ->] _ IH]; [reflexivity|].
  cbn [file_text fold_right]. fold (file_text cs).
  rewrite text_lines_chunk by now apply json_dumps_no_newline.
  now rewrite IH.
Qed.

(** Whatever a line holds, the second pass writes at most one chunk for
    it, the text of an object. *)
Lemma merge_line_out (id_field : string) (st st' : merge_state) (line : string) :
  merge_line id_field st line = Ok st' ->
  Forall written_chunk (out st) -> Forall written_chunk (out st').
Proof.
  unfold merge_line. destruct (is_empty (strip line)); [now intros [= <-]|].
  destruct (json_loads (strip line)) as [r|]; [|now intros [= <-]].
  destruct r; simpl; try discriminate.
  intros H Hout.
  assert (st' = st \/ st' = skip_record st
          \/ exists id_str, st' = write_record st (JObj d) id_str)
    as [-> | [-> | [id_str ->]]].
  { destruct (py_get d id_field); simpl in H;
      try (injection H as <-; now left);
      (destruct (decide _); injection H as <-; [right; now left|]);
      right; right; eauto. }
  - exact Hout.
  - exact Hout.
  - simpl. apply Forall_app. split; [exact Hout|].
    apply Forall_singleton. now exists d.
Qed.

Lemma run_merge_lines_out (id_field : string) (content : lines)
  (st st' : merge_state) (e : option exn) :
  run (merge_body id_field) content st = (st', e) ->
  Forall written_chunk (out st) -> Forall written_chunk (out st').
Proof.
  revert st. induction content as [|line rest IH]; intros st; simpl.
  - now intros [= <- <-].
  - unfold merge_body at 1.
    destruct (merge_line id_field st line) as [s1|e1] eqn:Hstep; simpl.
    + intros Hrun Hout. apply (IH s1 Hrun).
      now apply (merge_line_out id_field st s1 line).
    + now intros [= <- <-].
Qed.

Lemma merge_file_out (fields : gmap string string) (st st' : merge_state)
  (file_path : string) (e : option exn) :
  merge_file fields st file_path = (st', e) ->
  Forall written_chunk (out st) -> Forall written_chunk (out st').
Proof.
  unfold merge_file. destruct (fields !! file_path) as [id_field|];
    [|now intros [= <- <-]].
  destruct (fs file_path) as [content|]; [|now intros [= <- <-]].
  destruct (run _ content (begin_file st)) as [s1 [e1|]] eqn:Hrun;
    intros [= <- <-] Hout;
    apply (run_merge_lines_out id_field content (begin_file st) s1 _ Hrun Hout).
Qed.

Lemma second_pass_out (fields : gmap string string) (file_paths : list string)
  (st st' : merge_state) (e : option exn) :
  run (merge_file fields) file_paths st = (st', e) ->
  Forall written_chunk (out st) -> Forall written_chunk (out st').
Proof.
  revert st. induction file_paths as [|p rest IH]; intros st; simpl.
  - now intros [= <- <-].
  - destruct (merge_file fields st p) as [s1 [e1|]] eqn:Hstep.
    + intros [= <- <-]. now apply (merge_file_out fields st s1 p _ Hstep).
    + intros Hrun Hout. apply (IH s1 Hrun).
      now apply (merge_file_out fields st s1 p _ Hstep).
Qed.

(** C10.  In the second pass of the merge a blank or whitespace-only line
    leaves the state as it is: nothing is written for it and the pass goes
    as if the line were not there.  Every chunk the merge writes is the
    text of an object followed by a newline, so (the text of a float having
    no newline in it) the lines of the output file are exactly those chunks
    and none of them is blank.  The single-file loop, in contrast, writes a
    newline for a blank line. *)
Theorem merge_output_has_no_blank_line :
  (forall (id_field line : string),
      is_empty (strip line) = true ->
      (forall st, merge_line id_field st line = Ok st)
      /\ candidate id_field line = None
      /\ (forall (before after : lines) (st : merge_state),
             run (merge_body id_field) (before ++ line :: after) st
             = run (merge_body id_field) (before ++ after) st))
  /\ (no_newline_repr ->
      forall (file_paths : list string) (unique : nat) (st : merge_state)
             (e : option exn),
        merge_jsonl_files file_paths = Ok (unique, (st, e)) ->
        text_lines (file_text (out st)) = out st
        /\ Forall (fun line => is_empty (strip line) = false) (out st))
  /\ (forall (c : config) (st : process_state) (line : string),
         is_empty (strip line) = true ->
         exists st', process_line c st line = Ok st'
                     /\ written st' = written st ++ [nl]).
Proof.
  split; [|split].
  - intros id_field line Hblank.
    assert (forall st, merge_line id_field st line = Ok st) as Hline.
    { intros st. now apply merge_line_blank. }
    split; [exact Hline|]. split.
    + unfold candidate, parse_line. now rewrite Hblank.
    + now apply run_merge_drop.
  - intros Hrepr file_paths unique st e Hm.
    assert (Forall written_chunk (out st)) as Hchunks.
    { unfold merge_jsonl_files in Hm.
      apply bind_Ok in Hm as (st1 & _ & Hm).
      apply bind_Ok in Hm as (n & _ & Hm). injection Hm as _ Hm.
      unfold second_pass in Hm.
      apply (second_pass_out (snd st1) file_paths merge_start st e Hm).
      constructor. }
    split.
    + now apply written_chunks_lines.
    + eapply Forall_impl; [exact Hchunks|]. apply written_chunk_not_blank.
  - intros c st line Hblank. unfold process_line. rewrite Hblank.
    eexists. split; reflexivity.
Qed.

(** ** The single-file loop *)

Lemma transform_object (c : config) (record : dict) :
  transform c (JObj record) = Ok (JObj (transform_record c record)).
Proof.
  unfold transform, transform_record. cbn [copy_dyn bind].
  destruct (keys_to_add_dict c) as [|a adds]; cbn [bind add_keys_dyn];
    destruct (keys_to_modify_dict c) as [|m ms]; cbn [bind modify_keys_dyn];
    destruct (chatml_config_dict c) as [|x xs]; reflexivity.
Qed.

(** One line of the loop, by its kind. *)
Lemma process_line_kind (c : config) (s : process_state) (line : string) :
  (forall r, parse_line line = Some r -> exists d, r = JObj d) ->
  exists s',
    process_line c s line = Ok s'
    /\ written s' = written s ++ emitted c line
    /\ records_processed s'
       = (records_processed s + if is_kept (kind_of c line) then 1 else 0)%nat
    /\ records_deleted s'
       = (records_deleted s + if is_deleted (kind_of c line) then 1 else 0)%nat
    /\ completed s' = S (completed s).
Proof.
  intros Hobj. unfold process_line, emitted, kind_of, parse_line in *.
  destruct (is_empty (strip line)).
  { eexists. split; [reflexivity|]. simpl. repeat split; lia. }
  destruct (json_loads (strip line)) as [r|].
  2:{ eexists. split; [reflexivity|]. simpl. repeat split; lia. }
  destruct (Hobj r eq_refl) as [d ->]. cbn [should_delete_dyn bind].
  destruct (should_delete_record d (delete_conditions_dict c)).
  { eexists. split; [reflexivity|]. simpl. rewrite app_nil_r.
    repeat split; lia. }
  rewrite transform_object. cbn [bind].
  eexists. split; [reflexivity|]. simpl. repeat split; lia.
Qed.

Lemma count_lines_cons (p : line_kind -> bool) (c : config) (line : string)
  (rest : lines) :
  count_lines p c (line :: rest)
  = ((if p (kind_of c line) then 1 else 0) + count_lines p c rest)%nat.
Proof.
  unfold count_lines. simpl. now destruct (p (kind_of c line)).
Qed.

Lemma objects_only_tail (line : string) (rest : lines) :
  objects_only (line :: rest) -> objects_only rest.
Proof. intros H l r Hl. apply H. now apply list_elem_of_further. Qed.

Lemma objects_only_head (line : string) (rest : lines) :
  objects_only (line :: rest) ->
  forall r, parse_line line = Some r -> exists d, r = JObj d.
Proof. intros H r. apply H. apply list_elem_of_here. Qed.

Lemma run_process_lines (c : config) (content : lines) (s : process_state) :
  objects_only content ->
  exists s',
    run (process_body c) content s = (s', None)
    /\ written s' = written s ++ flat_map (emitted c) content
    /\ records_processed s'
       = (records_processed s + count_lines is_kept c content)%nat
    /\ records_deleted s'
       = (records_deleted s + count_lines is_deleted c content)%nat
    /\ completed s' = (completed s + List.length content)%nat.
Proof.
  revert s. induction content as [|line rest IH]; intros s Hobj.
  - exists s. simpl. rewrite app_nil_r. unfold count_lines. simpl.
    repeat split; lia.
  - destruct (process_line_kind c s line (objects_only_head _ _ Hobj))
      as (s1 & Hstep & Hw1 & Hp1 & Hd1 & Hc1).
    destruct (IH s1 (objects_only_tail _ _ Hobj))
      as (s' & Hrun & Hw & Hp & Hd & Hc).
    exists s'. cbn [run]. unfold process_body at 1. rewrite Hstep. cbn [attempt].
    split; [exact Hrun|]. rewrite !count_lines_cons. cbn [flat_map].
    rewrite Hw, Hw1, Hp, Hp1, Hd, Hd1, Hc, Hc1, <- app_assoc. simpl.
    repeat split; lia.
Qed.

(** Under [objects_only] every line is of one of four kinds. *)
Lemma count_lines_total (c : config) (content : lines) :
  objects_only content ->
  (count_lines is_kept c content + count_lines is_deleted c content
   + count_lines is_blank c content + count_lines is_malformed c content)%nat
  = List.length content.
Proof.
  induction content as [|line rest IH]; intros Hobj; [reflexivity|].
  rewrite !count_lines_cons. specialize (IH (objects_only_tail _ _ Hobj)).
  pose proof (objects_only_head _ _ Hobj) as Hline.
  assert (kind_of c line <> NotObject) as Hk.
  { unfold kind_of, parse_line in *. destruct (is_empty (strip line)); [discriminate|].
    destruct (json_loads (strip line)) as [r|]; [|discriminate].
    destruct (Hline r eq_refl) as [d ->].
    destruct (should_delete_record d _); discriminate. }
  destruct (kind_of c line); simpl; try lia. contradiction.
Qed.

Lemma append_empty_r (s : string) : s +:+ EmptyString = s.
Proof.
  induction s as [|ch s IH]; [reflexivity|].
  change (String ch (s +:+ EmptyString) = String ch s). now rewrite IH.
Qed.

Lemma ends_with_newline_append (s : string) : ends_with_newline (s +:+ nl) = true.
Proof.
  induction s as [|ch s IH]; [reflexivity|].
  change (ends_with_newline (String ch (s +:+ nl)) = true).
  cbn [ends_with_newline]. destruct (s +:+ nl) eqn:E; [|exact IH].
  destruct s; discriminate.
Qed.

(** The validator passes a file only by reading all of its lines. *)
Lemma validator_reads_all (content : lines) :
  snd (validator_reads content) = true ->
  fst (validator_reads content) = List.length content.
Proof.
  induction content as [|line rest IH]; [reflexivity|].
  simpl. destruct (is_empty (strip line)); simpl.
  - intros H. now rewrite IH.
  - destruct (json_loads (strip line)); simpl; [|discriminate].
    intros H. now rewrite IH.
Qed.

(** C5.  For an input file whose records are objects the single-file loop
    ends normally and its final state has: the count of records processed
    (the lines kept), the count of records deleted, and the number of lines
    seen, which is the number of lines of the file and the total reported
    by [process]; a malformed line is written through as it is, followed by
    a newline when it does not end with one, and is in neither count:
    processed, deleted, blank and malformed lines add up to the lines
    seen. *)
Theorem process_reports_counts (c : config) (content : lines) :
  objects_only content ->
  exists st,
    process_lines c content = (st, None)
    /\ completed st = List.length content
    /\ records_processed st = count_lines is_kept c content
    /\ records_deleted st = count_lines is_deleted c content
    /\ (records_processed st + records_deleted st
        + count_lines is_blank c content
        + count_lines is_malformed c content)%nat = List.length content
    /\ written st = flat_map (emitted c) content
    /\ (forall line,
           kind_of c line = Malformed ->
           file_text (emitted c line)
           = (if ends_with_newline line then line else line +:+ nl)
           /\ ends_with_newline (file_text (emitted c line)) = true)
    /\ (forall (a : arguments) (input : string),
           merge a = None -> input_file a = Some input ->
           fs input = Some content -> cfg a = c ->
           snd (validator_reads content) = true ->
           no_operation c = false ->
           forallb valid_chatml_entry (chatml_config_dict c) = true ->
           preview a = false ->
           exists output,
             process a
             = ([(input, List.length content)],
                Ok (Processed output (List.length content) st None))).
Proof.
  intros Hobj.
  destruct (run_process_lines c content process_start Hobj)
    as (st & Hrun & Hw & Hp & Hd & Hc).
  exists st. simpl in Hw, Hp, Hd, Hc.
  split; [exact Hrun|]. split; [exact Hc|]. split; [exact Hp|].
  split; [exact Hd|]. split.
  { rewrite Hp, Hd. now apply count_lines_total. }
  split; [exact Hw|]. split.
  { intros line Hk. unfold emitted. rewrite Hk.
    destruct (ends_with_newline line) eqn:Hend; cbn [file_text fold_right].
    - rewrite append_empty_r. now rewrite Hend.
    - rewrite append_empty_r. split; [reflexivity|].
      apply ends_with_newline_append. }
  intros a input Hmerge Hin Hfs <- Hvalid Hop Hchat Hprev.
  unfold process. rewrite Hmerge. unfold process_single.
  rewrite Hin, Hfs, Hvalid, Hop, Hchat, Hprev. cbn [negb].
  rewrite (validator_reads_all content Hvalid).
  unfold process_lines in Hrun. unfold process_lines.
  change (run (fun s line => attempt s (process_line (cfg a) s line)))
    with (run (process_body (cfg a))).
  rewrite Hrun. cbn [fst snd]. eexists. reflexivity.
Qed.

(** ** The check of the reshape configuration *)

Lemma bad_reshape_entry_invalid (entry : string * chatml_spec) :
  bad_reshape_entry entry -> valid_chatml_entry entry = false.
Proof.
  intros (fields & Hs & Hlen). unfold valid_chatml_entry. rewrite Hs.
  destruct Hlen as [-> | ->]; reflexivity.
Qed.

Lemma forallb_false_elem {A : Type} (p : A -> bool) (l : list A) (x : A) :
  x ∈ l -> p x = false -> forallb p l = false.
Proof.
  intros Hin Hp. induction l as [|y l IH]; [inversion Hin|].
  simpl. apply elem_of_cons in Hin as [<-|Hin].
  - now rewrite Hp.
  - rewrite (IH Hin). apply andb_false_r.
Qed.

Lemma no_operation_chatml (c : config) (entry : string * chatml_spec) :
  entry ∈ chatml_config_dict c -> no_operation c = false.
Proof.
  intros Hin. unfold no_operation.
  destruct (chatml_config_dict c); [inversion Hin|].
  destruct (keys_to_add_dict c), (keys_to_modify_dict c),
    (delete_conditions_dict c); reflexivity.
Qed.

(** C6 (amended).  When no merge is asked for, a configuration with a
    reshape entry whose list of source fields has length 1 or 4 ends the
    run with exit status 1: no report of processed records exists, so no
    record is transformed and the output file is never opened, and the
    entry does not reach the per-record code of
    [convert_to_chatml_function] (which, called on its own, leaves the
    record as it is for such an entry).  The rejection comes after the
    validator has read the input file: all of its lines when they pass. *)
Theorem bad_reshape_rejected_after_validation (a : arguments)
  (entry : string * chatml_spec) :
  merge a = None \/ merge a = Some EmptyString ->
  entry ∈ chatml_config_dict (cfg a) ->
  bad_reshape_entry entry ->
  snd (process a) = Raise (Exit 1)
  /\ (forall input content,
         input_file a = Some input -> fs input = Some content ->
         snd (validator_reads content) = true ->
         lines_validated (process a) = List.length content)
  /\ (forall record result, chatml_step record result entry = result).
Proof.
  intros Hmerge Hin Hbad.
  pose proof (bad_reshape_entry_invalid entry Hbad) as Hinv.
  assert (process a = process_single a) as ->.
  { unfold process. destruct Hmerge as [-> | ->]; reflexivity. }
  assert (forallb valid_chatml_entry (chatml_config_dict (cfg a)) = false) as Hf.
  { now apply (forallb_false_elem _ _ entry). }
  pose proof (no_operation_chatml (cfg a) entry Hin) as Hop.
  split; [|split].
  - unfold process_single. destruct (input_file a) as [input|]; [|reflexivity].
    destruct (fs input) as [content|]; [|reflexivity]. cbn [snd].
    rewrite Hop, Hf. now destruct (snd (validator_reads content)).
  - intros input content Hinput Hfs Hvalid. unfold process_single, lines_validated.
    rewrite Hinput, Hfs. cbn [fst map list_sum snd fold_right].
    rewrite (validator_reads_all content Hvalid). lia.
  - intros record result. unfold chatml_step.
    destruct Hbad as (fields & -> & [Hlen | Hlen]);
      destruct fields as [|f1 [|f2 [|f3 [|f4 [|f5 rest]]]]]; try discriminate;
      reflexivity.
Qed.

(** ** [validate_jsonl_file] *)

(** A line the validator passes: it is blank or it parses. *)
Lemma validator_reads_true (content : lines) :
  snd (validator_reads content) = true <->
  forall line, line ∈ content ->
               is_empty (strip line) = true
               \/ exists r, json_loads (strip line) = Some r.
Proof.
  induction content as [|line rest IH].
  - split; [|reflexivity]. intros _ l Hl. inversion Hl.
  - cbn [validator_reads]. destruct (is_empty (strip line)) eqn:He.
    + cbn [snd]. rewrite IH. split.
      * intros H l Hl. apply elem_of_cons in Hl as [->|Hl]; [now left | auto].
      * intros H l Hl. apply H. now apply list_elem_of_further.
    + destruct (json_loads (strip line)) as [r|] eqn:Hr.
      * cbn [snd]. rewrite IH. split.
        -- intros H l Hl. apply elem_of_cons in Hl as [->|Hl]; [|auto].
           right. rewrite Hr. eauto.
        -- intros H l Hl. apply H. now apply list_elem_of_further.
      * cbn [snd]. split; [discriminate|]. intros H.
        destruct (H line (list_elem_of_here _ _)) as [E | [r E]]; congruence.
Qed.

(** X11.  [validate_jsonl_file] answers [True] exactly for a file that can
    be read and each of whose lines is blank or holds a JSON value; a file
    with no line at all passes. *)
Theorem validate_jsonl_file_iff (file_path : string) :
  validate_jsonl_file file_path = true <->
  exists content,
    fs file_path = Some content
    /\ forall line, line ∈ content ->
                    is_empty (strip line) = true
                    \/ exists r, json_loads (strip line) = Some r.
Proof.
  unfold validate_jsonl_file. destruct (fs file_path) as [content|].
  - rewrite validator_reads_true. split.
    + intros H. exists content. auto.
    + intros (content' & [= <-] & H). exact H.
  - split; [discriminate|]. intros (content & H & _). discriminate.
Qed.

(** X12.  The validator stops at the first line that is not blank and does
    not parse: the lines before it pass, the number of lines read is the
    number of that line, and no line after it is read. *)
Theorem validator_stops_at_first_bad_line (content : lines) :
  snd (validator_reads content) = false ->
  exists pre line post,
    content = pre ++ line :: post
    /\ fst (validator_reads content) = S (List.length pre)
    /\ (forall l, l ∈ pre ->
                  is_empty (strip l) = true
                  \/ exists r, json_loads (strip l) = Some r)
    /\ is_empty (strip line) = false
    /\ json_loads (strip line) = None.
Proof.
  induction content as [|line rest IH]; [discriminate|].
  cbn [validator_reads]. destruct (is_empty (strip line)) eqn:He.
  - cbn [snd fst]. intros H.
    destruct (IH H) as (pre & bad & post & -> & Hn & Hpre & Hbad).
    exists (line :: pre), bad, post. split; [reflexivity|].
    split; [simpl; now rewrite Hn|]. split; [|exact Hbad].
    intros l Hl. apply elem_of_cons in Hl as [->|Hl]; [now left | auto].
  - destruct (json_loads (strip line)) as [r|] eqn:Hr.
    + cbn [snd fst]. intros H.
      destruct (IH H) as (pre & bad & post & -> & Hn & Hpre & Hbad).
      exists (line :: pre), bad, post. split; [reflexivity|].
      split; [simpl; now rewrite Hn|]. split; [|exact Hbad].
      intros l Hl. apply elem_of_cons in Hl as [->|Hl]; [|auto].
      right. rewrite Hr. eauto.
    + intros _. exists [], line, rest. split; [reflexivity|].
      split; [reflexivity|]. split; [|auto].
      intros l Hl. inversion Hl.
Qed.

(** ** What [process] runs on *)

Lemma validate_all_true (file_paths : list string) :
  snd (validate_all file_paths) = true ->
  forall p, p ∈ file_paths -> validate_jsonl_file p = true.
Proof.
  induction file_paths as [|fpath rest IH]; intros H p Hp; [inversion Hp|].
  cbn [validate_all] in H. unfold validate_jsonl_file.
  destruct (fs fpath) as [content|] eqn:Hfs; [|discriminate].
  destruct (snd (validator_reads content)) eqn:Hv; [|discriminate].
  cbn [snd] in H. apply elem_of_cons in Hp as [->|Hp].
  - now rewrite Hfs.
  - now apply IH.
Qed.

Lemma kind_of_malformed (c : config) (line : string) :
  kind_of c line = Malformed ->
  is_empty (strip line) = false /\ json_loads (strip line) = None.
Proof.
  unfold kind_of. destruct (is_empty (strip line)); [discriminate|].
  destruct (json_loads (strip line)) as [r|]; [|auto].
  destruct r; try discriminate.
  now destruct (should_delete_record d (delete_conditions_dict c)).
Qed.

(** X20.  [process] transforms or merges validated input only.  A run that
    gets to the loop over the input file has an input file each of whose
    lines is blank or parses, so no line is written through as malformed;
    a run that gets to the merge has passed every file through the
    validator. *)
Theorem process_runs_on_validated_input (a : arguments) :
  (forall output total_lines st raised,
      snd (process a) = Ok (Processed output total_lines st raised) ->
      exists input content,
        input_file a = Some input /\ fs input = Some content
        /\ total_lines = List.length content
        /\ forall line, line ∈ content -> kind_of (cfg a) line <> Malformed)
  /\ (forall output unique st raised,
         snd (process a) = Ok (Merged output unique st raised) ->
         exists selector file_paths,
           merge a = Some selector
           /\ merge_file_paths selector = Ok file_paths
           /\ forall p, p ∈ file_paths -> validate_jsonl_file p = true).
Proof.
  assert (forall output unique st raised,
             snd (process_single a) <> Ok (Merged output unique st raised))
    as Hsingle.
  { intros output unique st raised. unfold process_single.
    destruct (input_file a) as [input|]; [|discriminate].
    destruct (fs input) as [content|]; [|discriminate]. cbn [snd].
    destruct (negb (snd (validator_reads content))); [discriminate|].
    destruct (no_operation (cfg a)); [discriminate|].
    destruct (negb (forallb valid_chatml_entry _)); [discriminate|].
    destruct (preview a); [|discriminate].
    destruct (preview_lines (cfg a) content); discriminate. }
  assert (forall selector output total_lines st raised,
             snd (process_merge a selector)
             <> Ok (Processed output total_lines st raised)) as Hmerge.
  { intros selector output total_lines st raised. unfold process_merge.
    destruct (merge_file_paths selector) as [ps|e]; [|discriminate]. cbn [snd].
    destruct (snd (validate_all ps)); [|discriminate].
    destruct (merge_jsonl_files ps); discriminate. }
  split.
  - intros output total_lines st raised H.
    assert (snd (process_single a)
            = Ok (Processed output total_lines st raised)) as Hs.
    { unfold process in H. destruct (merge a) as [selector|]; [|exact H].
      destruct (is_empty selector); [exact H|]. now apply Hmerge in H. }
    clear H. unfold process_single in Hs.
    destruct (input_file a) as [input|]; [|discriminate].
    destruct (fs input) as [content|] eqn:Hfs; [|discriminate].
    cbn [snd] in Hs.
    destruct (snd (validator_reads content)) eqn:Hv; [|discriminate].
    cbn [negb] in Hs.
    destruct (no_operation (cfg a)); [discriminate|].
    destruct (negb (forallb valid_chatml_entry _)); [discriminate|].
    destruct (preview a).
    { destruct (preview_lines (cfg a) content); discriminate. }
    injection Hs as _ <- _ _.
    exists input, content. split; [reflexivity|]. split; [exact Hfs|].
    split; [reflexivity|]. intros line Hin Hk. apply kind_of_malformed in Hk as [He Hl].
    destruct (proj1 (validator_reads_true content) Hv line Hin) as [E | [r E]];
      congruence.
  - intros output unique st raised H. unfold process in H.
    destruct (merge a) as [selector|]; [|now apply Hsingle in H].
    destruct (is_empty selector); [now apply Hsingle in H|].
    exists selector. unfold process_merge in H.
    destruct (merge_file_paths selector) as [ps|e]; [|discriminate].
    cbn [snd] in H. exists ps. split; [reflexivity|]. split; [reflexivity|].
    destruct (snd (validate_all ps)) eqn:Hv; [|discriminate].
    now apply validate_all_true.
Qed.

(** ** The identities [collect_ids_from_file] returns *)

(** The identity string a line adds, if any. *)
Lemma identities_candidates_cons (f : string) (line : string) (rest : lines) :
  identities (file_candidates f (line :: rest))
  = match candidate f line with
    | Some x => {[ fst x ]} ∪ identities (file_candidates f rest)
    | None => identities (file_candidates f rest)
    end.
Proof.
  unfold file_candidates. cbn [omap list_omap].
  now destruct (candidate f line).
Qed.

(** One line once the field is fixed. *)
Lemma collect_line_ids (file_path : string) (ids0 : gset string) (f : string)
  (line : string) (st1 : collect_state) :
  collect_line file_path (ids0, Some f) line = Ok st1 ->
  st1 = (match candidate f line with
         | Some x => {[ fst x ]} ∪ ids0
         | None => ids0
         end, Some f).
Proof.
  unfold collect_line, candidate, parse_line.
  destruct (is_empty (strip line)); [now intros [= <-]|].
  destruct (json_loads (strip line)) as [r|]; [|now intros [= <-]].
  destruct r; simpl; try discriminate.
  destruct (py_get d f); intros [= <-]; reflexivity.
Qed.

Lemma foldM_collect_ids_fixed (file_path : string) (content : lines)
  (ids0 ids : gset string) (f : string) (fo : option string) :
  foldM (collect_line file_path) content (ids0, Some f) = Ok (ids, fo) ->
  fo = Some f /\ ids = identities (file_candidates f content) ∪ ids0.
Proof.
  revert ids0. induction content as [|line rest IH]; intros ids0 H.
  - injection H as <- <-. split; [reflexivity|].
    unfold identities. simpl. set_solver.
  - cbn [foldM] in H. apply bind_Ok in H as (st1 & Hstep & Hrest).
    apply collect_line_ids in Hstep. subst st1.
    apply IH in Hrest as [-> ->]. split; [reflexivity|].
    rewrite identities_candidates_cons.
    destruct (candidate f line); set_solver.
Qed.

Lemma foldM_collect_ids_first (file_path : string) (content : lines)
  (ids0 ids : gset string) (f : string) :
  foldM (collect_line file_path) content (ids0, None) = Ok (ids, Some f) ->
  ids = identities (file_candidates f content) ∪ ids0.
Proof.
  revert ids0. induction content as [|line rest IH]; intros ids0 H;
    [discriminate|].
  cbn [foldM] in H. apply bind_Ok in H as (st1 & Hstep & Hrest).
  destruct (parse_line line) as [r|] eqn:Hparse.
  - rewrite (collect_line_first file_path ids0 line r Hparse) in Hstep.
    destruct (get_id_field_name r) as [[f1|]|e]; try discriminate.
    destruct (get_dyn r f1) as [v|e] eqn:Hget; [|discriminate].
    destruct (get_dyn_Ok r f1 v Hget) as [d ->]. simpl in Hget.
    injection Hget as <-.
    assert (st1 = (match candidate f1 line with
                   | Some x => {[ fst x ]} ∪ ids0
                   | None => ids0
                   end, Some f1)) as ->.
    { unfold candidate. rewrite Hparse.
      destruct (py_get d f1); injection Hstep as <-; reflexivity. }
    apply foldM_collect_ids_fixed in Hrest as [[= ->] ->].
    rewrite identities_candidates_cons.
    destruct (candidate f1 line); set_solver.
  - rewrite (collect_line_skip file_path _ line Hparse) in Hstep.
    injection Hstep as <-. apply IH in Hrest as ->.
    rewrite identities_candidates_cons. unfold candidate. now rewrite Hparse.
Qed.

(** What [collect_ids_from_file] returns for a file. *)
Lemma collect_ids_identities (file_path : string) (content : lines)
  (ids : gset string) (f : string) :
  fs file_path = Some content ->
  collect_ids_from_file file_path = Ok (ids, f) ->
  ids = identities (file_candidates f content).
Proof.
  intros Hfs H. unfold collect_ids_from_file, open_read in H.
  rewrite Hfs in H. cbn [bind] in H.
  apply bind_Ok in H as ([ids' fo] & Hfold & Hret). cbn [snd fst] in Hret.
  destruct fo as [f'|]; [|discriminate]. injection Hret as -> ->.
  apply foldM_collect_ids_first in Hfold. rewrite Hfold. set_solver.
Qed.

(** The identity strings of the candidates of a file. *)
Lemma elem_identities_candidates (f : string) (content : lines) (s : string) :
  s ∈ identities (file_candidates f content) <->
  exists line d,
    line ∈ content /\ parse_line line = Some (JObj d)
    /\ py_get d f <> JNull /\ s = py_str (py_get d f).
Proof.
  unfold identities, file_candidates.
  rewrite elem_of_list_to_set, list_elem_of_fmap. split.
  - intros ([s' r] & -> & Hin). apply list_elem_of_omap in Hin as (line & Hl & Hc).
    unfold candidate in Hc. destruct (parse_line line) as [v|] eqn:Hp;
      [|discriminate].
    destruct v; try discriminate.
    exists line, d. split; [exact Hl|]. split; [exact Hp|].
    destruct (py_get d f); try discriminate; injection Hc as <- _;
      split; try discriminate; reflexivity.
  - intros (line & d & Hl & Hp & Hne & ->).
    exists (py_str (py_get d f), JObj d). split; [reflexivity|].
    apply list_elem_of_omap. exists line. split; [exact Hl|].
    unfold candidate. rewrite Hp. destruct (py_get d f); try reflexivity.
    contradiction.
Qed.

(** X13.  The set [collect_ids_from_file] returns holds exactly the
    strings [str(record.get(id_field))] of the records of the file whose
    value under the identity field is not [None]; the field is the one
    fixed by the first record, also for records that have another of the
    three names. *)
Theorem collect_ids_are_the_identities (file_path : string) (content : lines)
  (ids : gset string) (f : string) :
  fs file_path = Some content ->
  collect_ids_from_file file_path = Ok (ids, f) ->
  forall s,
    s ∈ ids <->
    exists line d,
      line ∈ content /\ parse_line line = Some (JObj d)
      /\ py_get d f <> JNull /\ s = py_str (py_get d f).
Proof.
  intros Hfs H s. rewrite (collect_ids_identities file_path content ids f Hfs H).
  apply elem_identities_candidates.
Qed.

(** ** More on [merge_jsonl_files] *)

Lemma foldM_app {A S : Type} (body : S -> A -> result S) (l1 l2 : list A)
  (s : S) :
  foldM body (l1 ++ l2) s = let* s1 := foldM body l1 s in foldM body l2 s1.
Proof.
  revert s. induction l1 as [|x l1 IH]; intros s; simpl; [reflexivity|].
  destruct (body s x) as [s'|e]; simpl; [apply IH | reflexivity].
Qed.

(** X14.  The first pass is all or nothing: when [collect_ids_from_file]
    raises its [ValueError] for one of the files (no record, or no identity
    field in the first record), the files before it having passed, the
    merge ends with exit status 1 before the output file is opened,
    whatever the files after it hold. *)
Theorem merge_aborts_without_identity_field (ps1 ps2 : list string)
  (p msg : string) :
  collected ps1 ->
  collect_ids_from_file p = Raise (ValueError msg) ->
  merge_jsonl_files (ps1 ++ p :: ps2) = Raise (Exit 1).
Proof.
  intros Hall Hp. unfold merge_jsonl_files, first_pass.
  rewrite foldM_app.
  destruct (first_pass_fields ps1 (∅, ∅) Hall) as (st & -> & _).
  cbn [bind foldM]. unfold collect_file at 1. rewrite Hp. reflexivity.
Qed.

(** The first pass gets through the files that can be collected only. *)
Lemma first_pass_collected (file_paths : list string) (st0 st : pass1_state) :
  foldM collect_file file_paths st0 = Ok st -> collected file_paths.
Proof.
  revert st0. induction file_paths as [|p rest IH]; intros st0 H q Hq;
    [inversion Hq|].
  cbn [foldM] in H. apply bind_Ok in H as (st1 & Hstep & Hrest).
  apply elem_of_cons in Hq as [->|Hq]; [|now apply (IH st1 Hrest)].
  unfold collect_file in Hstep.
  destruct (collect_ids_from_file p) as [r|e]; [eauto|].
  destruct e; discriminate.
Qed.

(** The sets of identity strings the first pass records. *)
Lemma first_pass_ids (file_paths : list string) (st0 st : pass1_state) :
  foldM collect_file file_paths st0 = Ok st ->
  forall p,
    fst st !! p = if decide (p ∈ file_paths)
                  then Some (identities (candidates_of p))
                  else fst st0 !! p.
Proof.
  revert st0. induction file_paths as [|p0 rest IH]; intros st0 H p.
  - injection H as <-. destruct (decide (p ∈ [])) as [Hin|_]; [inversion Hin|].
    reflexivity.
  - cbn [foldM] in H. apply bind_Ok in H as (st1 & Hstep & Hrest).
    rewrite (IH st1 Hrest p). unfold collect_file in Hstep.
    destruct (collect_ids_from_file p0) as [[ids f]|e] eqn:Hc;
      [|destruct e; discriminate].
    injection Hstep as <-. cbn [fst].
    destruct (collect_ids_objects p0 _ Hc) as (content & Hfs & _).
    pose proof (collect_ids_identities p0 content ids f Hfs Hc) as Hids.
    pose proof (candidates_of_collected p0 _ content Hc Hfs) as Hcand.
    cbn [snd] in Hcand.
    destruct (decide (p ∈ rest)) as [Hr|Hr].
    + rewrite decide_True by (now apply list_elem_of_further). reflexivity.
    + destruct (decide (p = p0)) as [->|Hne].
      * rewrite decide_True by apply list_elem_of_here.
        rewrite lookup_insert_eq. now rewrite Hcand, Hids.
      * rewrite decide_False.
        -- now rewrite lookup_insert_ne by congruence.
        -- intros Hin. apply elem_of_cons in Hin as [?|?]; contradiction.
Qed.

Lemma elem_identities_all (file_paths : list string) (x : string) :
  x ∈ identities (all_candidates file_paths) <->
  exists p, p ∈ file_paths /\ x ∈ identities (candidates_of p).
Proof.
  unfold all_candidates. induction file_paths as [|p rest IH].
  - unfold identities. simpl. split; [set_solver|].
    intros (p & Hp & _). inversion Hp.
  - cbn [flat_map]. unfold identities at 1.
    rewrite map_app, list_to_set_app_L, elem_of_union.
    fold (identities (candidates_of p)).
    fold (identities (flat_map candidates_of rest)). rewrite IH. split.
    + intros [H | (q & Hq & H)].
      * exists p. split; [apply list_elem_of_here | exact H].
      * exists q. split; [now apply list_elem_of_further | exact H].
    + intros (q & Hq & H). apply elem_of_cons in Hq as [->|Hq];
        [now left | right; eauto].
Qed.

(** The union of the sets of the first pass. *)
Lemma first_pass_union (file_paths : list string) (st : pass1_state) :
  foldM collect_file file_paths (∅, ∅) = Ok st ->
  ⋃ (snd <$> map_to_list (fst st)) = identities (all_candidates file_paths).
Proof.
  intros H. pose proof (first_pass_ids file_paths (∅, ∅) st H) as Hids.
  apply set_eq. intros x.
  rewrite elem_of_union_list, elem_identities_all. split.
  - intros (X & HX & Hx). apply list_elem_of_fmap in HX as ([p s] & -> & Hps).
    apply elem_of_map_to_list in Hps. rewrite Hids in Hps.
    destruct (decide (p ∈ file_paths)) as [Hp|_].
    + injection Hps as <-. eauto.
    + cbn [fst] in Hps. rewrite lookup_empty in Hps. discriminate.
  - intros (p & Hp & Hx). exists (identities (candidates_of p)).
    split; [|exact Hx]. apply list_elem_of_fmap.
    exists (p, identities (candidates_of p)). split; [reflexivity|].
    apply elem_of_map_to_list. rewrite Hids. now rewrite decide_True.
Qed.

(** There are as many first-seen items as identity strings. *)
Lemma size_identities (l : list (string * json)) :
  size (identities l) = List.length (first_seen l).
Proof.
  assert (identities l = identities (first_seen l)) as ->.
  { apply set_eq. intros k. unfold identities.
    rewrite !elem_of_list_to_set, !list_elem_of_fmap. split.
    - intros ([k' r] & -> & Hin). simpl.
      destruct (dict_get l k') as [r'|] eqn:E.
      + exists (k', r'). split; [reflexivity|]. now apply first_seen_first.
      + apply dict_get_None in E. exfalso. apply E.
        apply list_elem_of_fmap. now exists (k', r).
    - intros (x & -> & Hin). exists x. split; [reflexivity|].
      now apply (sublist_subseteq _ _ (first_seen_sublist l)). }
  unfold identities. rewrite size_list_to_set by apply first_seen_NoDup.
  apply length_map.
Qed.

(** The merge of files that can be collected, with the count it announces. *)
Lemma merge_jsonl_files_counts (file_paths : list string) :
  file_paths <> [] -> collected file_paths ->
  exists st,
    merge_jsonl_files file_paths
    = Ok (List.length (first_seen (all_candidates file_paths)), (st, None))
    /\ out st = map output_line (first_seen (all_candidates file_paths))
    /\ total_written st = List.length (first_seen (all_candidates file_paths))
    /\ (total_skipped st
        + List.length (first_seen (all_candidates file_paths)))%nat
       = List.length (all_candidates file_paths).
Proof.
  intros Hne Hall.
  destruct (merge_jsonl_files_first_seen file_paths Hne Hall)
    as (unique & st & Hm & Hrest).
  exists st. split; [|exact Hrest]. rewrite Hm. do 2 f_equal.
  unfold merge_jsonl_files in Hm.
  apply bind_Ok in Hm as (st1 & Hpass & Hm).
  apply bind_Ok in Hm as (n & Hn & Hm). injection Hm as <- _.
  unfold total_unique_ids in Hn.
  pose proof (first_pass_union file_paths st1 Hpass) as Hu.
  destruct (snd <$> map_to_list (fst st1)) as [|X Xs]; [discriminate|].
  injection Hn as <-. rewrite <- size_identities, <- Hu. reflexivity.
Qed.


Lemma survivors_all_seen (seen : gset string) (l : list (string * json)) :
  (forall x, x ∈ l -> fst x ∈ seen) -> survivors seen l = [].
Proof.
  induction l as [|x l IH]; intros H; [reflexivity|].
  rewrite survivors_cons_seen by (apply H, list_elem_of_here).
  apply IH. intros y Hy. now apply H, list_elem_of_further.
Qed.

(** X16.  Files that bring no new identity add nothing: merging them after
    the others gives the same output, the same number of unique and of
    written records, and counts each of their records as a skipped
    duplicate.  So a file named twice is merged once. *)
Theorem merge_absorbs_known_identities (ps1 ps2 : list string) :
  ps1 <> [] -> collected (ps1 ++ ps2) ->
  identities (all_candidates ps2) ⊆ identities (all_candidates ps1) ->
  exists unique st1 st2,
    merge_jsonl_files ps1 = Ok (unique, (st1, None))
    /\ merge_jsonl_files (ps1 ++ ps2) = Ok (unique, (st2, None))
    /\ out st2 = out st1
    /\ total_written st2 = total_written st1
    /\ total_skipped st2
       = (total_skipped st1 + List.length (all_candidates ps2))%nat.
Proof.
  intros Hne Hall Hsub.
  assert (collected ps1) as Hall1.
  { intros p Hp. apply Hall. apply elem_of_app. now left. }
  assert (ps1 ++ ps2 <> []) as Hne2.
  { destruct ps1; [contradiction | discriminate]. }
  assert (first_seen (all_candidates (ps1 ++ ps2))
          = first_seen (all_candidates ps1)) as Hsame.
  { unfold all_candidates. rewrite flat_map_app.
    rewrite <- !survivors_empty, survivors_app.
    rewrite (survivors_all_seen _ (flat_map candidates_of ps2)).
    - apply app_nil_r.
    - intros x Hx. apply elem_of_union. left. apply Hsub.
      unfold identities. apply elem_of_list_to_set, list_elem_of_fmap.
      now exists x. }
  destruct (merge_jsonl_files_counts ps1 Hne Hall1)
    as (st1 & Hm1 & Hout1 & Hw1 & Hs1).
  destruct (merge_jsonl_files_counts (ps1 ++ ps2) Hne2 Hall)
    as (st2 & Hm2 & Hout2 & Hw2 & Hs2).
  rewrite Hsame in Hm2, Hout2, Hw2, Hs2.
  exists (List.length (first_seen (all_candidates ps1))), st1, st2.
  split; [exact Hm1|]. split; [exact Hm2|].
  split; [now rewrite Hout1, Hout2|]. split; [now rewrite Hw1, Hw2|].
  assert (List.length (all_candidates (ps1 ++ ps2))
          = (List.length (all_candidates ps1)
             + List.length (all_candidates ps2))%nat) as Hlen.
  { unfold all_candidates. now rewrite flat_map_app, length_app. }
  lia.
Qed.

(** One line of the second pass moves a total and the count of the file
    together, and prints no line of the report. *)
Lemma merge_line_counts (id_field : string) (st st' : merge_state)
  (line : string) :
  merge_line id_field st line = Ok st' ->
  reports st' = reports st
  /\ (total_written st' + written_from_file st
      = total_written st + written_from_file st')%nat
  /\ (total_skipped st' + skipped_from_file st
      = total_skipped st + skipped_from_file st')%nat.
Proof.
  unfold merge_line. destruct (is_empty (strip line));
    [intros [= <-]; repeat split; lia|].
  destruct (json_loads (strip line)) as [r|];
    [|intros [= <-]; repeat split; lia].
  destruct (get_dyn r id_field) as [v|e]; [|discriminate]. cbn [bind].
  destruct v; try (intros [= <-]; repeat split; lia);
    destruct (decide _); intros [= <-]; simpl; repeat split; lia.
Qed.

Lemma run_merge_counts (id_field : string) (content : lines)
  (st st' : merge_state) (raised : option exn) :
  run (merge_body id_field) content st = (st', raised) ->
  reports st' = reports st
  /\ (total_written st' + written_from_file st
      = total_written st + written_from_file st')%nat
  /\ (total_skipped st' + skipped_from_file st
      = total_skipped st + skipped_from_file st')%nat.
Proof.
  revert st. induction content as [|line rest IH]; intros st H.
  - injection H as <- _. repeat split; lia.
  - cbn [run] in H. unfold merge_body at 1 in H.
    destruct (merge_line id_field st line) as [st1|e] eqn:Hline; cbn [attempt] in H.
    + apply merge_line_counts in Hline as (Hr1 & Hw1 & Hs1).
      apply IH in H as (Hr & Hw & Hs).
      split; [congruence|]. split; lia.
    + injection H as <- _. repeat split; lia.
Qed.

(** One file of the second pass that ends without an exception: its line
    of the report is printed, and the totals have grown by its counts. *)
Lemma merge_file_counts (fields : gmap string string) (st st' : merge_state)
  (file_path : string) :
  merge_file fields st file_path = (st', None) ->
  exists r,
    reports st' = reports st ++ [r]
    /\ report_file r = file_path
    /\ total_written st' = (total_written st + report_written r)%nat
    /\ total_skipped st' = (total_skipped st + report_skipped r)%nat.
Proof.
  unfold merge_file. destruct (fields !! file_path) as [id_field|];
    [|discriminate].
  destruct (fs file_path) as [content|]; [|discriminate].
  fold (merge_body id_field).
  destruct (run (merge_body id_field) content (begin_file st))
    as [st1 [e|]] eqn:Hrun; [discriminate|].
  intros [= <-]. apply run_merge_counts in Hrun as (Hr & Hw & Hs).
  exists (file_path, written_from_file st1, skipped_from_file st1).
  unfold report_file, report_written, report_skipped. simpl in *.
  rewrite Hr. repeat split; try reflexivity; lia.
Qed.

Lemma run_merge_files_counts (fields : gmap string string)
  (file_paths : list string) (st st' : merge_state) :
  run (merge_file fields) file_paths st = (st', None) ->
  exists rs,
    reports st' = reports st ++ rs
    /\ map report_file rs = file_paths
    /\ total_written st'
       = (total_written st + list_sum (map report_written rs))%nat
    /\ total_skipped st'
       = (total_skipped st + list_sum (map report_skipped rs))%nat.
Proof.
  revert st. induction file_paths as [|p rest IH]; intros st H.
  - injection H as <-. exists []. rewrite app_nil_r. simpl.
    repeat split; lia.
  - cbn [run] in H.
    destruct (merge_file fields st p) as [st1 [e|]] eqn:Hfile; [discriminate|].
    apply merge_file_counts in Hfile as (r & Hr1 & Hf1 & Hw1 & Hs1).
    apply IH in H as (rs & Hr & Hf & Hw & Hs).
    exists (r :: rs). rewrite Hr, Hr1, <- app_assoc. simpl.
    rewrite Hf1, Hf. repeat split; lia.
Qed.

(** X17.  When the merge ends without an exception there is one line of
    the per-file report for each file, in the order of the files, and the
    two totals of the final panel are the sums of the per-file counts of
    written and of skipped records. *)
Theorem merge_totals_are_sums_of_reports (file_paths : list string)
  (unique : nat) (st : merge_state) :
  merge_jsonl_files file_paths = Ok (unique, (st, None)) ->
  map report_file (reports st) = file_paths
  /\ total_written st = list_sum (map report_written (reports st))
  /\ total_skipped st = list_sum (map report_skipped (reports st)).
Proof.
  intros H. unfold merge_jsonl_files in H.
  apply bind_Ok in H as (st1 & _ & H).
  apply bind_Ok in H as (n & _ & H). injection H as _ H.
  unfold second_pass in H.
  apply run_merge_files_counts in H as (rs & Hr & Hf & Hw & Hs).
  simpl in Hr, Hw, Hs. rewrite Hr. auto.
Qed.

(** X26.  [merge_jsonl_files] gets to its second pass, and so to opening
    the output file, only when every line of every file that holds a JSON
    value holds an object: a line with a list, a number, a string, a
    boolean or [null] makes the first pass raise. *)
Theorem merge_reads_objects_only (file_paths : list string)
  (r : nat * (merge_state * option exn)) :
  merge_jsonl_files file_paths = Ok r ->
  forall p, p ∈ file_paths ->
            exists content, fs p = Some content /\ objects_only content.
Proof.
  intros H p Hp. unfold merge_jsonl_files in H.
  apply bind_Ok in H as (st1 & Hpass & _).
  pose proof (first_pass_collected file_paths (∅, ∅) st1 Hpass) as Hall.
  destruct (Hall p Hp) as [ids Hids].
  exact (collect_ids_objects p ids Hids).
Qed.

(** ** The files [process] merges *)

Lemma foldM_check_names (names acc : list string) :
  match foldM check_merge_name names acc with
  | Ok file_paths =>
      file_paths = acc ++ names
      /\ forall p, p ∈ names -> is_Some (fs p) /\ ends_with ".jsonl" p = true
  | Raise e => e = Exit 1
  end.
Proof.
  revert acc. induction names as [|fname names IH]; intros acc.
  - simpl. rewrite app_nil_r. split; [reflexivity|]. intros p Hp. inversion Hp.
  - cbn [foldM]. unfold check_merge_name at 1.
    destruct (fs fname) as [content|] eqn:Hfs; [|reflexivity].
    destruct (ends_with ".jsonl" fname) eqn:Hend; [|reflexivity].
    cbn [bind]. specialize (IH (acc ++ [fname])).
    destruct (foldM check_merge_name names (acc ++ [fname])) as [ps|e];
      [|exact IH].
    destruct IH as [-> Hall]. split; [now rewrite <- app_assoc|].
    intros p Hp. apply elem_of_cons in Hp as [->|Hp]; [|now apply Hall].
    rewrite Hfs. split; [eauto | exact Hend].
Qed.

(** X18.  A selection that does not give at least two files ends the run
    with exit status 1, and so does a named file that does not exist or
    does not end in [.jsonl].  Otherwise the files to merge are, for the
    selector [all] in any mix of upper and lower case, the [*.jsonl] files
    of the current directory whose stem does not end in [_merge], and
    else the names between the commas, without the white space around
    them, in the order given. *)
Theorem merge_selection (selector : string) :
  (forall e, merge_file_paths selector = Raise e -> e = Exit 1)
  /\ (forall file_paths,
         merge_file_paths selector = Ok file_paths ->
         (2 <= List.length file_paths)%nat
         /\ (lower selector = "all" ->
             file_paths
             = List.filter (fun f => negb (ends_with "_merge" (path_stem f)))
                           cwd_jsonl)
         /\ (lower selector <> "all" ->
             file_paths = map strip (split_on ","%char selector)
             /\ forall p, p ∈ file_paths ->
                          is_Some (fs p) /\ ends_with ".jsonl" p = true)).
Proof.
  unfold merge_file_paths.
  destruct (String.eqb_spec (lower selector) "all") as [Hall|Hnamed].
  - set (jsonl_files := List.filter _ cwd_jsonl).
    destruct (Nat.ltb_spec (List.length jsonl_files) 2) as [Hlt|Hge].
    + split; [now intros e [= <-] | discriminate].
    + split; [discriminate|]. intros ps [= <-].
      split; [exact Hge|]. split; [reflexivity | contradiction].
  - pose proof (foldM_check_names (map strip (split_on ","%char selector)) [])
      as Hnames.
    destruct (foldM check_merge_name _ []) as [ps|e]; cbn [bind].
    + destruct Hnames as [-> Hfiles]. rewrite app_nil_l.
      destruct (Nat.ltb_spec
                  (List.length (map strip (split_on ","%char selector))) 2)
        as [Hlt|Hge].
      * split; [now intros e [= <-] | discriminate].
      * split; [discriminate|]. intros ps [= <-].
        split; [exact Hge|]. split; [contradiction | auto].
    + split; [intros e' [= <-]; exact Hnames | discriminate].
Qed.

Lemma ends_with_refl (s : string) : ends_with s s = true.
Proof. destruct s; [reflexivity|]. cbn [ends_with]. now rewrite String.eqb_refl. Qed.

Lemma ends_with_append (suffix s : string) :
  ends_with suffix (s +:+ suffix) = true.
Proof.
  induction s as [|c s IH]; [apply ends_with_refl|].
  change (ends_with suffix (String c (s +:+ suffix)) = true).
  cbn [ends_with]. rewrite IH. apply orb_true_r.
Qed.

(** X19.  With the selector [all] and no output path given, the merge
    writes to a path that is none of the files it reads, provided a path
    takes the stem it is given: the output stem ends in [_merge], and the
    files with such a stem were left out. *)
Theorem merge_all_output_is_no_input (a : arguments) (selector : string)
  (file_paths : list string) (merge_output : string) (unique : nat)
  (st : merge_state) (raised : option exn) :
  (forall p stem, path_stem (path_with_stem p stem) = stem) ->
  merge a = Some selector -> lower selector = "all" ->
  output_file a = None ->
  merge_file_paths selector = Ok file_paths ->
  snd (process a) = Ok (Merged merge_output unique st raised) ->
  (merge_output ∉ file_paths)
  /\ (exists first_file rest,
         file_paths = first_file :: rest
         /\ merge_output
            = path_with_stem first_file (path_stem first_file +:+ "_merge")).
Proof.
  intros Hstem Hmerge Hall Hout Hpaths H.
  assert (is_empty selector = false) as Hsel.
  { destruct selector; [discriminate | reflexivity]. }
  unfold process in H. rewrite Hmerge, Hsel in H.
  unfold process_merge in H. rewrite Hpaths, Hout in H. cbn [snd] in H.
  destruct (snd (validate_all file_paths)); [|discriminate].
  assert (file_paths
          = List.filter (fun f => negb (ends_with "_merge" (path_stem f)))
                        cwd_jsonl
          /\ (2 <= List.length file_paths)%nat) as [Hfilter Hlen].
  { unfold merge_file_paths in Hpaths. rewrite Hall in Hpaths.
    cbn [String.eqb Ascii.eqb Bool.eqb] in Hpaths.
    set (jsonl_files := List.filter _ cwd_jsonl) in *.
    destruct (Nat.ltb_spec (List.length jsonl_files) 2) as [Hlt|Hge];
      [discriminate|].
    injection Hpaths as <-. auto. }
  destruct file_paths as [|first_file rest]; [simpl in Hlen; lia|].
  destruct (merge_jsonl_files (first_file :: rest)) as [r|e]; [|discriminate].
  cbn [bind] in H. injection H as <- _ _ _.
  split; [|eauto]. intros Hin. rewrite Hfilter in Hin.
  apply list_elem_of_In, filter_In in Hin as [_ Hin].
  rewrite Hstem, ends_with_append in Hin. discriminate.
Qed.

(** ** The preview and the loop *)

(** The preview is made from the first record of the file. *)
Lemma preview_lines_first (c : config) (content : lines) :
  preview_lines c content =
  match first_valid_record content with
  | None => Ok None
  | Some record =>
      let* delete := should_delete_dyn record (delete_conditions_dict c) in
      if delete then Ok (Some (record, None))
      else
        let* modified_record := transform c record in
        Ok (Some (record, Some modified_record))
  end.
Proof.
  induction content as [|line rest IH]; [reflexivity|].
  cbn [preview_lines first_valid_record]. unfold parse_line.
  destruct (is_empty (strip line)); [exact IH|].
  destruct (json_loads (strip line)); [reflexivity | exact IH].
Qed.

(** The loop on a line that holds a record. *)
Lemma process_line_record (c : config) (s : process_state) (line : string)
  (record : json) :
  parse_line line = Some record ->
  process_line c s line =
  let* delete := should_delete_dyn record (delete_conditions_dict c) in
  if delete then
    Ok {| written := written s;
          records_processed := records_processed s;
          records_deleted := S (records_deleted s);
          completed := S (completed s) |}
  else
    let* modified_record := transform c record in
    Ok {| written := written s ++ [json_dumps modified_record +:+ nl];
          records_processed := S (records_processed s);
          records_deleted := records_deleted s;
          completed := S (completed s) |}.
Proof.
  unfold parse_line, process_line.
  destruct (is_empty (strip line)); [discriminate|]. now intros ->.
Qed.

(** X21.  The preview tells what the run would do with the first record of
    the file: the record it shows is the first line that is not blank and
    parses; when it shows a modified record, the loop writes that record
    for the line and counts it as processed; when it shows none, the loop
    writes nothing for the line and counts it as deleted. *)
Theorem preview_shows_what_is_written (c : config) (content : lines)
  (record : json) (shown : option json) :
  preview_lines c content = Ok (Some (record, shown)) ->
  first_valid_record content = Some record
  /\ forall (s : process_state) (line : string),
       parse_line line = Some record ->
       process_line c s line
       = Ok match shown with
            | Some modified_record =>
                {| written := written s
                              ++ [json_dumps modified_record +:+ nl];
                   records_processed := S (records_processed s);
                   records_deleted := records_deleted s;
                   completed := S (completed s) |}
            | None =>
                {| written := written s;
                   records_processed := records_processed s;
                   records_deleted := S (records_deleted s);
                   completed := S (completed s) |}
            end.
Proof.
  rewrite preview_lines_first.
  destruct (first_valid_record content) as [r|]; [|discriminate].
  intros H.
  destruct (should_delete_dyn r (delete_conditions_dict c)) as [delete|e]
    eqn:Hdel; [|discriminate].
  cbn [bind] in H. destruct delete.
  - injection H as <- <-. split; [reflexivity|]. intros s line Hline.
    rewrite (process_line_record c s line r Hline), Hdel. reflexivity.
  - destruct (transform c r) as [m|e] eqn:Ht; [|discriminate].
    injection H as <- <-. split; [reflexivity|]. intros s line Hline.
    rewrite (process_line_record c s line r Hline), Hdel. cbn [bind].
    now rewrite Ht.
Qed.

(** ** A line that holds no record *)

Lemma should_delete_other_cases (record : json) (delete_conditions : dict) :
  should_delete_other record delete_conditions = Ok false
  \/ should_delete_other record delete_conditions = Raise TypeError.
Proof.
  induction delete_conditions as [|[key cond] rest IH]; [now left|].
  cbn [should_delete_other].
  destruct (py_in key record) as [present|e] eqn:Hin; cbn [bind].
  - destruct present; [now right | exact IH].
  - right. now apply py_in_Raise in Hin as ->.
Qed.

Lemma process_line_scalar (c : config) (s : process_state) (line : string)
  (r : json) :
  parse_line line = Some r -> is_scalar r = true ->
  process_line c s line = Raise TypeError
  \/ process_line c s line = Raise AttributeError.
Proof.
  intros Hline Hscalar. rewrite (process_line_record c s line r Hline).
  assert (should_delete_dyn r (delete_conditions_dict c)
          = should_delete_other r (delete_conditions_dict c)) as ->.
  { destruct r; try reflexivity; discriminate. }
  destruct (should_delete_other_cases r (delete_conditions_dict c))
    as [-> | ->]; [right | now left].
  cbn [bind]. unfold transform.
  destruct r; try discriminate; reflexivity.
Qed.

(** X22.  A line that passes the validator need not hold a record.  When
    the loop comes to a line that holds a number, a string, a boolean or
    [null], it raises [TypeError] or [AttributeError]: the output has by
    then what the lines before gave, and nothing of the line or of the
    lines after it. *)
Theorem process_stops_at_scalar_record (c : config) (pre post : lines)
  (line : string) (r : json) :
  objects_only pre -> parse_line line = Some r -> is_scalar r = true ->
  exists st e,
    process_lines c (pre ++ line :: post) = (st, Some e)
    /\ (e = TypeError \/ e = AttributeError)
    /\ written st = flat_map (emitted c) pre
    /\ completed st = List.length pre.
Proof.
  intros Hobj Hline Hscalar.
  destruct (run_process_lines c pre process_start Hobj)
    as (st & Hrun & Hw & _ & _ & Hc).
  unfold process_lines.
  change (run (fun s line => attempt s (process_line c s line)))
    with (run (process_body c)).
  rewrite run_app, Hrun. cbn [run]. unfold process_body at 1.
  destruct (process_line_scalar c st line r Hline Hscalar) as [-> | ->];
    cbn [attempt]; eexists _, _; (split; [reflexivity|]); auto.
Qed.

(** ** The lines of the output of the loop *)




(** ** The preview table *)

Lemma should_delete_dyn_nil (record : json) :
  should_delete_dyn record [] = Ok false.
Proof. now destruct record. Qed.

(** X24.  When the first record of the file matches a delete condition,
    the preview prints a table with the one row [Delete Condition] and no
    example record. *)
Theorem preview_of_deleted_record (c : config) (content : lines)
  (record : json) :
  preview_lines c content = Ok (Some (record, None)) ->
  preview_table c (record, None)
  = Ok ([DeleteCondition (delete_conditions_dict c)], None).
Proof.
  rewrite preview_lines_first.
  destruct (first_valid_record content) as [r|]; [|discriminate].
  destruct (should_delete_dyn r (delete_conditions_dict c)) as [[]|e] eqn:Hdel;
    cbn [bind]; try discriminate.
  - intros [= <-]. unfold preview_table, show_changes_preview. simpl.
    destruct (delete_conditions_dict c) as [|x conds]; [|reflexivity].
    rewrite should_delete_dyn_nil in Hdel. discriminate.
  - destruct (transform c r); discriminate.
Qed.

(** The rename rows for an object: the renames whose old key it has. *)
Lemma renamed_rows_object (record : dict) (keys_modified : renames) :
  exists rows,
    renamed_rows (JObj record) keys_modified = Ok rows
    /\ forall row,
         row ∈ rows <->
         exists old_key new_key,
           row = RenamedKey old_key new_key
           /\ (old_key, new_key) ∈ keys_modified /\ old_key ∈ keys record.
Proof.
  induction keys_modified as [|[old new] rest (rows & Hrows & Hin)].
  - exists []. split; [reflexivity|]. intros row. split.
    + intros H. inversion H.
    + intros (o & n & _ & H & _). inversion H.
  - cbn [renamed_rows py_in bind]. rewrite Hrows. cbn [bind].
    eexists. split; [reflexivity|]. intros row.
    destruct (dict_mem record old) eqn:Hmem.
    + apply dict_mem_true in Hmem. rewrite elem_of_cons, Hin. split.
      * intros [-> | (o & n & -> & H1 & H2)].
        -- exists old, new. split; [reflexivity|].
           split; [apply list_elem_of_here | exact Hmem].
        -- exists o, n. split; [reflexivity|].
           split; [now apply list_elem_of_further | exact H2].
      * intros (o & n & -> & H1 & H2).
        apply elem_of_cons in H1 as [[= -> ->] | H1]; [now left | right; eauto].
    + rewrite Hin. split.
      * intros (o & n & -> & H1 & H2). exists o, n. split; [reflexivity|].
        split; [now apply list_elem_of_further | exact H2].
      * intros (o & n & -> & H1 & H2).
        apply elem_of_cons in H1 as [[= -> ->] | H1]; [|eauto].
        apply dict_mem_true in H2. congruence.
Qed.

Lemma add_keys_added (record keys_to_add : dict) (k : string) :
  k ∈ keys keys_to_add -> k ∈ keys (add_keys record keys_to_add).
Proof.
  intros Hin. apply dict_mem_true. unfold dict_mem. rewrite add_keys_get.
  destruct (dict_get (rev keys_to_add) k) eqn:E; [reflexivity|].
  apply dict_get_None in E. rewrite keys_rev in E. exfalso. apply E.
  apply list_elem_of_In, in_rev. rewrite rev_involutive.
  now apply list_elem_of_In.
Qed.

(** X25.  For a record that is kept the preview table lists every addition,
    and it lists a rename exactly when its old key is a key of the record
    as read.  The renames are carried out on the record after the
    additions, so the rename of a key that the run adds is carried out,
    and shows in the example record, without being listed. *)
Theorem preview_lists_renames_of_read_keys (c : config) (record : dict)
  (modified_record : json) :
  exists rows,
    preview_table c (JObj record, Some modified_record)
    = Ok (rows, if truthy modified_record then Some modified_record else None)
    /\ (forall key value,
           (key, value) ∈ keys_to_add_dict c -> AddedKey key value ∈ rows)
    /\ (forall old_key new_key,
           RenamedKey old_key new_key ∈ rows <->
           (old_key, new_key) ∈ keys_to_modify_dict c /\ old_key ∈ keys record)
    /\ (forall key new_key,
           key ∉ keys record -> key ∈ keys (keys_to_add_dict c) ->
           dict_get (keys_to_modify_dict c) key = Some new_key ->
           (RenamedKey key new_key ∉ rows)
           /\ new_key ∈ keys (transform_record c record)).
Proof.
  destruct (renamed_rows_object record (keys_to_modify_dict c))
    as (rrows & Hren & Hin).
  unfold preview_table, show_changes_preview. cbn [fst snd]. rewrite Hren.
  cbn [bind]. eexists. split; [reflexivity|].
  assert (forall old_key new_key,
             RenamedKey old_key new_key
             ∈ added_rows (Some (keys_to_add_dict c)) ++ rrows
               ++ chatml_rows (Some (chatml_config_dict c))
               ++ delete_rows (Some (delete_conditions_dict c))
             <-> (old_key, new_key) ∈ keys_to_modify_dict c
                 /\ old_key ∈ keys record) as Hrows.
  { intros old_key new_key. rewrite !elem_of_app, Hin. split.
    - intros [H | [H | [H | H]]].
      + unfold added_rows in H. apply list_elem_of_fmap in H as (kv & E & _).
        discriminate.
      + destruct H as (o & n & [= -> ->] & H1 & H2). auto.
      + unfold chatml_rows in H. apply list_elem_of_In, in_flat_map in H
          as (entry & _ & H).
        destruct (snd entry); [inversion H|].
        destruct H as [E | []]. discriminate.
      + unfold delete_rows in H.
        destruct (delete_conditions_dict c); [inversion H|].
        apply list_elem_of_singleton in H. discriminate.
    - intros [H1 H2]. right. left. eauto. }
  split; [|split; [exact Hrows|]].
  - intros key value H. apply elem_of_app. left. unfold added_rows.
    apply list_elem_of_fmap. now exists (key, value).
  - intros key new_key Hnew Hadd Hget. split.
    + rewrite Hrows. tauto.
    + unfold transform_record.
      destruct (keys_to_add_dict c) as [|a adds] eqn:Ea; [inversion Hadd|].
      destruct (keys_to_modify_dict c) as [|m ms] eqn:Em; [discriminate|].
      assert (new_key ∈ keys (modify_keys (add_keys record (a :: adds))
                                          (m :: ms))) as Hmod.
      { rewrite keys_modify_keys, elem_first_occurrence.
        apply list_elem_of_fmap. exists key. split.
        - unfold renamed. now rewrite Hget.
        - now apply add_keys_added. }
      destruct (chatml_config_dict c) as [|x chat]; [exact Hmod|].
      destruct (chatml_fold_keys
                  (modify_keys (add_keys record (a :: adds)) (m :: ms))
                  (x :: chat)
                  (modify_keys (add_keys record (a :: adds)) (m :: ms)))
        as (new & Hkeys & _).
      unfold convert_to_chatml_function. rewrite Hkeys.
      apply elem_of_app. now left.
Qed.

Lemma preview_lists_renames_of_read_keys_witness :
  exists rows,
    preview_table config_add_a_rename
                  (JObj [("x", JInt 1)],
                   Some (JObj (transform_record config_add_a_rename
                                                [("x", JInt 1)])))
    = Ok (rows,
          Some (JObj (transform_record config_add_a_rename [("x", JInt 1)])))
    /\ (RenamedKey "a" "b" ∉ rows)
    /\ "b" ∈ keys (transform_record config_add_a_rename [("x", JInt 1)]).
Proof.
  destruct (preview_lists_renames_of_read_keys
              config_add_a_rename [("x", JInt 1)]
              (JObj (transform_record config_add_a_rename [("x", JInt 1)])))
    as (rows & Htable & _ & _ & Hadded).
  exists rows. split; [exact Htable|].
  apply (Hadded "a" "b").
  - intros H. apply list_elem_of_singleton in H. discriminate.
  - apply list_elem_of_here.
  - reflexivity.
Defined.

(** ** How a run of [process] can fail *)








End FileProperties.

(** * The examples run *)

Lemma merge_first_seen_wins_witness :
  exists unique st,
    merge_jsonl_files (Ev := example_env)
                      ["a.jsonl"; "b.jsonl"]
    = Ok (unique, (st, None))
    /\ out st = [json_dumps (Ev := example_env) rec_1 +:+ nl;
                 json_dumps (Ev := example_env) rec_2 +:+ nl;
                 json_dumps (Ev := example_env) rec_3 +:+ nl]
    /\ total_written st = 3%nat
    /\ total_skipped st = 1%nat.
Proof.
  destruct (merge_first_seen_wins (Ev := example_env))
    as (_ & _ & _ & Hex).
  apply Hex; reflexivity.
Defined.

Lemma identity_field_from_first_record_witness :
  exists ids, collect_ids_from_file (Ev := example_env) "a.jsonl"
              = Ok (ids, "id").
Proof.
  destruct (identity_field_from_first_record (Ev := example_env)
              "a.jsonl" file_a eq_refl) as (_ & _ & _ & Hret & _).
  apply (Hret) with (r := rec_1); [| reflexivity | reflexivity].
  intros line r Hin Hp. unfold file_a in Hin.
  apply elem_of_cons in Hin as [->|Hin];
    [|apply list_elem_of_singleton in Hin as ->];
    vm_compute in Hp; injection Hp as <-; eexists; reflexivity.
Defined.

(** C2 as stated fails for a file whose first record has none of the three
    fields while a later record has one: the error is raised although a
    record of the file yields an identity field. *)
Lemma identity_error_though_a_record_has_id :
  fs (env := example_env) "x.jsonl" = Some file_x
  /\ collect_ids_from_file (Ev := example_env) "x.jsonl"
     = Raise (ValueError
                "No valid ID field (_id, uuid, or id) found in x.jsonl")
  /\ (text_2 +:+ nl) ∈ file_x
  /\ parse_line (Ev := example_env) (text_2 +:+ nl) = Some rec_2
  /\ get_id_field_name rec_2 = Ok (Some "id").
Proof.
  repeat split; try reflexivity.
  unfold file_x. apply list_elem_of_further, list_elem_of_here.
Qed.

Lemma merge_drops_record_without_identity_witness :
  merge_line (Ev := example_env) "id" merge_start (text_x +:+ nl)
  = Ok merge_start.
Proof.
  destruct (merge_drops_record_without_identity (Ev := example_env)
              "id" (text_x +:+ nl) [("x", JInt 1)] eq_refl eq_refl)
    as (Hline & _).
  apply Hline.
Defined.

Lemma example_repr_no_newline : no_newline_repr (Ev := example_env).
Proof. intros f. reflexivity. Qed.

Lemma example_merge_runs :
  exists unique st e,
    merge_jsonl_files (Ev := example_env) ["a.jsonl"; "b.jsonl"]
    = Ok (unique, (st, e)).
Proof. eexists _, _, _. vm_compute. reflexivity. Qed.

Lemma merge_output_has_no_blank_line_witness :
  (forall st, merge_line (Ev := example_env) "id" st nl = Ok st)
  /\ exists unique st e,
       merge_jsonl_files (Ev := example_env) ["a.jsonl"; "b.jsonl"]
       = Ok (unique, (st, e))
       /\ text_lines (file_text (out st)) = out st.
Proof.
  destruct (merge_output_has_no_blank_line (Ev := example_env))
    as (Hblank & Hlines & _).
  split.
  - apply (Hblank "id" nl eq_refl).
  - destruct example_merge_runs as (unique & st & e & Hm).
    exists unique, st, e. split; [exact Hm|].
    apply (Hlines example_repr_no_newline _ _ _ _ Hm).
Defined.

Lemma process_reports_counts_witness :
  exists st,
    process_lines (Ev := example_env) config_add_b file_m = (st, None)
    /\ completed st = 3%nat
    /\ records_processed st = 1%nat
    /\ records_deleted st = 0%nat
    /\ written st
       = [json_dumps (Ev := example_env)
            (JObj [("id", JInt 1); ("text", JStr "hi"); ("b", JInt 2)]) +:+ nl;
          "oops"; nl; nl].
Proof.
  destruct (process_reports_counts (Ev := example_env) config_add_b file_m)
    as (st & Hrun & Hc & Hp & Hd & _ & Hw & _).
  - intros line r Hin Hparse. unfold file_m in Hin.
    apply elem_of_cons in Hin as [->|Hin];
      [|apply elem_of_cons in Hin as [->|Hin];
        [|apply list_elem_of_singleton in Hin as ->]];
      vm_compute in Hparse; try discriminate Hparse.
    injection Hparse as <-. eexists. reflexivity.
  - exists st. split; [exact Hrun|]. rewrite Hc, Hp, Hd, Hw.
    repeat split; reflexivity.
Defined.

Lemma bad_reshape_rejected_after_validation_witness :
  snd (process (Ev := example_env) args_one_field) = Raise (Exit 1)
  /\ lines_validated (process (Ev := example_env) args_one_field) = 2%nat.
Proof.
  destruct (bad_reshape_rejected_after_validation (Ev := example_env)
              args_one_field ("m", Fields ["u"]))
    as (Hexit & Hread & _).
  - left. reflexivity.
  - apply list_elem_of_here.
  - exists ["u"]. split; [reflexivity | left; reflexivity].
  - split; [exact Hexit|].
    apply (Hread "a.jsonl" file_a); reflexivity.
Defined.

(** C6 as stated fails twice.  For one input file the run is rejected, but
    only after the validator has read (and parsed) every line of the file;
    with a merge selector the reshape configuration is not looked at, and
    the run ends normally with the merged output. *)
Lemma bad_reshape_not_rejected_before_reading :
  process (Ev := example_env) args_one_field
  = ([("a.jsonl", 2%nat)], Raise (Exit 1))
  /\ ~ rejected_before_reading (process (Ev := example_env) args_one_field)
  /\ (exists output unique st,
         snd (process (Ev := example_env) args_one_field_merge)
         = Ok (Merged output unique st None))
  /\ ~ rejected_before_reading
         (process (Ev := example_env) args_one_field_merge).
Proof.
  split; [reflexivity|]. split.
  { intros [_ H]. vm_compute in H. discriminate. }
  split.
  { eexists _, _, _. vm_compute. reflexivity. }
  intros [H _]. vm_compute in H. discriminate.
Qed.

(** * More examples *)

Lemma example_collect_a :
  exists ids,
    collect_ids_from_file (Ev := example_env) "a.jsonl" = Ok (ids, "id").
Proof. eexists. vm_compute. reflexivity. Qed.

Lemma example_merge_ends :
  exists unique st,
    merge_jsonl_files (Ev := example_env) ["a.jsonl"; "b.jsonl"]
    = Ok (unique, (st, None)).
Proof. eexists _, _. vm_compute. reflexivity. Qed.

Lemma validator_stops_at_first_bad_line_witness :
  exists pre line post,
    file_m = pre ++ line :: post
    /\ fst (validator_reads (Ev := example_env) file_m) = S (List.length pre)
    /\ json_loads (env := example_env) (strip line) = None.
Proof.
  destruct (validator_stops_at_first_bad_line (Ev := example_env) file_m
              eq_refl)
    as (pre & line & post & H1 & H2 & _ & _ & H3).
  exists pre, line, post. auto.
Defined.

Lemma collect_ids_are_the_identities_witness :
  exists ids,
    collect_ids_from_file (Ev := example_env) "a.jsonl" = Ok (ids, "id")
    /\ "2" ∈ ids.
Proof.
  destruct example_collect_a as [ids H]. exists ids. split; [exact H|].
  apply (proj2 (collect_ids_are_the_identities (Ev := example_env)
                  "a.jsonl" file_a ids "id" eq_refl H "2")).
  exists (text_2 +:+ nl), [("id", JInt 2); ("text", JStr "bye")].
  split; [apply list_elem_of_further, list_elem_of_here|].
  split; [reflexivity|]. split; [discriminate | reflexivity].
Defined.

Lemma merge_aborts_without_identity_field_witness :
  merge_jsonl_files (Ev := example_env) ["a.jsonl"; "x.jsonl"; "b.jsonl"]
  = Raise (Exit 1).
Proof.
  apply (merge_aborts_without_identity_field (Ev := example_env)
           ["a.jsonl"] ["b.jsonl"] "x.jsonl"
           "No valid ID field (_id, uuid, or id) found in x.jsonl").
  - intros p Hp. apply list_elem_of_singleton in Hp as ->.
    destruct example_collect_a as [ids H]. eauto.
  - reflexivity.
Defined.


Lemma merge_absorbs_known_identities_witness :
  exists unique st1 st2,
    merge_jsonl_files (Ev := example_env) ["a.jsonl"]
    = Ok (unique, (st1, None))
    /\ merge_jsonl_files (Ev := example_env) ["a.jsonl"; "a.jsonl"]
       = Ok (unique, (st2, None))
    /\ out st2 = out st1.
Proof.
  destruct (merge_absorbs_known_identities (Ev := example_env)
              ["a.jsonl"] ["a.jsonl"])
    as (unique & st1 & st2 & H1 & H2 & H3 & _).
  - discriminate.
  - intros p Hp.
    apply elem_of_cons in Hp as [->|Hp];
      [|apply list_elem_of_singleton in Hp as ->];
      destruct example_collect_a as [ids H]; eauto.
  - reflexivity.
  - exists unique, st1, st2. auto.
Defined.

Lemma merge_totals_are_sums_of_reports_witness :
  exists unique st,
    merge_jsonl_files (Ev := example_env) ["a.jsonl"; "b.jsonl"]
    = Ok (unique, (st, None))
    /\ map report_file (reports st) = ["a.jsonl"; "b.jsonl"]
    /\ total_written st = list_sum (map report_written (reports st)).
Proof.
  destruct example_merge_ends as (unique & st & H).
  destruct (merge_totals_are_sums_of_reports (Ev := example_env) _ _ _ H)
    as (Hf & Hw & _).
  exists unique, st. auto.
Defined.

Lemma merge_selection_witness :
  (2 <= List.length ["a.jsonl"; "b.jsonl"])%nat
  /\ ["a.jsonl"; "b.jsonl"] = map strip (split_on ","%char "a.jsonl, b.jsonl").
Proof.
  destruct (merge_selection (Ev := example_env) "a.jsonl, b.jsonl")
    as [_ Hok].
  destruct (Hok ["a.jsonl"; "b.jsonl"] eq_refl) as (H2 & _ & Hnamed).
  split; [exact H2|]. apply Hnamed. discriminate.
Defined.

Lemma merge_all_output_is_no_input_witness :
  "a.jsonl_merge" ∉ ["a.jsonl"; "b.jsonl"].
Proof.
  eapply (merge_all_output_is_no_input (Ev := example_env_two)
            args_merge_all "ALL" ["a.jsonl"; "b.jsonl"] "a.jsonl_merge").
  - intros p stem. reflexivity.
  - reflexivity.
  - reflexivity.
  - reflexivity.
  - reflexivity.
  - vm_compute. reflexivity.
Defined.

Lemma process_runs_on_validated_input_witness :
  exists input content,
    input_file args_add_b = Some input
    /\ fs (env := example_env) input = Some content
    /\ 2%nat = List.length content.
Proof.
  destruct (process_runs_on_validated_input (Ev := example_env) args_add_b)
    as [Hloop _].
  edestruct Hloop as (input & content & H1 & H2 & H3 & _);
    [vm_compute; reflexivity|].
  exists input, content. auto.
Defined.

Lemma preview_shows_what_is_written_witness :
  process_line (Ev := example_env) config_add_b process_start (text_1 +:+ nl)
  = Ok {| written :=
            [json_dumps (Ev := example_env)
               (JObj [("id", JInt 1); ("text", JStr "hi"); ("b", JInt 2)])
             +:+ nl];
          records_processed := 1; records_deleted := 0; completed := 1 |}.
Proof.
  destruct (preview_shows_what_is_written (Ev := example_env) config_add_b
              file_a rec_1
              (Some (JObj [("id", JInt 1); ("text", JStr "hi"); ("b", JInt 2)]))
              eq_refl) as [_ Hline].
  apply (Hline process_start (text_1 +:+ nl)). reflexivity.
Defined.

Lemma process_stops_at_scalar_record_witness :
  exists st e,
    process_lines (Ev := example_env_two) config_add_b file_5 = (st, Some e)
    /\ written st
       = [json_dumps (Ev := example_env_two)
            (JObj [("id", JInt 1); ("text", JStr "hi"); ("b", JInt 2)])
          +:+ nl].
Proof.
  destruct (process_stops_at_scalar_record (Ev := example_env_two)
              config_add_b [text_1 +:+ nl] [text_2 +:+ nl] ("5" +:+ nl)
              (JInt 5))
    as (st & e & H & _ & Hw & _).
  - intros line r Hin Hp. apply list_elem_of_singleton in Hin as ->.
    vm_compute in Hp. injection Hp as <-. eexists. reflexivity.
  - reflexivity.
  - reflexivity.
  - exists st, e. split; [exact H|]. rewrite Hw. reflexivity.
Defined.


Lemma preview_of_deleted_record_witness :
  preview_table config_delete_1 (rec_1, None)
  = Ok ([DeleteCondition [("id", JInt 1)]], None).
Proof.
  apply (preview_of_deleted_record (Ev := example_env) config_delete_1 file_a
           rec_1).
  reflexivity.
Defined.

Lemma validate_jsonl_file_iff_witness :
  validate_jsonl_file (Ev := example_env) "a.jsonl" = true.
Proof.
  apply (proj2 (validate_jsonl_file_iff (Ev := example_env) "a.jsonl")).
  exists file_a. split; [reflexivity|].
  intros line Hin. right.
  apply elem_of_cons in Hin as [->|Hin];
    [|apply list_elem_of_singleton in Hin as ->];
    eexists; vm_compute; reflexivity.
Defined.

Lemma merge_reads_objects_only_witness :
  exists content,
    fs (env := example_env) "b.jsonl" = Some content
    /\ objects_only (Ev := example_env) content.
Proof.
  destruct example_merge_ends as (unique & st & H).
  apply (merge_reads_objects_only (Ev := example_env) _ _ H "b.jsonl").
  apply list_elem_of_further, list_elem_of_here.
Defined.

